(** * Realtime chat servers (Socket.IO): a shallow embedding

    Two server variants live in this repository:

    - [Server]: [src/server/server.js], the Mongo-backed server
      (Mongoose models [Message] and [Room], an [onlineUsers] map);
    - [InMem]: the in-memory server of [src/unnamed/part_000]
      ([MESSAGES], [ROOMS], [ONLINE], [USERS_BY_ID], [safeHandler]).

    Every socket handler is a function in a small state/writer/exception
    monad: the state is the server's stores, the log is the sequence of
    emitted events and acknowledgement calls, and an exception is what a
    JavaScript [throw] (or a rejected [await]) is.  File logging and
    [console] output are not part of the model. *)

From Equations Require Import Equations.
From stdpp Require Import base decidable option list strings gmap sorting pretty.
From Stdlib Require Import ZArith Lia Ascii.

Local Open Scope Z_scope.

(** ** JavaScript values *)

(** Payload fields are [option string]: [None] is [undefined]/[null]. *)
Definition truthy (s : string) : bool := bool_decide (s ≠ "").

(** [!x] on an optional string. *)
Definition falsy (o : option string) : bool :=
  match o with Some s => negb (truthy s) | None => true end.

(** [a || b] where both sides may be undefined. *)
Definition js_or (a b : option string) : option string :=
  match a with
  | Some s => if truthy s then a else b
  | None => b
  end.

(** [a || "literal"]. *)
Definition js_or_str (a : option string) (d : string) : string :=
  match a with
  | Some s => if truthy s then s else d
  | None => d
  end.

Infix "||?" := js_or (at level 50, left associativity).
Infix "||:" := js_or_str (at level 50, left associativity).

(** Strings are held as the bytes of their UTF-8 encoding.

    [String.prototype.trim] strips the WhiteSpace and LineTerminator code
    points of ECMAScript from both ends: U+0009 to U+000D and U+0020, one
    byte each; U+00A0, two bytes; U+1680, U+2000 to U+200A, U+2028,
    U+2029, U+202F, U+205F, U+3000 and U+FEFF, three bytes each. *)
Definition space1 (a : nat) : bool :=
  bool_decide (a ∈ [9; 10; 11; 12; 13; 32]%nat).

Definition space2 (a b : nat) : bool :=
  bool_decide ((a, b) = (194, 160)%nat).

Definition space3 (a b c : nat) : bool :=
  bool_decide (a = 225 ∧ b = 154 ∧ c = 128                      (* U+1680 *)
               ∨ a = 226 ∧ b = 128 ∧ (128 ≤ c ≤ 138)           (* U+2000 to U+200A *)
               ∨ a = 226 ∧ b = 128 ∧ c ∈ [168; 169; 175]        (* U+2028, U+2029, U+202F *)
               ∨ a = 226 ∧ b = 129 ∧ c = 159                    (* U+205F *)
               ∨ a = 227 ∧ b = 128 ∧ c = 128                    (* U+3000 *)
               ∨ a = 239 ∧ b = 187 ∧ c = 191)%nat.              (* U+FEFF *)

(** The white space at the start of [s] removed; with [backwards], [s] is
    a reversed string and the bytes of a character come last byte
    first. *)
Fixpoint strip (backwards : bool) (s : string) : string :=
  match s with
  | String a s1 =>
      if space1 (nat_of_ascii a) then strip backwards s1
      else
        match s1 with
        | String b s2 =>
            if (if backwards then space2 (nat_of_ascii b) (nat_of_ascii a)
                else space2 (nat_of_ascii a) (nat_of_ascii b))
            then strip backwards s2
            else
              match s2 with
              | String c s3 =>
                  if (if backwards
                      then space3 (nat_of_ascii c) (nat_of_ascii b) (nat_of_ascii a)
                      else space3 (nat_of_ascii a) (nat_of_ascii b) (nat_of_ascii c))
                  then strip backwards s3
                  else s
              | EmptyString => s
              end
        | EmptyString => s
        end
  | EmptyString => EmptyString
  end.

Definition trim (s : string) : string :=
  String.rev (strip true (String.rev (strip false s))).

(** U+00A0, the no-break space. *)
Definition nbsp : string := String (ascii_of_nat 194) (String (ascii_of_nat 160) EmptyString).

(** [s.slice(0, n)]. *)
Definition slice0 (n : nat) (s : string) : string := String.substring 0 n s.

(** [arr.slice(-n)]: the last [n] elements. *)
Definition slice_last {A} (n : nat) (l : list A) : list A :=
  drop (length l - n)%nat l.

(** [arr.slice(start)]: a negative [start] counts from the end, and both
    ends are clamped; [slice(-0)] is [slice(0)], the whole array. *)
Definition js_slice {A} (start : Z) (l : list A) : list A :=
  let len := Z.of_nat (length l) in
  drop (Z.to_nat (if bool_decide (start < 0) then Z.max (len + start) 0 else Z.min start len)) l.

(** What [parseInt] returns: an integer, or [NaN] for text that does not
    start with one. *)
Inductive JsInt : Type :=
| Num (z : Z)
| NaN.

(** A list in ascending order of the time stamp [ts]. *)
Definition ascending {A} (ts : A → Z) (l : list A) : Prop :=
  StronglySorted (λ a b, ts a ≤ ts b) l.

(** How often [u] occurs in [l]. *)
Definition occurrences (u : string) (l : list string) : nat :=
  length (filter (λ y, y = u) l).

(** ** JavaScript [Map] and [Set]: insertion-ordered *)

Module JsMap.
Definition t (V : Type) : Type := list (string * V).

Fixpoint get {V} (m : t V) (k : string) : option V :=
  match m with
  | [] => None
  | (k', v) :: m' => if decide (k' = k) then Some v else get m' k
  end.

Definition has {V} (m : t V) (k : string) : bool := bool_decide (is_Some (get m k)).

(** [set] keeps the position of an existing key and appends a new one. *)
Fixpoint set {V} (m : t V) (k : string) (v : V) : t V :=
  match m with
  | [] => [(k, v)]
  | (k', v') :: m' => if decide (k' = k) then (k, v) :: m' else (k', v') :: set m' k v
  end.

Fixpoint delete {V} (m : t V) (k : string) : t V :=
  match m with
  | [] => []
  | (k', v') :: m' => if decide (k' = k) then m' else (k', v') :: delete m' k
  end.

Definition values {V} (m : t V) : list V := m.*2.

(** A [Map] holds a key once. *)
Definition wf {V} (m : t V) : Prop := NoDup m.*1.
End JsMap.

Module JsSet.
Definition t : Type := list string.
Definition has (s : t) (x : string) : bool := bool_decide (x ∈ s).
Definition add (s : t) (x : string) : t := if has s x then s else s ++ [x].
Definition delete (s : t) (x : string) : t := filter (λ y, y ≠ x) s.
End JsSet.

(** ** Handlers: state, emitted events, exceptions *)

Inductive Outcome (A : Type) : Type :=
| Done (a : A)
| Thrown.
Arguments Done {A} a.
Arguments Thrown {A}.

Definition Handler (W E A : Type) : Type := W → list E → W * list E * Outcome A.

Global Instance handler_ret {W E} : MRet (Handler W E) :=
  λ A a w l, (w, l, Done a).

Global Instance handler_bind {W E} : MBind (Handler W E) :=
  λ A B f m w l,
    match m w l with
    | (w', l', Done a) => f a w' l'
    | (w', l', Thrown) => (w', l', Thrown)
    end.

Definition throw {W E A} : Handler W E A := λ w l, (w, l, Thrown).

(** [try { body } catch { handler }]: what [body] did before it threw stays. *)
Definition try_catch {W E A} (body handler : Handler W E A) : Handler W E A :=
  λ w l,
    match body w l with
    | (w', l', Thrown) => handler w' l'
    | r => r
    end.

Definition get_world {W E} : Handler W E W := λ w l, (w, l, Done w).
Definition modify {W E} (f : W → W) : Handler W E unit := λ w l, (f w, l, Done tt).
Definition tell {W E} (e : E) : Handler W E unit := λ w l, (w, l ++ [e], Done tt).
Definition skip {W E} : Handler W E unit := mret tt.

(** [xs.forEach(body)] and [for (const x of xs) body]. *)
Definition for_each {W E A} (xs : list A) (body : A → Handler W E unit) : Handler W E unit :=
  foldr (λ x k, body x;; k) skip xs.

(** [keeps I h Φ]: run from a world that satisfies [I], the handler [h]
    ends in a world that satisfies [I], whether it returns or throws, and
    what it returns satisfies [Φ]. *)
Definition keeps {W E A} (I : W → Prop) (h : Handler W E A) (Φ : A → Prop) : Prop :=
  ∀ w l, I w →
    match h w l with
    | (w', _, Done a) => I w' ∧ Φ a
    | (w', _, Thrown) => I w'
    end.

(** Where an event goes. *)
Inductive Target : Type :=
| IoEmit                          (* io.emit(...): every connection *)
| IoTo (room : string)            (* io.to(room).emit(...) *)
| SocketEmit (sid : string)       (* socket.emit(...): this connection only *)
| SocketTo (sid room : string)    (* socket.to(room).emit(...): the room but this connection *)
| SocketBroadcast (sid : string). (* socket.broadcast.emit(...) *)

Inductive Effect (P K : Type) : Type :=
| Emit (t : Target) (event : string) (p : P)
| AckCall (reply : K).
Arguments Emit {P K} t event p.
Arguments AckCall {P K} reply.

Definition is_ack {P K} (e : Effect P K) : bool :=
  match e with AckCall _ => true | Emit _ _ _ => false end.

(** The acknowledgement replies a run produced, in order. *)
Definition acks {P K} (l : list (Effect P K)) : list K :=
  omap (λ e, match e with AckCall k => Some k | Emit _ _ _ => None end) l.

(** [emits_only h]: [h] returns, leaves the world alone and calls no
    acknowledgement. *)
Definition emits_only {W P K} (h : Handler W (Effect P K) unit) : Prop :=
  ∀ w l, ∃ l', h w l = (w, l ++ l', Done tt) ∧ acks l' = [].

(** The sums of a number of [xs] and a number of [ys]. *)
Definition sums (xs ys : list nat) : list nat :=
  x ← xs; y ← ys; [(x + y)%nat].

(** [acking rs ts h]: when [h] returns it has called the acknowledgement
    a number of times that is in [rs], and when it throws, a number of
    times that is in [ts]. *)
Definition acking {W P K A} (rs ts : list nat) (h : Handler W (Effect P K) A) : Prop :=
  ∀ w l, ∃ w' l' o, h w l = (w', l ++ l', o) ∧
    match o with
    | Done _ => length (acks l') ∈ rs
    | Thrown => length (acks l') ∈ ts
    end.

(** The socket.io adapter: room name to the ids of the sockets in it. *)
Definition Adapter : Type := JsMap.t JsSet.t.

Definition adapter_join (a : Adapter) (room sid : string) : Adapter :=
  JsMap.set a room (JsSet.add (default [] (JsMap.get a room)) sid).

(** [socket.leave]: the adapter drops a room when its last socket leaves. *)
Definition adapter_leave (a : Adapter) (room sid : string) : Adapter :=
  match JsMap.get a room with
  | None => a
  | Some s =>
      let s' := JsSet.delete s sid in
      match s' with
      | [] => JsMap.delete a room
      | _ => JsMap.set a room s'
      end
  end.

(** [io.sockets.adapter.rooms.get(room) || new Set()]. *)
Definition sockets_in (a : Adapter) (room : string) : JsSet.t :=
  default [] (JsMap.get a room).

(** The rooms a connection is a member of. *)
Definition rooms_of (a : Adapter) (sid : string) : list string :=
  (filter (λ kv : string * JsSet.t, sid ∈ kv.2) a).*1.

(** ** Request payloads

    A payload is a JavaScript object; a handler destructures the fields it
    uses and ignores the rest.  One record holds every field either server
    reads; a missing field is [None]. *)

Record FileRef : Type := {
  file_name : option string;
  file_data : option string;
  file_mime : option string }.

(** The nested [payload] object of [privateMessage]. *)
Record Inner : Type := {
  inner_content : option string;
  inner_from : option string }.

Record Payload : Type := {
  p_username : option string;
  p_name : option string;
  p_room : option string;
  p_text : option string;
  p_content : option string;
  p_from : option string;
  p_messageId : option string;
  p_emoji : option string;
  p_by : option string;
  p_reaction : option string;
  p_toUserId : option string;
  p_toSocketId : option string;
  p_isTyping : option bool;
  p_private : option bool;
  p_file : option FileRef;
  p_data : option string;
  p_mime : option string;
  p_payload : option Inner }.

(** [{}] *)
Definition no_fields : Payload :=
  {| p_username := None; p_name := None; p_room := None; p_text := None;
     p_content := None; p_from := None; p_messageId := None; p_emoji := None;
     p_by := None; p_reaction := None; p_toUserId := None; p_toSocketId := None;
     p_isTyping := None; p_private := None; p_file := None; p_data := None;
     p_mime := None; p_payload := None |}.

(** The same object with another client-supplied [from]. *)
Definition with_from (f : option string) (p : Payload) : Payload :=
  {| p_username := p_username p; p_name := p_name p; p_room := p_room p;
     p_text := p_text p; p_content := p_content p; p_from := f;
     p_messageId := p_messageId p; p_emoji := p_emoji p; p_by := p_by p;
     p_reaction := p_reaction p; p_toUserId := p_toUserId p;
     p_toSocketId := p_toSocketId p; p_isTyping := p_isTyping p;
     p_private := p_private p; p_file := p_file p; p_data := p_data p;
     p_mime := p_mime p; p_payload := p_payload p |}.

(** The string-valued fields, to write payloads down:
    [fields [(F_room, "lobby"); (F_content, "hi")]] is
    [{ room: "lobby", content: "hi" }]. *)
Inductive Field : Type :=
| F_username | F_name | F_room | F_text | F_content | F_from | F_messageId
| F_emoji | F_by | F_reaction | F_toUserId | F_toSocketId | F_data | F_mime.

Global Instance Field_eq_dec : EqDecision Field.
Proof. solve_decision. Defined.

Definition set_field (f : Field) (v : string) (p : Payload) : Payload :=
  let upd g old := if decide (f = g) then Some v else old in
  {| p_username := upd F_username (p_username p); p_name := upd F_name (p_name p);
     p_room := upd F_room (p_room p); p_text := upd F_text (p_text p);
     p_content := upd F_content (p_content p); p_from := upd F_from (p_from p);
     p_messageId := upd F_messageId (p_messageId p); p_emoji := upd F_emoji (p_emoji p);
     p_by := upd F_by (p_by p); p_reaction := upd F_reaction (p_reaction p);
     p_toUserId := upd F_toUserId (p_toUserId p);
     p_toSocketId := upd F_toSocketId (p_toSocketId p);
     p_isTyping := p_isTyping p; p_private := p_private p; p_file := p_file p;
     p_data := upd F_data (p_data p); p_mime := upd F_mime (p_mime p);
     p_payload := p_payload p |}.

Definition fields (l : list (Field * string)) : Payload :=
  foldr (λ fv, set_field fv.1 fv.2) no_fields l.

(** What the client emitted after the event name.  socket.io calls the
    handler with these arguments in order, the acknowledgement callback
    last: [emit(ev, payload)] and [emit(ev, payload, cb)] give the handler
    the payload ([None] when it is [null] or missing) and then the
    callback; [emit(ev, cb)] gives it the callback as its first
    argument.  A payload that is not an object (a string, a number) has
    none of the fields a handler reads and is [Some no_fields].  Requests
    with more than one argument before the callback are not modelled. *)
Inductive Args : Type :=
| Emitted (payload : option Payload) (callback : bool)
| EmittedCallback.

(** A function read as a payload object: socket.io's callback is an
    anonymous function, whose [name] is the empty string, and it has no
    other field that a handler reads. *)
Definition callback_fields : Payload :=
  {| p_username := None; p_name := Some ""; p_room := None; p_text := None;
     p_content := None; p_from := None; p_messageId := None; p_emoji := None;
     p_by := None; p_reaction := None; p_toUserId := None; p_toSocketId := None;
     p_isTyping := None; p_private := None; p_file := None; p_data := None;
     p_mime := None; p_payload := None |}.

(** The first parameter of a handler. *)
Definition payload (a : Args) : option Payload :=
  match a with
  | Emitted p _ => p
  | EmittedCallback => Some callback_fields
  end.

(** Whether the second parameter of a handler, [ack], is a function. *)
Definition ack (a : Args) : bool :=
  match a with
  | Emitted _ callback => callback
  | EmittedCallback => false
  end.

(** Whether the last argument is a function. *)
Definition last_is_function (a : Args) : bool :=
  match a with
  | Emitted _ callback => callback
  | EmittedCallback => true
  end.

(** An event sent with the object [p], with or without a callback. *)
Definition sent (p : Payload) (ack : bool) : Args := Emitted (Some p) ack.

(** Parameter destructuring [({ a, b }, ack) => ...] throws a [TypeError]
    on [null]. *)
Definition destructure {W E A} (p : option Payload) (k : Payload → Handler W E A) : Handler W E A :=
  match p with
  | Some o => k o
  | None => throw
  end.

(** * The Mongo-backed server: [src/server/server.js] *)

Module Server.

(** ** Data *)

(** What the authentication middleware attaches to a socket. *)
Record ClerkUser : Type := {
  cu_id : option string;
  cu_username : option string;
  cu_email : option string }.

Record Socket : Type := {
  socket_id : string;
  clerkUser : option ClerkUser }.

(** [socket.clerkUser?.username] and friends. *)
Definition clerk_username (s : Socket) : option string := clerkUser s ≫= cu_username.
Definition clerk_email (s : Socket) : option string := clerkUser s ≫= cu_email.
Definition clerk_id (s : Socket) : option string := clerkUser s ≫= cu_id.

Record Reaction : Type := {
  emoji : string;
  users : list string;
  count : nat }.

(** Modelled from the spec: the [Message] schema ([models/Message.js] is
    not among the sources).  The fields are the ones [server.js] reads and
    writes; [readBy] and [reactions] start as empty arrays, [private] as
    [false], and [_id] is assigned when the document is constructed. *)
Record Message : Type := {
  _id : string;
  content : option string;
  from : string;
  to : option string;
  room : option string;
  timestamp : Z;
  file : option FileRef;
  private : bool;
  readBy : list string;
  reactions : list Reaction }.

(** Modelled from the spec: the [Room] schema ([models/Room.js]). *)
Record RoomDoc : Type := {
  room_id : string;
  room_name : string;
  createdBy : string;
  createdAt : Z }.

Record Notification : Type := {
  n_type : string;
  n_message : option string;
  n_title : option string;
  n_body : option string;
  n_messageId : option string;
  n_private : option bool }.

(** Bodies of emitted events. *)
Inductive Body : Type :=
| BRoomsList (rooms : list (string * string))        (* [{id, name}] *)
| BRooms (rooms : list (string * string))            (* [{name, id}] *)
| BOnlineUsers (us : list (string * string))         (* [{socketId, username}] *)
| BUsers (us : list (string * string))               (* [{id, name, online: true, socketCount: 1}] *)
| BNotification (n : Notification)
| BRoomMessages (r : string) (ms : list Message)     (* {room, messages} *)
| BMessage (m : Message)
| BRoomMessage (r : string) (m : Message)            (* {room, message} *)
| BTyping (socketId : string) (username : option string) (isTyping : option bool)
| BMessageRead (messageId reader : string)
| BRoom (r : string)                                 (* {room} *)
| BRoomUsers (r : string) (us : list (string * string))
| BMessageId (messageId : string).                   (* {messageId} *)

(** Acknowledgement replies. *)
Inductive Reply : Type :=
| Ok                                   (* {ok: true} *)
| OkId (id : string)                   (* {ok: true, id} *)
| OkRoom (id name : string)            (* {ok: true, room: {id, name}} *)
| OkDeleted (n : nat)                  (* {ok: true, deleted} *)
| Fail (error : option string).        (* {ok: false, error?} *)

Definition ok (r : Reply) : bool :=
  match r with Fail _ => false | _ => true end.

Definition error (r : Reply) : option string :=
  match r with Fail e => e | _ => None end.

(** The server's stores.  [Messages] is the Message collection keyed by
    [_id]; [Rooms] is the Room collection in natural order. *)
Record World : Type := {
  Messages : gmap string Message;
  Rooms : list RoomDoc;
  onlineUsers : JsMap.t string;          (* socketId -> username *)
  adapter : Adapter }.

Record Config : Type := {
  ALLOW_ADMIN_DELETE : option string;    (* process.env.ALLOW_ADMIN_DELETE *)
  room_model : bool }.                   (* whether require('./models/Room') succeeds *)

(** What the environment supplies to one request. *)
Record Ctx : Type := {
  now : Z;              (* new Date() / Date.now() *)
  oid : string;         (* the _id of a document constructed by the request *)
  db_up : bool }.       (* whether the database answers during the request *)

Definition init : World :=
  {| Messages := ∅; Rooms := []; onlineUsers := []; adapter := [] |}.

Definition set_Messages (f : gmap string Message → gmap string Message) (w : World) : World :=
  {| Messages := f (Messages w); Rooms := Rooms w; onlineUsers := onlineUsers w; adapter := adapter w |}.
Definition set_Rooms (f : list RoomDoc → list RoomDoc) (w : World) : World :=
  {| Messages := Messages w; Rooms := f (Rooms w); onlineUsers := onlineUsers w; adapter := adapter w |}.
Definition set_onlineUsers (f : JsMap.t string → JsMap.t string) (w : World) : World :=
  {| Messages := Messages w; Rooms := Rooms w; onlineUsers := f (onlineUsers w); adapter := adapter w |}.
Definition set_adapter (f : Adapter → Adapter) (w : World) : World :=
  {| Messages := Messages w; Rooms := Rooms w; onlineUsers := onlineUsers w; adapter := f (adapter w) |}.

Abbreviation H := (Handler World (Effect Body Reply)).

Definition emit (t : Target) (ev : string) (b : Body) : H unit := tell (Emit t ev b).

(** [io.to(x).emit(...)] where [x] may be undefined: a room no socket is
    in. *)
Definition io_to (r : option string) (ev : string) (b : Body) : H unit :=
  match r with
  | Some r => emit (IoTo r) ev b
  | None => skip
  end.

(** [ack && ack(r)] and [if (typeof ack === 'function') ack(r)]. *)
Definition reply (ack : bool) (r : Reply) : H unit :=
  if ack then tell (AckCall r) else skip.

(** ** The database *)

(** Every Mongoose call rejects while the database is down. *)
Definition db_op {A} (ctx : Ctx) (f : World → World * A) : H A :=
  λ w l, if db_up ctx then let '(w', a) := f w in (w', l, Done a) else (w, l, Thrown).

(** [require('./models/Room')] *)
Definition require_Room (cfg : Config) : H unit :=
  if room_model cfg then skip else throw.

(** [Message.findById(id)]: [null] for a missing id. *)
Definition Message_findById (ctx : Ctx) (id : option string) : H (option Message) :=
  db_op ctx (λ w, (w, id ≫= λ i, Messages w !! i)).

(** [doc.save()] *)
Definition Message_save (ctx : Ctx) (m : Message) : H unit :=
  db_op ctx (λ w, (set_Messages <[_id m := m]> w, tt)).

(** [Message.findByIdAndDelete(id)] *)
Definition Message_findByIdAndDelete (ctx : Ctx) (id : string) : H unit :=
  db_op ctx (λ w, (set_Messages (delete id) w, tt)).

Definition in_room (r : string) (m : Message) : Prop := room m = Some r.

Global Instance in_room_dec r m : Decision (in_room r m).
Proof. unfold in_room. apply _. Defined.

(** [Message.deleteMany({ room })]: the reply carries [deletedCount]. *)
Definition Message_deleteMany (ctx : Ctx) (r : string) : H nat :=
  db_op ctx (λ w,
    (set_Messages (filter (λ kv, ¬ in_room r kv.2)) w,
     size (filter (λ kv, in_room r kv.2) (Messages w)))).

(** Newest first. *)
Definition newer (a b : Message) : Prop := timestamp b ≤ timestamp a.

Global Instance newer_dec a b : Decision (newer a b).
Proof. unfold newer. apply _. Defined.

Global Instance newer_total : Total newer.
Proof. intros a b. unfold newer. lia. Defined.

Global Instance newer_trans : Transitive newer.
Proof. intros a b c. unfold newer. lia. Defined.

(** Modelled from the spec: the durable store's "time-range query ordered
    by timestamp descending with a limit", which [server.js] writes as
    [Message.find(q).sort({ timestamp: -1 }).limit(n).lean()].  The query
    engine is Mongoose's and is not among the sources: the documents that
    match, newest first, and the first [n] of them. *)
Definition find_newest (P : Message → Prop) `{∀ m, Decision (P m)}
    (n : Z) (ms : gmap string Message) : list Message :=
  take (Z.to_nat n) (merge_sort newer (filter P (map_to_list ms).*2)).

Definition Message_find_newest (ctx : Ctx) (P : Message → Prop) `{∀ m, Decision (P m)}
    (n : Z) : H (list Message) :=
  db_op ctx (λ w, (w, find_newest P n (Messages w))).

(** [Room.find({}).lean()] *)
Definition Room_find (ctx : Ctx) : H (list RoomDoc) :=
  db_op ctx (λ w, (w, Rooms w)).

(** [Room.findOne({ name }).lean()] *)
Definition Room_findOne (ctx : Ctx) (name : string) : H (option RoomDoc) :=
  db_op ctx (λ w, (w, snd <$> list_find (λ r, room_name r = name) (Rooms w))).

(** [Room.findOneAndDelete({ name })] *)
Definition Room_findOneAndDelete (ctx : Ctx) (name : string) : H unit :=
  db_op ctx (λ w,
    (match list_find (λ r, room_name r = name) (Rooms w) with
     | Some (i, _) => set_Rooms (delete i) w
     | None => w
     end, tt)).

Definition Room_save (ctx : Ctx) (r : RoomDoc) : H unit :=
  db_op ctx (λ w, (set_Rooms (λ rs, rs ++ [r]) w, tt)).

(** ** Helpers of the connection handler *)

(** [onlineUsersArray()]: [{socketId, username}] in insertion order. *)
Definition onlineUsersArray (w : World) : list (string * string) := onlineUsers w.

(** [rooms.map(r => ({ id: r._id, name: r.name }))] *)
Definition roomsPayload (rs : list RoomDoc) : list (string * string) :=
  (λ r, (room_id r, room_name r)) <$> rs.

(** The two events that carry the online users. *)
Definition emit_online (legacy : bool) : H unit :=
  w ← get_world;
  emit IoEmit "onlineUsers" (BOnlineUsers (onlineUsersArray w));;
  if legacy then emit IoEmit "users" (BUsers (onlineUsers w)) else skip.

(** The sockets whose username is the sender or the recipient of [m]. *)
Definition participants (w : World) (m : Message) : list string :=
  (filter (λ su : string * string, su.2 = from m ∨ Some su.2 = to m) (onlineUsers w)).*1.

Definition socket_join (s : Socket) (r : string) : H unit :=
  modify (set_adapter (λ a, adapter_join a r (socket_id s))).

Definition socket_leave (s : Socket) (r : string) : H unit :=
  modify (set_adapter (λ a, adapter_leave a r (socket_id s))).

(** The history sent to a socket that joined [r]: the [n] newest messages
    of the room, oldest first; an empty list when the query fails. *)
Definition send_history (ctx : Ctx) (s : Socket) (r : string) (legacy : bool) : H unit :=
  try_catch
    (msgs ← Message_find_newest ctx (in_room r) 50;
     emit (SocketEmit (socket_id s)) "roomMessages" (BRoomMessages r (reverse msgs));;
     if legacy then emit (SocketEmit (socket_id s)) "room_messages" (BRoomMessages r (reverse msgs))
     else skip)
    (emit (SocketEmit (socket_id s)) "roomMessages" (BRoomMessages r [])).

(** ** The reaction toggle (lines 300-316) *)

Definition toggle_reaction (rs : list Reaction) (e by_ : string) : list Reaction :=
  match list_find (λ x, emoji x = e) rs with
  | None => rs ++ [{| emoji := e; users := [by_]; count := 1 |}]
  | Some (i, r) =>
      if bool_decide (by_ ∈ users r) then
        (* toggle off *)
        let us := filter (λ u, u ≠ by_) (users r) in
        let rs' := <[i := {| emoji := emoji r; users := us; count := length us |}]> rs in
        if bool_decide (length us = 0%nat) then filter (λ x, emoji x ≠ e) rs' else rs'
      else
        let us := users r ++ [by_] in
        <[i := {| emoji := emoji r; users := us; count := length us |}]> rs
  end.

Definition with_reactions (rs : list Reaction) (m : Message) : Message :=
  {| _id := _id m; content := content m; from := from m; to := to m; room := room m;
     timestamp := timestamp m; file := file m; private := private m;
     readBy := readBy m; reactions := rs |}.

Definition with_readBy (rb : list string) (m : Message) : Message :=
  {| _id := _id m; content := content m; from := from m; to := to m; room := room m;
     timestamp := timestamp m; file := file m; private := private m;
     readBy := rb; reactions := reactions m |}.

(** ** Socket handlers *)

(** [io.on('connection')]: the synchronous part registers a
    Clerk-verified name; the rooms snapshot is sent once the query
    returns. *)
Definition on_connection (cfg : Config) (ctx : Ctx) (s : Socket) : H unit :=
  let autoUsername := clerk_username s ||? clerk_email s ||? None in
  match autoUsername with
  | Some u =>
      modify (set_onlineUsers (λ m, JsMap.set m (socket_id s) u));;
      emit_online true
  | None => skip
  end;;
  try_catch
    (require_Room cfg;;
     rooms ← Room_find ctx;
     emit (SocketEmit (socket_id s)) "roomsList" (BRoomsList (roomsPayload rooms));;
     emit (SocketEmit (socket_id s)) "rooms" (BRooms (prod_swap <$> roomsPayload rooms)))
    (emit (SocketEmit (socket_id s)) "roomsList" (BRoomsList [])).

Definition on_rooms_request (cfg : Config) (ctx : Ctx) (s : Socket) (a : Args) : H unit :=
  try_catch
    (require_Room cfg;;
     rooms ← Room_find ctx;
     emit (SocketEmit (socket_id s)) "roomsList" (BRoomsList (roomsPayload rooms));;
     emit (SocketEmit (socket_id s)) "rooms" (BRooms (prod_swap <$> roomsPayload rooms));;
     reply (ack a) Ok)
    (emit (SocketEmit (socket_id s)) "roomsList" (BRoomsList []);;
     reply (ack a) (Fail None)).

(** [socket.on('join', ({ username }) => ...)]: no acknowledgement
    parameter. *)
Definition on_join (ctx : Ctx) (s : Socket) (a : Args) : H unit :=
  destructure (payload a) (λ p,
    let name := clerk_username s ||? p_username p ||? None in
    match name with
    | None => skip
    | Some name =>
        modify (set_onlineUsers (λ m, JsMap.set m (socket_id s) name));;
        emit_online true;;
        emit (SocketBroadcast (socket_id s)) "notification"
          (BNotification {| n_type := "presence"; n_message := Some (name +:+ " joined");
                            n_title := None; n_body := None; n_messageId := None;
                            n_private := None |});;
        (* auto-join default room and send recent history *)
        socket_join s "global";;
        send_history ctx s "global" true
    end).

(** [new Message({ content, from: fromName, room, timestamp })] of the
    [message] handler. *)
Definition new_message (ctx : Ctx) (s : Socket) (p : Payload) (w : World) : Message :=
  (* prefer server-known identity (Clerk username or onlineUsers map) *)
  let fromName :=
    clerk_username s ||? JsMap.get (onlineUsers w) (socket_id s) ||? p_from p ||: "Anonymous" in
  {| _id := oid ctx; content := p_content p; from := fromName; to := None;
     room := Some (p_room p ||: "global"); timestamp := now ctx; file := None;
     private := false; readBy := []; reactions := [] |}.

(** [socket.on('message', async (payload) => ...)]: no acknowledgement
    parameter. *)
Definition on_message (ctx : Ctx) (s : Socket) (a : Args) : H unit :=
  try_catch
    (match payload a with
     | None => throw
     | Some p =>
         w ← get_world;
         let message := new_message ctx s p w in
         Message_save ctx message;;
         emit (IoTo (p_room p ||: "global")) "message" (BMessage message);;
         emit (IoTo (p_room p ||: "global")) "room_message"
           (BRoomMessage (p_room p ||: "global") message)
     end)
    skip.

Definition on_typing (s : Socket) (a : Args) : H unit :=
  destructure (payload a) (λ p,
    w ← get_world;
    emit (SocketTo (socket_id s) (p_room p ||: "global")) "typing"
      (BTyping (socket_id s) (JsMap.get (onlineUsers w) (socket_id s)) (p_isTyping p))).

(** The reader a read receipt is recorded for. *)
Definition reader_of (w : World) (s : Socket) : string :=
  JsMap.get (onlineUsers w) (socket_id s) ||? clerk_username s
    ||: ("anon-" +:+ slice0 6 (socket_id s)).

Definition on_mark_read (ctx : Ctx) (s : Socket) (a : Args) : H unit :=
  destructure (payload a) (λ p,
    try_catch
      (if falsy (p_messageId p) then reply (ack a) (Fail (Some "messageId required"))
       else
         m ← Message_findById ctx (p_messageId p);
         match m with
         | None => reply (ack a) (Fail (Some "not_found"))
         | Some m =>
             w ← get_world;
             let reader := reader_of w s in
             (if bool_decide (reader ∈ readBy m) then skip
              else Message_save ctx (with_readBy (readBy m ++ [reader]) m));;
             emit (IoTo (room m ||: "global")) "message_read" (BMessageRead (_id m) reader);;
             reply (ack a) Ok
         end)
      (reply (ack a) (Fail (Some "server_error")))).

Definition on_file_message (ctx : Ctx) (s : Socket) (a : Args) : H unit :=
  destructure (payload a) (λ p,
    try_catch
      (w ← get_world;
       let msg :=
         {| _id := oid ctx; content := None;
            from := clerk_username s ||? JsMap.get (onlineUsers w) (socket_id s) ||: "Anonymous";
            to := None; room := Some (p_room p ||: "global"); timestamp := now ctx;
            file := Some {| file_name := p_name p; file_data := p_data p; file_mime := p_mime p |};
            private := false; readBy := []; reactions := [] |} in
       Message_save ctx msg;;
       emit (IoTo (p_room p ||: "global")) "file_message" (BMessage msg);;
       reply (ack a) (OkId (_id msg)))
      (reply (ack a) (Fail (Some "server_error")))).

(** [socket.on('privateMessage', async ({ toSocketId, payload }) => ...)] *)
Definition on_privateMessage (ctx : Ctx) (s : Socket) (a : Args) : H unit :=
  destructure (payload a) (λ p,
    try_catch
      (w ← get_world;
       let toUsername := (p_toSocketId p ≫= JsMap.get (onlineUsers w)) ||? None in
       match p_payload p with
       | None => throw                     (* payload.content of undefined *)
       | Some q =>
           let fromName :=
             clerk_username s ||? JsMap.get (onlineUsers w) (socket_id s) ||? inner_from q
               ||: "Anonymous" in
           let message :=
             {| _id := oid ctx; content := inner_content q; from := fromName;
                to := toUsername; room := None; timestamp := now ctx; file := None;
                private := true; readBy := []; reactions := [] |} in
           Message_save ctx message;;
           io_to (p_toSocketId p) "privateMessage" (BMessage message);;
           emit (SocketEmit (socket_id s)) "privateMessage" (BMessage message);;
           io_to (p_toSocketId p) "notification"
             (BNotification {| n_type := "message"; n_message := None;
                               n_title := Some ("New message from " +:+ from message);
                               n_body := content message; n_messageId := Some (_id message);
                               n_private := Some true |})
       end)
      skip).

(** [socket.on('reaction', async ({ messageId, emoji, by }) => ...)]: no
    acknowledgement parameter.  [emoji] and [by] are the strings the
    client sent. *)
Definition on_reaction (ctx : Ctx) (s : Socket) (a : Args) : H unit :=
  destructure (payload a) (λ p,
    try_catch
      (m ← Message_findById ctx (p_messageId p);
       match m with
       | None => skip
       | Some m =>
           let e := default "" (p_emoji p) in
           let by_ := default "" (p_by p) in
           let msg := with_reactions (toggle_reaction (reactions m) e by_) m in
           Message_save ctx msg;;
           if private msg then
             w ← get_world;
             for_each (participants w msg) (λ sid,
               emit (IoTo sid) "messageReaction" (BMessage msg);;
               emit (IoTo sid) "notification"
                 (BNotification {| n_type := "reaction"; n_message := None;
                                   n_title := Some (by_ +:+ " reacted");
                                   n_body := Some (by_ +:+ " reacted " +:+ e +:+ " to a message");
                                   n_messageId := Some (_id msg); n_private := Some true |}));;
             emit (SocketEmit (socket_id s)) "messageReaction" (BMessage msg)
           else
             emit (IoTo (room msg ||: "global")) "messageReaction" (BMessage msg);;
             emit (SocketTo (socket_id s) (room msg ||: "global")) "notification"
               (BNotification {| n_type := "reaction"; n_message := None;
                                 n_title := Some (by_ +:+ " reacted");
                                 n_body := Some (by_ +:+ " reacted " +:+ e);
                                 n_messageId := Some (_id msg); n_private := Some false |})
       end)
      skip).

(** [joinRoom] and its alias [join_room]: the room must exist; a failing
    lookup (no Room model, database down) lets the join through. *)
Definition on_joinRoom (cfg : Config) (ctx : Ctx) (s : Socket) (a : Args) : H unit :=
  destructure (payload a) (λ p,
    try_catch
      (if falsy (p_room p) then reply (ack a) (Fail (Some "room required"))
       else
         let r := default "" (p_room p) in
         (* ensure the room exists before joining *)
         found ← try_catch
                   (require_Room cfg;;
                    exists_ ← Room_findOne ctx r;
                    mret (bool_decide (is_Some exists_)))
                   (mret true);
         if negb found then reply (ack a) (Fail (Some "room_not_found"))
         else
           socket_join s r;;
           emit_online false;;
           send_history ctx s r false)
      skip).

(** [leaveRoom] and its alias [leave_room].  The last [map] of the
    room-users computation names [sid], which is not in scope there: when
    a named user is left in the room the reference throws and the inner
    [catch] drops the [roomUsers] event. *)
Definition on_leaveRoom (s : Socket) (a : Args) : H unit :=
  destructure (payload a) (λ p,
    try_catch
      (if falsy (p_room p) then reply (ack a) (Fail (Some "room required"))
       else
         let r := default "" (p_room p) in
         socket_leave s r;;
         try_catch
           (w ← get_world;
            let names := filter (λ n, truthy n) (omap (JsMap.get (onlineUsers w)) (sockets_in (adapter w) r)) in
            match names with
            | [] => emit (IoTo r) "roomUsers" (BRoomUsers r [])
            | _ => throw
            end)
           skip;;
         reply (ack a) Ok)
      (reply (ack a) (Fail (Some "server_error")))).

(** The rooms list, broadcast after a room was created. *)
Definition broadcast_rooms (ctx : Ctx) : H unit :=
  try_catch
    (rooms ← Room_find ctx;
     emit IoEmit "roomsList" (BRoomsList (roomsPayload rooms));;
     emit IoEmit "rooms" (BRooms (prod_swap <$> roomsPayload rooms)))
    skip.

(** [createRoom] and its alias [create_room]. *)
Definition on_createRoom (cfg : Config) (ctx : Ctx) (s : Socket) (a : Args) : H unit :=
  destructure (payload a) (λ p,
    try_catch
      (if falsy (p_name p) then reply (ack a) (Fail (Some "name required"))
       else
         let name := default "" (p_name p) in
         require_Room cfg;;
         exists_ ← Room_findOne ctx name;
         match exists_ with
         | Some _ => reply (ack a) (Fail (Some "room exists"))
         | None =>
             let r := {| room_id := oid ctx; room_name := name;
                         createdBy := clerk_id s ||: socket_id s; createdAt := now ctx |} in
             Room_save ctx r;;
             reply (ack a) (OkRoom (room_id r) (room_name r));;
             broadcast_rooms ctx
         end)
      (reply (ack a) (Fail (Some "server_error")))).

Definition on_clearRoom (ctx : Ctx) (s : Socket) (a : Args) : H unit :=
  destructure (payload a) (λ p,
    try_catch
      (if falsy (p_room p) then reply (ack a) (Fail (Some "room required"))
       else
         let r := default "" (p_room p) in
         n ← Message_deleteMany ctx r;
         emit (IoTo r) "roomCleared" (BRoom r);;
         reply (ack a) (OkDeleted n))
      (reply (ack a) (Fail (Some "server_error")))).

Definition on_deleteRoom (cfg : Config) (ctx : Ctx) (s : Socket) (a : Args) : H unit :=
  destructure (payload a) (λ p,
    try_catch
      (if falsy (p_room p) then reply (ack a) (Fail (Some "room required"))
       else
         let r := default "" (p_room p) in
         require_Room cfg;;
         Room_findOneAndDelete ctx r;;
         Message_deleteMany ctx r;;
         emit IoEmit "roomDeleted" (BRoom r);;
         broadcast_rooms ctx;;
         reply (ack a) Ok)
      (reply (ack a) (Fail (Some "server_error")))).

(** Who asks for a deletion. *)
Definition requester_of (w : World) (s : Socket) : option string :=
  clerk_username s ||? JsMap.get (onlineUsers w) (socket_id s) ||? None.

(** [process.env.ALLOW_ADMIN_DELETE === 'true'] *)
Definition allowAdmin (cfg : Config) : bool :=
  bool_decide (ALLOW_ADMIN_DELETE cfg = Some "true").

Definition on_deleteMessage (cfg : Config) (ctx : Ctx) (s : Socket) (a : Args) : H unit :=
  destructure (payload a) (λ p,
    try_catch
      (if falsy (p_messageId p) then reply (ack a) (Fail (Some "messageId required"))
       else
         let messageId := default "" (p_messageId p) in
         msg ← Message_findById ctx (p_messageId p);
         match msg with
         | None => reply (ack a) (Fail (Some "not_found"))
         | Some msg =>
             w ← get_world;
             if bool_decide (Some (from msg) ≠ requester_of w s) && negb (allowAdmin cfg) then
               reply (ack a) (Fail (Some "not_authorized"))
             else
               Message_findByIdAndDelete ctx messageId;;
               (if private msg then
                  for_each (participants w msg) (λ sid,
                    emit (IoTo sid) "messageDeleted" (BMessageId messageId))
                else emit (IoTo (room msg ||: "global")) "messageDeleted" (BMessageId messageId));;
               reply (ack a) Ok
         end)
      (reply (ack a) (Fail (Some "server_error")))).

(** [socket.on('disconnect')]; socket.io itself takes the socket out of
    its rooms. *)
Definition on_disconnect (s : Socket) : H unit :=
  w ← get_world;
  let username := JsMap.get (onlineUsers w) (socket_id s) in
  modify (set_onlineUsers (λ m, JsMap.delete m (socket_id s)));;
  modify (set_adapter (λ a, foldr (λ r a, adapter_leave a r (socket_id s)) a (rooms_of a (socket_id s))));;
  emit_online false;;
  emit (SocketBroadcast (socket_id s)) "notification"
    (BNotification {| n_type := "presence"; n_message := Some ((username ||: "A user") +:+ " left");
                      n_title := None; n_body := None; n_messageId := None; n_private := None |}).

(** ** Dispatch *)

Inductive Event : Type :=
| connection | disconnect
| rooms_request | join | message | typing | mark_read | file_message
| privateMessage | reaction | joinRoom | join_room | leaveRoom | leave_room
| createRoom | create_room | clearRoom | deleteRoom | deleteMessage.

Record Request : Type := {
  event : Event;
  socket : Socket;
  args : Args;
  ctx : Ctx }.

Definition handle (cfg : Config) (r : Request) : H unit :=
  match event r with
  | connection => on_connection cfg (ctx r) (socket r)
  | disconnect => on_disconnect (socket r)
  | rooms_request => on_rooms_request cfg (ctx r) (socket r) (args r)
  | join => on_join (ctx r) (socket r) (args r)
  | message => on_message (ctx r) (socket r) (args r)
  | typing => on_typing (socket r) (args r)
  | mark_read => on_mark_read (ctx r) (socket r) (args r)
  | file_message => on_file_message (ctx r) (socket r) (args r)
  | privateMessage => on_privateMessage (ctx r) (socket r) (args r)
  | reaction => on_reaction (ctx r) (socket r) (args r)
  | joinRoom | join_room => on_joinRoom cfg (ctx r) (socket r) (args r)
  | leaveRoom | leave_room => on_leaveRoom (socket r) (args r)
  | createRoom | create_room => on_createRoom cfg (ctx r) (socket r) (args r)
  | clearRoom => on_clearRoom (ctx r) (socket r) (args r)
  | deleteRoom => on_deleteRoom cfg (ctx r) (socket r) (args r)
  | deleteMessage => on_deleteMessage cfg (ctx r) (socket r) (args r)
  end.

(** One request, from a world and an empty log. *)
Definition world_after {A} (r : World * list (Effect Body Reply) * Outcome A) : World := r.1.1.
Definition effects_of {A} (r : World * list (Effect Body Reply) * Outcome A) : list (Effect Body Reply) := r.1.2.

Definition step (cfg : Config) (w : World) (r : Request) : World :=
  world_after (handle cfg r w []).

Definition run (cfg : Config) (reqs : list Request) (w : World) : World :=
  foldl (step cfg) w reqs.

(** The query of the pagination route:
    [{ room, timestamp: { $lt: new Date(before) } }]. *)
Definition eligible (r : string) (before : Z) (m : Message) : Prop :=
  in_room r m ∧ timestamp m < before.

Global Instance eligible_dec r before m : Decision (eligible r before m).
Proof. unfold eligible. apply _. Defined.

(** ** [GET /messages/paginate] (lines 79-91)

    [room], [before] and [limit] are the query parameters after
    [parseInt]; [None] is a missing (or empty) parameter.  A parameter
    that does not parse reaches Mongoose as [NaN]; what the query does
    with it is Mongoose's and not among the sources, so the route is
    modelled for parameters that parse.  [Message] is the required model,
    so the [501] branch is never taken. *)
Inductive Response : Type :=
| Json (messages : list Message)       (* {ok: true, messages} *)
| Status500.                           (* {ok: false, error: 'server_error'} *)

Definition paginate (ctx : Ctx) (w : World) (room_q : option string) (before_q limit_q : option Z) : Response :=
  let r := room_q ||: "global" in
  let before := default (now ctx) before_q in
  let limit := Z.min (default 50 limit_q) 200 in
  match Message_find_newest ctx (eligible r before) limit w [] with
  | (_, _, Done msgs) => Json (reverse msgs)
  | (_, _, Thrown) => Status500
  end.

(** ** Start-up *)

(** What [connectWithRetry] does, in order. *)
Inductive BootStep : Type :=
| Connect (i : nat)        (* await mongoose.connect(...), attempt [i] from 0 *)
| Wait (ms : Z).           (* await new Promise((r) => setTimeout(r, delayMs)) *)

(** The loop of [connectWithRetry] from attempt [i] with [left] attempts
    to go ([retries - i]); [connects i] is whether attempt [i] succeeds. *)
Fixpoint connect_from (connects : nat → bool) (delayMs : Z) (i left : nat) : list BootStep * bool :=
  match left with
  | O => ([], false)
  | S left' =>
      if connects i then ([Connect i], true)
      else
        match left' with
        | S _ =>
            (* i < retries - 1: retry after the delay *)
            let '(steps, connected) := connect_from connects delayMs (S i) left' in
            (Connect i :: Wait delayMs :: steps, connected)
        | O =>
            (* all attempts failed: logged, the process goes on *)
            ([Connect i], false)
        end
  end.

(** [connectWithRetry(retries = 5, delayMs = 2000)] (lines 18-39): what it
    did and whether it connected.  No path throws or exits. *)
Definition connectWithRetry (connects : nat → bool) (retries : nat) (delayMs : Z) : list BootStep * bool :=
  connect_from connects delayMs 0 retries.

(** What [server.listen(port)] leads to: the [listening] callback, or the
    [error] event with [err.code === 'EADDRINUSE'] or with another code. *)
Inductive Listen : Type := Listening | EADDRINUSE | OtherError.

(** How [startServer] ends: the server runs on a port, or
    [process.exit(1)]. *)
Inductive Started : Type := Running (port : Z) | Exit1.

(** [startServer(port, attemptsLeft)] (lines 597-621): a port in use is
    followed by the next one while more than one attempt is left. *)
Equations startServer (listen : Z → Listen) (port attemptsLeft : Z) : Started
  by wf (Z.to_nat attemptsLeft) lt :=
startServer listen port attemptsLeft with listen port := {
  | Listening => Running port
  | EADDRINUSE with decide (1 < attemptsLeft) := {
      | left _ => startServer listen (port + 1) (attemptsLeft - 1)
      | right _ => Exit1 }
  | OtherError => Exit1 }.
Next Obligation. lia. Qed.

(** ** Notions the properties are stated with *)

(** The maps of the server are maps: no key twice. *)
Definition maps_wf (w : World) : Prop :=
  JsMap.wf (onlineUsers w) ∧ JsMap.wf (adapter w).

(** No two documents of the Room collection have the same name. *)
Definition names_unique (w : World) : Prop := NoDup (room_name <$> Rooms w).


(** How a run ended. *)
Definition outcome_of {A} (r : World * list (Effect Body Reply) * Outcome A) : Outcome A := r.2.

(** A message is stored when the collection holds it under its [_id]. *)
Definition stored (w : World) (m : Message) : Prop := Messages w !! _id m = Some m.

(** [u] has a reaction recorded on [e]: the entry the handler finds for
    [e] lists [u]. *)
Definition reacted (rs : list Reaction) (e u : string) : bool :=
  match list_find (λ x, emoji x = e) rs with
  | Some (_, r) => bool_decide (u ∈ users r)
  | None => false
  end.

(** A reaction entry counts its users and has at least one. *)
Definition entry_ok (r : Reaction) : Prop :=
  count r = length (users r) ∧ users r ≠ [].

(** Every document of the Message collection satisfies [Pm]. *)
Definition every_message (Pm : Message → Prop) (w : World) : Prop :=
  ∀ id m, Messages w !! id = Some m → Pm m.

(** Every reaction entry of every stored message is well formed. *)
Definition reactions_ok : World → Prop :=
  every_message (λ m, Forall entry_ok (reactions m)).

(** A message that names a room is not a private one. *)
Definition room_not_private (m : Message) : Prop :=
  room m ≠ None → private m = false.

End Server.

(** * The in-memory server: [src/unnamed/part_000] *)

Module InMem.

(** ** Data *)

Record ClerkUser : Type := {
  cu_id : option string;
  cu_userId : option string;
  cu_username : option string;
  cu_email : option string;
  cu_name : option string }.

(** A connection: its id, what the authentication middleware attached
    ([socket.clerkUser || socket.clerk]) and the handshake's [auth]. *)
Record Socket : Type := {
  socket_id : string;
  clerkUser : option ClerkUser;
  auth_userId : option string;
  auth_userName : option string }.

Definition anon (s : Socket) : string := "anon-" +:+ slice0 6 (socket_id s).

(** The identity the connection handler computes once and every handler of
    the connection closes over. *)
Definition userId (s : Socket) : string :=
  (clerkUser s ≫= λ c, cu_id c ||? cu_userId c) ||? auth_userId s ||: anon s.

Definition userName (s : Socket) : string :=
  (clerkUser s ≫= λ c, cu_username c ||? cu_email c ||? cu_name c) ||? auth_userName s
    ||: "Anonymous".

(** What a property of the [reactions] object reads as.  The object is a
    plain one ([{}]): beside the counts the handler stores, it has what
    every object inherits from [Object.prototype]. *)
Inductive Value : Type :=
| VNumber (n : nat)
| VText (s : string)
| VFunction (name : string)       (* a built-in function *)
| VObjectPrototype.               (* [Object.prototype] itself; sent as [{}] *)

(** The functions a plain object inherits (Node.js). *)
Definition inherited_functions : list string :=
  ["constructor"; "__defineGetter__"; "__defineSetter__"; "hasOwnProperty";
   "__lookupGetter__"; "__lookupSetter__"; "isPrototypeOf"; "propertyIsEnumerable";
   "toString"; "valueOf"; "toLocaleString"].

(** [obj[key]]: an own property, else an inherited one, else [undefined].
    [obj.constructor] is the function [Object].  [obj.__proto__] is an
    accessor that gives the prototype; no assignment makes it an own
    property, so it reads the same whatever was stored. *)
Definition get_property (obj : gmap string Value) (key : string) : option Value :=
  if bool_decide (key = "__proto__") then Some VObjectPrototype
  else
    match obj !! key with
    | Some v => Some v
    | None =>
        if bool_decide (key ∈ inherited_functions)
        then Some (VFunction (if bool_decide (key = "constructor") then "Object" else key))
        else None
    end.

(** [obj[key] = v] for a number or a string [v]: the setter of
    [__proto__] ignores a value that is not an object; any other key
    becomes an own property. *)
Definition set_property (obj : gmap string Value) (key : string) (v : Value) : gmap string Value :=
  if bool_decide (key = "__proto__") then obj else <[key := v]> obj.

(** [(v || 0) + 1]: a number is counted up; a string, and what is not a
    primitive after it is turned into a string, gets ["1"] appended. *)
Definition plus_one (v : option Value) : Value :=
  match v with
  | Some (VNumber n) => VNumber (n + 1)
  | Some (VText s) => if truthy s then VText (s +:+ "1") else VNumber 1
  | Some (VFunction name) => VText ("function " +:+ name +:+ "() { [native code] }1")
  | Some VObjectPrototype => VText "[object Object]1"
  | None => VNumber 1
  end.

(** A message object.  [reactions] and [readBy] are absent until the first
    reaction or read receipt; a missing [private] flag reads as [false]. *)
Record Message : Type := {
  msg_id : string;
  room : string;
  senderId : string;
  senderName : string;
  text : option string;
  file : option FileRef;
  timestamp : Z;
  private : bool;
  reactions : option (gmap string Value);
  readBy : option (list string) }.

Record UserInfo : Type := {
  info_userName : string;
  sockets : JsSet.t }.

(** A room; [messages] holds references to message objects. *)
Record RoomInfo : Type := {
  name : string;
  createdBy : string;
  createdAt : Z;
  messages : list nat }.

(** The stores.  Message objects live in [heap] and are referred to by
    their index: [MESSAGES] and a room's [messages] hold the same objects,
    and a handler that mutates a message mutates it for both. *)
Record World : Type := {
  heap : list Message;
  MESSAGES : list nat;                        (* global archive *)
  ONLINE : JsMap.t (string * string);         (* socketId -> { userId, userName } *)
  USERS_BY_ID : JsMap.t UserInfo;             (* userId -> { userName, sockets } *)
  ROOMS : JsMap.t RoomInfo;
  adapter : Adapter }.

Definition GLOBAL_ROOM : string := "global".

(** The per-room cap of the [message] and [file_message] handlers. *)
Definition ROOM_CAP : nat := 2000.

Record Ctx : Type := {
  now : Z;            (* Date.now() *)
  rnd : string }.     (* Math.random().toString(36).slice(2,8) *)

Definition seed (now0 : Z) (n : string) (r txt : string) (ago : Z) : Message :=
  {| msg_id := "init-" +:+ pretty now0 +:+ "-" +:+ n; room := r; senderId := "system";
     senderName := "System"; text := Some txt; file := None; timestamp := now0 - ago;
     private := false; reactions := None; readBy := None |}.

(** The stores when the server starts at time [now0]: two pre-seeded
    rooms with two messages each. *)
Definition init (now0 : Z) : World :=
  {| heap :=
       [ seed now0 "1" "General" "Welcome to the General room — say hi 👋" (1000 * 60 * 60);
         seed now0 "2" "General" "Tip: create or join other rooms from the sidebar." (1000 * 60 * 30);
         seed now0 "3" "Developers" "Welcome to Developers — share tips, snippets and bugs." (1000 * 60 * 45);
         seed now0 "4" "Developers" "Remember: messages here are ephemeral in this demo (in-memory)." (1000 * 60 * 15) ];
     MESSAGES := [];
     ONLINE := [];
     USERS_BY_ID := [];
     ROOMS :=
       [ ("General", {| name := "General"; createdBy := "system"; createdAt := now0; messages := [0; 1]%nat |});
         ("Developers", {| name := "Developers"; createdBy := "system"; createdAt := now0; messages := [2; 3]%nat |}) ];
     adapter := [] |}.

Definition set_heap (f : list Message → list Message) (w : World) : World :=
  {| heap := f (heap w); MESSAGES := MESSAGES w; ONLINE := ONLINE w;
     USERS_BY_ID := USERS_BY_ID w; ROOMS := ROOMS w; adapter := adapter w |}.
Definition set_MESSAGES (f : list nat → list nat) (w : World) : World :=
  {| heap := heap w; MESSAGES := f (MESSAGES w); ONLINE := ONLINE w;
     USERS_BY_ID := USERS_BY_ID w; ROOMS := ROOMS w; adapter := adapter w |}.
Definition set_ONLINE (f : JsMap.t (string * string) → JsMap.t (string * string)) (w : World) : World :=
  {| heap := heap w; MESSAGES := MESSAGES w; ONLINE := f (ONLINE w);
     USERS_BY_ID := USERS_BY_ID w; ROOMS := ROOMS w; adapter := adapter w |}.
Definition set_USERS_BY_ID (f : JsMap.t UserInfo → JsMap.t UserInfo) (w : World) : World :=
  {| heap := heap w; MESSAGES := MESSAGES w; ONLINE := ONLINE w;
     USERS_BY_ID := f (USERS_BY_ID w); ROOMS := ROOMS w; adapter := adapter w |}.
Definition set_ROOMS (f : JsMap.t RoomInfo → JsMap.t RoomInfo) (w : World) : World :=
  {| heap := heap w; MESSAGES := MESSAGES w; ONLINE := ONLINE w;
     USERS_BY_ID := USERS_BY_ID w; ROOMS := f (ROOMS w); adapter := adapter w |}.
Definition set_adapter (f : Adapter → Adapter) (w : World) : World :=
  {| heap := heap w; MESSAGES := MESSAGES w; ONLINE := ONLINE w;
     USERS_BY_ID := USERS_BY_ID w; ROOMS := ROOMS w; adapter := f (adapter w) |}.

(** The objects an array of references holds. *)
Definition deref (w : World) (refs : list nat) : list Message :=
  omap (λ r, heap w !! r) refs.

(** ** Events and replies *)

Record RoomSummary : Type := {
  rs_name : string;
  rs_createdBy : string;
  rs_createdAt : Z;
  rs_count : nat }.

Record UserSummary : Type := {
  us_id : string;
  us_name : string;
  us_online : bool;
  us_socketCount : nat }.

Inductive Body : Type :=
| BRooms (rooms : list RoomSummary)
| BUsers (us : list UserSummary)
| BUsersCount (n : nat)
| BRecent (ms : list Message)
| BNotification (type id name_ : string)            (* {type, user: {id, name}} *)
| BRoomMessages (r : string) (ms : list Message)    (* {room, messages} *)
| BRoomUsers (r : string) (us : list (string * string))
| BMessage (m : Message)
| BTyping (userId userName : string) (isTyping : option bool)
| BReaction (messageId : string) (reaction : option string) (count : option Value) (userId : string)
| BMessageRead (messageId userId : string).

Inductive Reply : Type :=
| Ok                                                 (* {ok: true} *)
| OkJoin (id name_ : string)                         (* {ok: true, id, name} *)
| OkRoom (r : RoomInfo)                              (* {ok: true, room: <room object>} *)
| OkRooms (rooms : list RoomSummary)                 (* {ok: true, rooms} *)
| OkRoomMessages (r : string) (ms : list Message)    (* {ok: true, room, messages} *)
| OkRoomName (r : option string)                     (* {ok: true, room} *)
| OkIdTs (id : string) (ts : Z)                      (* {ok: true, id, ts} *)
| OkId (id : string)                                 (* {ok: true, id} *)
| Fail (error : string).                             (* {ok: false, error} *)

Definition ok (r : Reply) : bool :=
  match r with Fail _ => false | _ => true end.

Definition error (r : Reply) : option string :=
  match r with Fail e => Some e | _ => None end.

Abbreviation H := (Handler World (Effect Body Reply)).

Definition emit (t : Target) (ev : string) (b : Body) : H unit := tell (Emit t ev b).

(** [ack && ack(r)] and [if (typeof ack === "function") ack(r)]. *)
Definition reply (ack : bool) (r : Reply) : H unit :=
  if ack then tell (AckCall r) else skip.

(** ** Helpers *)

(** [safeHandler(fn, eventName)]: an exception that escapes [fn] is
    answered through the last argument when that is a function. *)
Definition safeHandler (fn : Args → H unit) (a : Args) : H unit :=
  try_catch (fn a) (reply (last_is_function a) (Fail "server_error")).

Definition listRooms (w : World) : list RoomSummary :=
  (λ info, {| rs_name := name info; rs_createdBy := createdBy info;
              rs_createdAt := createdAt info; rs_count := length (messages info) |})
    <$> JsMap.values (ROOMS w).

Definition user_summaries (w : World) : list UserSummary :=
  (λ e : string * UserInfo,
     {| us_id := e.1; us_name := info_userName e.2;
        us_online := bool_decide (0 < length (sockets e.2))%nat;
        us_socketCount := length (sockets e.2) |}) <$> USERS_BY_ID w.

Definition broadcastUsers : H unit :=
  w ← get_world;
  let users := user_summaries w in
  emit IoEmit "users" (BUsers users);;
  emit IoEmit "users_count" (BUsersCount (length (filter (λ u, us_online u = true) users))).

(** Ensure one [USERS_BY_ID] entry for [uid], named [uname], holding the
    socket; and the [ONLINE] entry of the socket. *)
Definition register (uid uname sid : string) (w : World) : World :=
  let users :=
    match JsMap.get (USERS_BY_ID w) uid with
    | None => JsMap.set (USERS_BY_ID w) uid {| info_userName := uname; sockets := JsSet.add [] sid |}
    | Some existing =>
        JsMap.set (USERS_BY_ID w) uid
          {| info_userName := uname; sockets := JsSet.add (sockets existing) sid |}
    end in
  set_ONLINE (λ m, JsMap.set m sid (uid, uname)) (set_USERS_BY_ID (λ _, users) w).

(** [{ id, name }] of the named sockets of a room. *)
Definition room_users (w : World) (r : string) : list (string * string) :=
  omap (JsMap.get (ONLINE w)) (sockets_in (adapter w) r).

(** A fresh message id: [`${Date.now()}-${random}`]. *)
Definition fresh_id (ctx : Ctx) : string := pretty (now ctx) +:+ "-" +:+ rnd ctx.

(** Allocate a message object. *)
Definition alloc (m : Message) : H nat :=
  λ w l, (set_heap (λ h, h ++ [m]) w, l, Done (length (heap w))).

(** [ROOMS.get(r).messages.push(msg)], then [shift()] when the buffer is
    longer than the cap. *)
Definition room_push (ref : nat) (info : RoomInfo) : RoomInfo :=
  let ms := messages info ++ [ref] in
  {| name := name info; createdBy := createdBy info; createdAt := createdAt info;
     messages := if bool_decide (ROOM_CAP < length ms)%nat then tail ms else ms |}.

(** Save to the global archive and, when the room exists, to its buffer. *)
Definition store (msg : Message) : H unit :=
  ref ← alloc msg;
  modify (set_MESSAGES (λ ms, ms ++ [ref]));;
  modify (set_ROOMS (λ rooms,
    match JsMap.get rooms (room msg) with
    | Some info => JsMap.set rooms (room msg) (room_push ref info)
    | None => rooms
    end)).

(** [MESSAGES.find((mm) => mm.id === messageId)]: the reference and the
    object. *)
Definition find_message (w : World) (id : string) : option (nat * Message) :=
  '(_, ref) ← list_find (λ r, msg_id <$> heap w !! r = Some id) (MESSAGES w);
  m ← heap w !! ref;
  Some (ref, m).

Definition with_readBy (rb : list string) (m : Message) : Message :=
  {| msg_id := msg_id m; room := room m; senderId := senderId m; senderName := senderName m;
     text := text m; file := file m; timestamp := timestamp m; private := private m;
     reactions := reactions m; readBy := Some rb |}.

Definition with_reactions (rs : gmap string Value) (m : Message) : Message :=
  {| msg_id := msg_id m; room := room m; senderId := senderId m; senderName := senderName m;
     text := text m; file := file m; timestamp := timestamp m; private := private m;
     reactions := Some rs; readBy := readBy m |}.

(** [m.room || GLOBAL_ROOM] *)
Definition room_or_global (m : Message) : string :=
  if truthy (room m) then room m else GLOBAL_ROOM.

(** ** Socket handlers *)

(** [io.on("connection")] *)
Definition on_connection (s : Socket) : H unit :=
  modify (register (userId s) (userName s) (socket_id s));;
  (* join global room by default *)
  modify (set_adapter (λ a, adapter_join a GLOBAL_ROOM (socket_id s)));;
  w ← get_world;
  emit (SocketEmit (socket_id s)) "rooms" (BRooms (listRooms w));;
  broadcastUsers;;
  emit (SocketEmit (socket_id s)) "recent_messages" (BRecent (deref w (slice_last 50 (MESSAGES w))));;
  emit (IoTo GLOBAL_ROOM) "notification" (BNotification "user_join" (userId s) (userName s)).

Definition on_join (s : Socket) : Args → H unit :=
  safeHandler (λ a, destructure (payload a) (λ p,
    try_catch
      (let uname := trim (p_username p ||? Some (userName s) ||: "Anonymous") in
       let canonicalId := auth_userId s ||? Some (userId s) ||: anon s in
       modify (register canonicalId uname (socket_id s));;
       broadcastUsers;;
       reply (ack a) (OkJoin canonicalId uname))
      (reply (ack a) (Fail "server_error")))).

Definition new_room (s : Socket) (ctx : Ctx) (roomName : string) : RoomInfo :=
  {| name := roomName; createdBy := Some (userId s) ||: "unknown"; createdAt := now ctx;
     messages := [] |}.

Definition on_create_room (ctx : Ctx) (s : Socket) : Args → H unit :=
  safeHandler (λ a, destructure (payload a) (λ p,
    let roomName := trim (p_name p ||: "") in
    if negb (truthy roomName) then reply (ack a) (Fail "name required")
    else
      w ← get_world;
      if JsMap.has (ROOMS w) roomName then reply (ack a) (Fail "room exists")
      else
        modify (set_ROOMS (λ rooms, JsMap.set rooms roomName (new_room s ctx roomName)));;
        w ← get_world;
        emit IoEmit "rooms" (BRooms (listRooms w));;
        reply (ack a) (OkRoom (new_room s ctx roomName)))).

Definition on_rooms_request (s : Socket) : Args → H unit :=
  safeHandler (λ a,
    w ← get_world;
    emit (SocketEmit (socket_id s)) "rooms" (BRooms (listRooms w));;
    reply (ack a) (OkRooms (listRooms w))).

Definition on_join_room (ctx : Ctx) (s : Socket) : Args → H unit :=
  safeHandler (λ a, destructure (payload a) (λ p,
    let roomName := trim (p_room p ||: "") in
    if negb (truthy roomName) then reply (ack a) (Fail "room required")
    else
      (* create room on demand *)
      w ← get_world;
      (if JsMap.has (ROOMS w) roomName then skip
       else
         modify (set_ROOMS (λ rooms, JsMap.set rooms roomName (new_room s ctx roomName)));;
         w ← get_world;
         emit IoEmit "rooms" (BRooms (listRooms w)));;
      modify (set_adapter (λ ad, adapter_join ad roomName (socket_id s)));;
      (* send recent messages for that room to the joining socket *)
      w ← get_world;
      match JsMap.get (ROOMS w) roomName with
      | None => throw
      | Some info =>
          let roomMsgs := deref w (slice_last 100 (messages info)) in
          emit (SocketEmit (socket_id s)) "room_messages" (BRoomMessages roomName roomMsgs);;
          (* compute and broadcast room users *)
          emit (IoTo roomName) "room_users" (BRoomUsers roomName (room_users w roomName));;
          reply (ack a) (OkRoomMessages roomName roomMsgs)
      end)).

Definition on_leave_room (s : Socket) : Args → H unit :=
  safeHandler (λ a, destructure (payload a) (λ p,
    if falsy (p_room p) then reply (ack a) (Fail "room required")
    else
      let r := default "" (p_room p) in
      modify (set_adapter (λ ad, adapter_leave ad r (socket_id s)));;
      w ← get_world;
      emit (IoTo r) "room_users" (BRoomUsers r (room_users w r));;
      reply (ack a) (OkRoomName (p_room p)))).

(** The object the [message] handler builds. *)
Definition new_message (ctx : Ctx) (s : Socket) (p : Payload) : Message :=
  {| msg_id := fresh_id ctx; room := p_room p ||: GLOBAL_ROOM;
     senderId := userId s; senderName := userName s; text := p_text p;
     file := p_file p; timestamp := now ctx;
     private := default false (p_private p); reactions := None; readBy := None |}.

(** The object the [file_message] handler builds. *)
Definition new_file_message (ctx : Ctx) (s : Socket) (p : Payload) : Message :=
  {| msg_id := fresh_id ctx; room := p_room p ||: GLOBAL_ROOM;
     senderId := userId s; senderName := userName s; text := None;
     file := Some {| file_name := p_name p; file_data := p_data p; file_mime := p_mime p |};
     timestamp := now ctx; private := false; reactions := None; readBy := None |}.

(** [message]: save to global and room stores, broadcast to room. *)
Definition on_message (ctx : Ctx) (s : Socket) : Args → H unit :=
  safeHandler (λ a,
    match payload a with
    | None => throw                         (* payload.room of null *)
    | Some p =>
        let msg := new_message ctx s p in
        store msg;;
        emit (IoTo (room msg)) "message" (BMessage msg);;
        reply (ack a) (OkIdTs (msg_id msg) (timestamp msg))
    end).

(** [`pm:${[userId, toUserId].sort().join("-")}`]; an undefined element
    sorts last and joins as the empty string. *)
Definition pm_room (uid : string) (toUserId : option string) : string :=
  match toUserId with
  | None => "pm:" +:+ uid +:+ "-"
  | Some t =>
      if String.leb uid t then "pm:" +:+ uid +:+ "-" +:+ t else "pm:" +:+ t +:+ "-" +:+ uid
  end.

Definition on_private_message (ctx : Ctx) (s : Socket) : Args → H unit :=
  safeHandler (λ a, destructure (payload a) (λ p,
    let msg :=
      {| msg_id := fresh_id ctx; room := pm_room (userId s) (p_toUserId p);
         senderId := userId s; senderName := userName s; text := p_text p; file := None;
         timestamp := now ctx; private := true; reactions := None; readBy := None |} in
    ref ← alloc msg;
    modify (set_MESSAGES (λ ms, ms ++ [ref]));;
    w ← get_world;
    match p_toUserId p ≫= JsMap.get (USERS_BY_ID w) with
    | Some target =>
        for_each (sockets target) (λ sid, emit (IoTo sid) "private_message" (BMessage msg))
    | None => skip
    end;;
    (* echo back to sender *)
    emit (SocketEmit (socket_id s)) "private_message" (BMessage msg);;
    reply (ack a) (OkId (msg_id msg)))).

Definition on_typing (s : Socket) : Args → H unit :=
  safeHandler (λ a, destructure (payload a) (λ p,
    try_catch
      (emit (SocketTo (socket_id s) (p_room p ||: GLOBAL_ROOM)) "typing"
         (BTyping (userId s) (userName s) (p_isTyping p));;
       reply (ack a) Ok)
      (reply (ack a) (Fail "server_error")))).

(** [react]: a counter under the reaction's name on the [reactions] object
    of the message.  A missing [reaction] is the key ["undefined"]. *)
Definition on_react (s : Socket) : Args → H unit :=
  safeHandler (λ a, destructure (payload a) (λ p,
    try_catch
      (w ← get_world;
       match p_messageId p ≫= find_message w with
       | None => reply (ack a) (Fail "message not found")
       | Some (ref, m) =>
           let key := default "undefined" (p_reaction p) in
           let obj := default ∅ (reactions m) in
           let obj' := set_property obj key (plus_one (get_property obj key)) in
           modify (set_heap <[ref := with_reactions obj' m]>);;
           emit (IoTo (room_or_global m)) "reaction"
             (BReaction (msg_id m) (p_reaction p) (get_property obj' key) (userId s));;
           reply (ack a) Ok
       end)
      (reply (ack a) (Fail "server_error")))).

Definition on_file_message (ctx : Ctx) (s : Socket) : Args → H unit :=
  safeHandler (λ a, destructure (payload a) (λ p,
    try_catch
      (let msg := new_file_message ctx s p in
       store msg;;
       emit (IoTo (room msg)) "file_message" (BMessage msg);;
       reply (ack a) (OkId (msg_id msg)))
      (reply (ack a) (Fail "server_error")))).

(** [mark_read]: read receipts. *)
Definition on_mark_read (s : Socket) : Args → H unit :=
  safeHandler (λ a, destructure (payload a) (λ p,
    try_catch
      (if falsy (p_messageId p) then reply (ack a) (Fail "messageId required")
       else
         w ← get_world;
         match p_messageId p ≫= find_message w with
         | None => reply (ack a) (Fail "message not found")
         | Some (ref, m) =>
             (* only push once *)
             let readerId := userId s in
             let rb := default [] (readBy m) in
             let rb' := if bool_decide (readerId ∈ rb) then rb else rb ++ [readerId] in
             modify (set_heap <[ref := with_readBy rb' m]>);;
             (* notify room and sender about the read receipt *)
             emit (IoTo (room_or_global m)) "message_read" (BMessageRead (msg_id m) readerId);;
             match JsMap.get (USERS_BY_ID w) (senderId m) with
             | Some senderEntry =>
                 for_each (sockets senderEntry) (λ sid,
                   emit (IoTo sid) "message_read" (BMessageRead (msg_id m) readerId))
             | None => skip
             end;;
             reply (ack a) Ok
         end)
      (reply (ack a) (Fail "server_error")))).

(** [disconnect]: drop the socket from [ONLINE] and from every user's
    socket set; a user left without sockets is removed. *)
Definition on_disconnect (s : Socket) : H unit :=
  modify (set_ONLINE (λ m, JsMap.delete m (socket_id s)));;
  w ← get_world;
  for_each (USERS_BY_ID w : list (string * UserInfo)) (λ e,
    if JsSet.has (sockets e.2) (socket_id s) then
      match JsSet.delete (sockets e.2) (socket_id s) with
      | [] =>
          modify (set_USERS_BY_ID (λ m, JsMap.delete m e.1));;
          emit IoEmit "notification" (BNotification "user_leave" e.1 (info_userName e.2))
      | rest =>
          modify (set_USERS_BY_ID (λ m,
            JsMap.set m e.1 {| info_userName := info_userName e.2; sockets := rest |}))
      end
    else skip);;
  modify (set_adapter (λ a, foldr (λ r a, adapter_leave a r (socket_id s)) a (rooms_of a (socket_id s))));;
  broadcastUsers.

(** ** HTTP routes *)

(** [POST /rooms] with body [{ name, createdBy }]; [true] is a
    [200] reply. *)
Definition post_rooms (ctx : Ctx) (name_ createdBy_ : option string) : H bool :=
  if falsy name_ then mret false
  else
    w ← get_world;
    let n := default "" name_ in
    if JsMap.has (ROOMS w) n then mret false
    else
      modify (set_ROOMS (λ rooms,
        JsMap.set rooms n {| name := n; createdBy := createdBy_ ||: "unknown";
                             createdAt := now ctx; messages := [] |}));;
      w ← get_world;
      emit IoEmit "rooms" (BRooms (listRooms w));;
      mret true.

(** The filter of the pagination route:
    [(m.room || GLOBAL_ROOM) === room && (m.timestamp || Date.now()) < before]. *)
Definition eligible (ctx : Ctx) (room_ : string) (before : Z) (m : Message) : Prop :=
  room_or_global m = room_ ∧
  (if bool_decide (timestamp m = 0) then now ctx else timestamp m) < before.

Global Instance eligible_dec ctx r before m : Decision (eligible ctx r before m).
Proof. unfold eligible. apply _. Defined.

(** [Math.min(parseInt(limit || "50", 10), 200)]; [Math.min] of [NaN] is
    [NaN]. *)
Definition page_limit (limit_q : option JsInt) : JsInt :=
  match default (Num 50) limit_q with
  | Num n => Num (Z.min n 200)
  | NaN => NaN
  end.

(** [GET /messages/paginate?room=&before=&limit=] (lines 313-326).
    [before_q] and [limit_q] are what [parseInt] makes of the query
    parameters; [None] is a missing (or empty) parameter.  No comparison
    with [NaN] holds, [Math.max(0, NaN)] is [NaN] and [slice(NaN, length)]
    is [slice(0, length)].  No step of the handler throws, so the reply is
    always [{ ok: true, messages }]. *)
Definition paginate (ctx : Ctx) (w : World) (room_q : option string)
    (before_q limit_q : option JsInt) : list Message :=
  let room := room_q ||: GLOBAL_ROOM in
  let before := default (Num (now ctx)) before_q in
  let limit := page_limit limit_q in
  let roomMsgs :=
    match before with
    | Num b => filter (eligible ctx room b) (deref w (MESSAGES w))
    | NaN => []
    end in
  (* return the most recent [limit] older than before *)
  match limit with
  | Num l => drop (Z.to_nat (Z.max 0 (Z.of_nat (length roomMsgs) - l))) roomMsgs
  | NaN => roomMsgs
  end.

(** The filter of the search route: the room, when one is asked for, and
    a match in the text or in the sender's name.  [matches q s] is whether
    [s.match(new RegExp(escaped q, "i"))] finds a match; the regular
    expression engine is the runtime's.  Messages of this server have no
    [content] and no [from]. *)
Definition search_hit (matches : string → string → bool) (q : string) (room_q : option string)
    (m : Message) : bool :=
  if negb (falsy room_q) && negb (bool_decide (room_or_global m = default "" room_q)) then false
  else matches q (text m ||: "") || matches q (Some (senderName m) ||: "").

(** The replies of [GET /messages/search]. *)
Inductive SearchReply : Type :=
| SearchOk (results : list Message)     (* {ok: true, results} *)
| Search400.                            (* 400 {ok: false, error: "query param `q` required"} *)

(** [Math.min(parseInt(limit || "100", 10), 1000)]: [limit_q] is what
    [parseInt] makes of the query parameter, [None] when the parameter is
    missing or empty.  [Math.min] of [NaN] is [NaN]. *)
Definition search_limit (limit_q : option JsInt) : JsInt :=
  match default (Num 100) limit_q with
  | Num z => Num (Z.min z 1000)
  | NaN => NaN
  end.

(** [GET /messages/search?q=&room=&limit=] (lines 291-309).
    [slice(-limit)] of a [NaN] limit is [slice(0)]. *)
Definition search (matches : string → string → bool) (w : World)
    (q_q room_q : option string) (limit_q : option JsInt) : SearchReply :=
  let q := trim (q_q ||: "") in
  let limit := search_limit limit_q in
  if negb (truthy q) then Search400
  else
    let hits := filter (λ m, search_hit matches q room_q m = true) (deref w (MESSAGES w)) in
    SearchOk (match limit with
              | Num l => js_slice (- l) hits
              | NaN => js_slice 0 hits
              end).

(** The characters the upload route keeps of a file name:
    [/[^a-zA-Z0-9.\-_]/g] is replaced by nothing. *)
Definition safe_char (c : Ascii.ascii) : bool :=
  let n := Ascii.nat_of_ascii c in
  ((97 <=? n) && (n <=? 122) || (65 <=? n) && (n <=? 90) || (48 <=? n) && (n <=? 57)
   || bool_decide (c = "."%char) || bool_decide (c = "-"%char) || bool_decide (c = "_"%char))%nat.

Definition sanitize (originalname : string) : string :=
  String.string_of_list_ascii
    (filter (λ c, safe_char c = true) (String.list_ascii_of_string originalname)).

(** The [filename] of the upload storage (lines 263-266):
    [`${Date.now()}-${random}-${sanitized original name}`]. *)
Definition upload_filename (ctx : Ctx) (originalname : string) : string :=
  pretty (now ctx) +:+ "-" +:+ rnd ctx +:+ "-" +:+ sanitize originalname.

(** ** Dispatch *)

Inductive Event : Type :=
| connection | disconnect
| join | create_room | rooms_request | join_room | leave_room | message
| private_message | typing | react | file_message | mark_read.

Inductive Request : Type :=
| SocketEvent (ev : Event) (s : Socket) (a : Args) (ctx : Ctx)
| PostRooms (name_ createdBy_ : option string) (ctx : Ctx).

Definition on_event (ev : Event) (ctx : Ctx) (s : Socket) (a : Args) : H unit :=
  match ev with
  | connection => on_connection s
  | disconnect => on_disconnect s
  | join => on_join s a
  | create_room => on_create_room ctx s a
  | rooms_request => on_rooms_request s a
  | join_room => on_join_room ctx s a
  | leave_room => on_leave_room s a
  | message => on_message ctx s a
  | private_message => on_private_message ctx s a
  | typing => on_typing s a
  | react => on_react s a
  | file_message => on_file_message ctx s a
  | mark_read => on_mark_read s a
  end.

Definition handle (r : Request) : H unit :=
  match r with
  | SocketEvent ev s a ctx => on_event ev ctx s a
  | PostRooms n c ctx => post_rooms ctx n c;; skip
  end.

Definition world_after {A} (r : World * list (Effect Body Reply) * Outcome A) : World := r.1.1.
Definition effects_of {A} (r : World * list (Effect Body Reply) * Outcome A) : list (Effect Body Reply) := r.1.2.

Definition step (w : World) (r : Request) : World := world_after (handle r w []).

Definition run (reqs : list Request) (w : World) : World := foldl step w reqs.

(** ** Notions the properties are stated with *)


(** How a run ended. *)
Definition outcome_of {A} (r : World * list (Effect Body Reply) * Outcome A) : Outcome A := r.2.

(** Every room's buffer is within the cap. *)
Definition buffers_bounded (w : World) : Prop :=
  Forall (λ kv : string * RoomInfo, (length (messages kv.2) ≤ ROOM_CAP)%nat) (ROOMS w).

(** The archive of [w] extends the archive of [w0]: no reference and no
    object was dropped. *)
Definition archive_extends (w0 w : World) : Prop :=
  MESSAGES w0 `prefix_of` MESSAGES w ∧ (length (heap w0) ≤ length (heap w))%nat.

(** The stores after [join_room]: the room exists and the socket is in
    it. *)
Definition joined (ctx : Ctx) (s : Socket) (r : string) (w : World) : World :=
  set_adapter (λ ad, adapter_join ad r (socket_id s))
    (if JsMap.has (ROOMS w) r then w
     else set_ROOMS (λ rooms, JsMap.set rooms r (new_room s ctx r)) w).

(** The global archive, as objects. *)
Definition archive (w : World) : list Message := deref w (MESSAGES w).

(** When a request is handled: what [Date.now()] returns to its handler. *)
Definition clock (r : Request) : Z :=
  match r with
  | SocketEvent _ _ _ c => now c
  | PostRooms _ _ c => now c
  end.

(** The timestamps of the archive, in its order. *)
Definition stamps (w : World) : list Z := timestamp <$> archive w.

(** The maps of the server are maps: no key twice. *)
Definition maps_wf (w : World) : Prop :=
  JsMap.wf (ONLINE w) ∧ JsMap.wf (USERS_BY_ID w) ∧ JsMap.wf (ROOMS w) ∧ JsMap.wf (adapter w).

(** Every user the server lists has a socket. *)
Definition users_have_sockets (w : World) : Prop :=
  Forall (λ e : string * UserInfo, sockets e.2 ≠ []) (USERS_BY_ID w).

(** What [disconnect] leaves of a user's entry: nothing when [sid] was
    its only socket. *)
Definition without_socket (sid : string) (e : string * UserInfo) : option (string * UserInfo) :=
  if JsSet.has (sockets e.2) sid then
    match JsSet.delete (sockets e.2) sid with
    | [] => None
    | rest => Some (e.1, {| info_userName := info_userName e.2; sockets := rest |})
    end
  else Some e.

(** The rooms of [w0] are rooms of [w], created by whom and when they
    were. *)
Definition rooms_kept (w0 w : World) : Prop :=
  ∀ r info, JsMap.get (ROOMS w0) r = Some info →
    ∃ info', JsMap.get (ROOMS w) r = Some info' ∧
      name info' = name info ∧ createdBy info' = createdBy info ∧ createdAt info' = createdAt info.

(** Every reference of the archive names an object, the archive is in
    timestamp order, and nothing in it is later than [t]. *)
Definition archive_in_order (t : Z) (w : World) : Prop :=
  Forall (λ ref, (ref < length (heap w))%nat) (MESSAGES w) ∧
  StronglySorted Z.le (stamps w) ∧
  Forall (λ x, x ≤ t) (stamps w).

End InMem.

(** * The client hook [useSocket]: [src/server/server.js], lines 627-731 *)

Module Client.

(** A [typing] event as the hook reads it: [userId] and [room] are the
    two fields the reducers look at ([None] is a missing field), the other
    fields travel along. *)
Record Typing : Type := {
  userId : option string;
  room : option string;
  username : option string;
  isTyping : option bool;
}.

(** A template literal prints a missing field as [undefined]. *)
Definition print (x : option string) : string := default "undefined" x.

(** [`${p.userId}:${p.room || 'global'}`]. *)
Definition key (p : Typing) : string :=
  print (userId p) +:+ ":" +:+ (room p ||: "global").

(** The state update of the [typing] listener (lines 667-673): dedupe by
    userId + room. *)
Definition on_typing (t : Typing) (prev : list Typing) : list Typing :=
  match list_find (λ p, key p = key t) prev with
  | Some _ => (λ p, if bool_decide (key p = key t) then t else p) <$> prev
  | None => prev ++ [t]
  end.

(** The state update of the timeout, three seconds later (lines 675-677). *)
Definition typing_timeout (t : Typing) (prev : list Typing) : list Typing :=
  filter (λ p, key p ≠ key t) prev.

(** What happens to the typing list: an event arrives, or the timer of an
    earlier event fires. *)
Inductive Update : Type :=
| Arrives (t : Typing)
| Expires (t : Typing).

Definition update (prev : list Typing) (u : Update) : list Typing :=
  match u with
  | Arrives t => on_typing t prev
  | Expires t => typing_timeout t prev
  end.

(** The typing list after a sequence of updates; [useState([])]. *)
Definition run (us : list Update) : list Typing := foldl update [] us.

End Client.

(** * A session on the Mongo-backed server

    The scenario of the smoke test: Alice and Bob join, Alice creates
    [testroom], Bob joins it, Alice says hello, Bob reacts. *)

Module ServerDemo.
Import Server.

Definition cfg : Config := {| ALLOW_ADMIN_DELETE := None; room_model := true |}.

Definition alice : Socket := {| socket_id := "sock-A"; clerkUser := None |}.
Definition bob : Socket := {| socket_id := "sock-B"; clerkUser := None |}.

(** The environment at time [t], handing out the id [i]. *)
Definition at_time (t : Z) (i : string) : Ctx := {| now := t; oid := i; db_up := true |}.

Definition req (ev : Event) (s : Socket) (p : Payload) (ack : bool) (c : Ctx) : Request :=
  {| event := ev; socket := s; args := sent p ack; ctx := c |}.

Definition session : list Request :=
  [ req connection alice no_fields false (at_time 1000 "x0");
    req connection bob no_fields false (at_time 1001 "x1");
    req join alice (fields [(F_username, "Alice")]) false (at_time 1002 "x2");
    req join bob (fields [(F_username, "Bob")]) false (at_time 1003 "x3");
    req createRoom alice (fields [(F_name, "testroom")]) true (at_time 1004 "room1");
    req joinRoom bob (fields [(F_room, "testroom")]) true (at_time 1005 "x5");
    req message alice
      (fields [(F_content, "Hello from Alice"); (F_from, "Alice"); (F_room, "testroom")])
      false (at_time 1006 "msg1") ].

(** Bob's reaction to Alice's message. *)
Definition heart : Payload :=
  fields [(F_messageId, "msg1"); (F_emoji, "<3"); (F_by, "Bob")].

(** A request that names Alice's message. *)
Definition on_msg1 : Args := sent (fields [(F_messageId, "msg1")]) true.

(** Alice's message as the session stored it. *)
Definition msg1 : Message :=
  {| _id := "msg1"; content := Some "Hello from Alice"; from := "Alice"; to := None;
     room := Some "testroom"; timestamp := 1006; file := None; private := false;
     readBy := []; reactions := [] |}.

(** The stores after the session, and after Bob reacted once. *)
Definition said : World := run cfg session init.
Definition reacted_once : World := step cfg said (req reaction bob heart false (at_time 1007 "x7")).

End ServerDemo.

(** * A session on the in-memory server *)

Module InMemDemo.
Import InMem.

(** When the server started. *)
Definition t0 : Z := 1700000000000.

Definition alice : Socket :=
  {| socket_id := "sock-A"; clerkUser := None;
     auth_userId := Some "u-alice"; auth_userName := Some "Alice" |}.
Definition bob : Socket :=
  {| socket_id := "sock-B"; clerkUser := None;
     auth_userId := Some "u-bob"; auth_userName := Some "Bob" |}.

Definition at_time (t : Z) (r : string) : Ctx := {| now := t; rnd := r |}.

Definition hello : Payload := fields [(F_text, "Hello from Alice"); (F_room, "testroom")].

Definition session : list Request :=
  [ SocketEvent connection alice (sent no_fields false) (at_time (t0 + 1) "a00001");
    SocketEvent connection bob (sent no_fields false) (at_time (t0 + 2) "a00002");
    SocketEvent create_room alice (sent (fields [(F_name, "testroom")]) true) (at_time (t0 + 3) "a00003");
    SocketEvent join_room bob (sent (fields [(F_room, "testroom")]) true) (at_time (t0 + 4) "a00004");
    SocketEvent message alice (sent hello true) (at_time (t0 + 5) "k3x9q1") ].

(** The stores after the session. *)
Definition said : World := run session (init t0).

(** The id of Alice's message. *)
Definition msg1_id : string := "1700000000005-k3x9q1".

(** A request that names Alice's message. *)
Definition on_msg1 : Args := sent (fields [(F_messageId, msg1_id)]) true.

(** Bob writes [n] messages to the room ["global"], one a millisecond. *)
Definition flood (n : nat) : list Request :=
  (λ i, SocketEvent message bob (sent (fields [(F_text, "again")]) false)
          (at_time (t0 + Z.of_nat i) "a00000")) <$> seq 1 n.

(** The stores after 201 such messages. *)
Definition flooded : World := run (flood 201) (init t0).

End InMemDemo.

(** * Properties *)

(** ** Reasoning about handlers *)

Section handler_facts.
Context {W E : Type}.
Implicit Types (w : W) (l : list E) (I : W → Prop).

Lemma keeps_ret {A} I (a : A) (Φ : A → Prop) : Φ a → keeps (E:=E) I (mret a) Φ.
Proof. intros ? w l ?. by split. Qed.

Lemma keeps_skip I : keeps (E:=E) I skip (λ _, True).
Proof. by apply keeps_ret. Qed.

Lemma keeps_throw {A} I (Φ : A → Prop) : keeps (E:=E) I throw Φ.
Proof. by intros w l ?. Qed.

Lemma keeps_bind {A B} I (h : Handler W E A) (f : A → Handler W E B) (Ψ : A → Prop) (Φ : B → Prop) :
  keeps I h Ψ → (∀ a, Ψ a → keeps I (f a) Φ) → keeps I (h ≫= f) Φ.
Proof.
  intros Hh Hf w l Hw. specialize (Hh w l Hw). unfold mbind, handler_bind.
  destruct (h w l) as [[w' l'] [a|]]; [|done].
  destruct Hh as [Hw' Ha]. by apply Hf.
Qed.

Lemma keeps_try_catch {A} I (body handler : Handler W E A) (Φ : A → Prop) :
  keeps I body Φ → keeps I handler Φ → keeps I (try_catch body handler) Φ.
Proof.
  intros Hb Hh w l Hw. specialize (Hb w l Hw). unfold try_catch.
  destruct (body w l) as [[w' l'] [a|]]; [done|]. by apply Hh.
Qed.

Lemma keeps_weaken {A} I (h : Handler W E A) (Ψ Φ : A → Prop) :
  keeps I h Ψ → (∀ a, Ψ a → Φ a) → keeps I h Φ.
Proof.
  intros Hh HΦ w l Hw. specialize (Hh w l Hw).
  destruct (h w l) as [[w' l'] [a|]]; [|done]. destruct Hh. auto.
Qed.

Lemma keeps_get_world I : keeps (E:=E) I get_world I.
Proof. by intros w l ?. Qed.

Lemma keeps_modify I (f : W → W) :
  (∀ w, I w → I (f w)) → keeps (E:=E) I (modify f) (λ _, True).
Proof. intros Hf w l ?. split; auto. Qed.

Lemma keeps_tell I (e : E) : keeps I (tell e) (λ _, True).
Proof. by intros w l ?. Qed.

Lemma keeps_for_each {A} I (xs : list A) (body : A → Handler W E unit) :
  (∀ x, keeps I (body x) (λ _, True)) → keeps I (for_each xs body) (λ _, True).
Proof.
  intros Hbody. induction xs as [|x xs IH]; simpl.
  - apply keeps_skip.
  - eapply keeps_bind; [apply Hbody|]. intros _ _. apply IH.
Qed.

Lemma keeps_destructure {A} I (p : option Payload) (k : Payload → Handler W E A) (Φ : A → Prop) :
  (∀ o, p = Some o → keeps I (k o) Φ) → keeps I (destructure p k) Φ.
Proof. destruct p; simpl; [auto|]. intros _. apply keeps_throw. Qed.

End handler_facts.

Section emit_facts.
Context {W P K : Type}.
Implicit Types (h : Handler W (Effect P K) unit).

Lemma acks_app (l1 l2 : list (Effect P K)) : acks (l1 ++ l2) = acks l1 ++ acks l2.
Proof. apply omap_app. Qed.

Lemma emits_only_skip : emits_only (W:=W) (P:=P) (K:=K) skip.
Proof. intros w l. exists []. by rewrite app_nil_r. Qed.

Lemma emits_only_emit t ev (b : P) : emits_only (W:=W) (K:=K) (tell (Emit t ev b)).
Proof. intros w l. by exists [Emit t ev b]. Qed.

Lemma emits_only_bind h1 h2 : emits_only h1 → emits_only h2 → emits_only (h1;; h2).
Proof.
  intros H1 H2 w l. destruct (H1 w l) as (l1 & E1 & A1).
  destruct (H2 w (l ++ l1)) as (l2 & E2 & A2).
  exists (l1 ++ l2). unfold mbind, handler_bind. rewrite E1, E2.
  split; [by rewrite (assoc_L (++))|]. by rewrite acks_app, A1, A2.
Qed.

Lemma emits_only_for_each {A} (xs : list A) (body : A → Handler W (Effect P K) unit) :
  (∀ x, emits_only (body x)) → emits_only (for_each xs body).
Proof.
  intros Hbody. induction xs as [|x xs IH]; simpl.
  - apply emits_only_skip.
  - by apply emits_only_bind.
Qed.

End emit_facts.

(** ** Counting acknowledgement calls *)

Section acking_facts.
Context {W P K : Type}.
Local Abbreviation Run := (Handler W (Effect P K)).

Lemma elem_of_sums xs ys x y : x ∈ xs → y ∈ ys → (x + y)%nat ∈ sums xs ys.
Proof.
  intros Hx Hy. unfold sums. apply list_elem_of_bind. exists x. split; [|done].
  apply list_elem_of_bind. exists y. split; [|done]. apply list_elem_of_singleton. done.
Qed.

Lemma acking_ret {A} (a : A) : acking [0%nat] [] (mret a : Run A).
Proof. intros w l. exists w, [], (Done a). rewrite app_nil_r. split; [done|]. simpl. set_solver. Qed.

Lemma acking_throw {A} : acking [] [0%nat] (throw : Run A).
Proof. intros w l. exists w, [], Thrown. rewrite app_nil_r. split; [done|]. simpl. set_solver. Qed.

Lemma acking_get_world : acking [0%nat] [] (get_world : Run W).
Proof. intros w l. exists w, [], (Done w). rewrite app_nil_r. split; [done|]. simpl. set_solver. Qed.

Lemma acking_modify f : acking [0%nat] [] (modify f : Run unit).
Proof. intros w l. exists (f w), [], (Done tt). rewrite app_nil_r. split; [done|]. simpl. set_solver. Qed.

Lemma acking_emit t ev b : acking [0%nat] [] (tell (Emit t ev b) : Run unit).
Proof. intros w l. exists w, [Emit t ev b], (Done tt). split; [done|]. simpl. set_solver. Qed.

Lemma acking_ack k : acking [1%nat] [] (tell (AckCall k) : Run unit).
Proof. intros w l. exists w, [AckCall k], (Done tt). split; [done|]. simpl. set_solver. Qed.

Lemma acking_bind {A B} rs1 ts1 rs2 ts2 (h : Run A) (f : A → Run B) :
  acking rs1 ts1 h → (∀ a, acking rs2 ts2 (f a)) →
  acking (sums rs1 rs2) (ts1 ++ sums rs1 ts2) (h ≫= f).
Proof.
  intros Hh Hf w l. destruct (Hh w l) as (w1 & l1 & o1 & E1 & H1).
  unfold mbind, handler_bind. rewrite E1. destruct o1 as [a|].
  - destruct (Hf a w1 (l ++ l1)) as (w2 & l2 & o2 & E2 & H2).
    exists w2, (l1 ++ l2), o2. rewrite E2, (assoc_L (++)). split; [done|].
    rewrite acks_app, length_app. destruct o2.
    + by apply elem_of_sums.
    + apply elem_of_app. right. by apply elem_of_sums.
  - exists w1, l1, Thrown. split; [done|]. apply elem_of_app. by left.
Qed.

Lemma acking_try_catch {A} rs1 ts1 rs2 ts2 (body handler : Run A) :
  acking rs1 ts1 body → acking rs2 ts2 handler →
  acking (rs1 ++ sums ts1 rs2) (sums ts1 ts2) (try_catch body handler).
Proof.
  intros Hb Hh w l. destruct (Hb w l) as (w1 & l1 & o1 & E1 & H1).
  unfold try_catch. rewrite E1. destruct o1 as [a|].
  - exists w1, l1, (Done a). split; [done|]. apply elem_of_app. by left.
  - destruct (Hh w1 (l ++ l1)) as (w2 & l2 & o2 & E2 & H2).
    exists w2, (l1 ++ l2), o2. rewrite E2, (assoc_L (++)). split; [done|].
    rewrite acks_app, length_app. destruct o2.
    + apply elem_of_app. right. by apply elem_of_sums.
    + by apply elem_of_sums.
Qed.

Lemma acking_weaken {A} rs ts rs' ts' (h : Run A) :
  acking rs ts h → rs ⊆ rs' → ts ⊆ ts' → acking rs' ts' h.
Proof.
  intros Hh Hrs Hts w l. destruct (Hh w l) as (w1 & l1 & o1 & E1 & H1).
  exists w1, l1, o1. split; [done|]. destruct o1; auto.
Qed.

Lemma acking_if {A} rs1 ts1 rs2 ts2 (b : bool) (h1 h2 : Run A) :
  acking rs1 ts1 h1 → acking rs2 ts2 h2 →
  acking (rs1 ++ rs2) (ts1 ++ ts2) (if b then h1 else h2).
Proof.
  intros H1 H2. destruct b; eapply acking_weaken; eauto; set_solver.
Qed.

Lemma acking_option {A B} rs1 ts1 rs2 ts2 (x : option B) (f : B → Run A) (g : Run A) :
  (∀ y, acking rs1 ts1 (f y)) → acking rs2 ts2 g →
  acking (rs1 ++ rs2) (ts1 ++ ts2) (match x with Some y => f y | None => g end).
Proof.
  intros H1 H2. destruct x; eapply acking_weaken; eauto; set_solver.
Qed.

Lemma acking_pair {A B C} rs ts (x : B * C) (f : B → C → Run A) :
  (∀ y z, acking rs ts (f y z)) → acking rs ts (let '(y, z) := x in f y z).
Proof. destruct x. auto. Qed.

Lemma acking_list {A B} rs1 ts1 rs2 ts2 (x : list B) (f : B → list B → Run A) (g : Run A) :
  acking rs1 ts1 g → (∀ y ys, acking rs2 ts2 (f y ys)) →
  acking (rs1 ++ rs2) (ts1 ++ ts2) (match x with [] => g | y :: ys => f y ys end).
Proof.
  intros H1 H2. destruct x; eapply acking_weaken; eauto; set_solver.
Qed.

Lemma acking_for_each {A} (xs : list A) (body : A → Run unit) :
  (∀ x, acking [0%nat] [] (body x)) → acking [0%nat] [] (for_each xs body).
Proof.
  intros Hbody. induction xs as [|x xs IH]; simpl.
  - apply acking_ret.
  - eapply acking_weaken; [eapply acking_bind; [apply Hbody|intros _; apply IH]|..];
      simpl; set_solver.
Qed.

Lemma acking_destructure {A} rs ts (p : option Payload) (k : Payload → Run A) :
  (∀ o, acking rs ts (k o)) → acking rs (0%nat :: ts) (destructure p k).
Proof.
  intros Hk. destruct p; simpl.
  - eapply acking_weaken; eauto; set_solver.
  - intros w l. exists w, [], Thrown. rewrite app_nil_r. split; [done|]. simpl. left.
Qed.

(** What [acking] says about one run from an empty log. *)
Lemma acking_run {A} rs ts (h : Run A) w :
  acking rs ts h →
  match h w [] with
  | (_, l, Done _) => length (acks l) ∈ rs
  | (_, l, Thrown) => length (acks l) ∈ ts
  end.
Proof.
  intros Hh. destruct (Hh w []) as (w1 & l1 & o1 & -> & H1). done.
Qed.
End acking_facts.

(** ** JavaScript maps *)

Section jsmap_facts.
Context {V : Type}.
Implicit Types (m : JsMap.t V) (k : string) (v : V).

Lemma JsMap_get_set m k k' v :
  JsMap.get (JsMap.set m k v) k' = if decide (k = k') then Some v else JsMap.get m k'.
Proof.
  induction m as [|[k0 v0] m IH]; simpl.
  - by destruct (decide (k = k')).
  - destruct (decide (k0 = k)) as [->|]; simpl.
    + by destruct (decide (k = k')).
    + destruct (decide (k0 = k')) as [->|]; [by rewrite decide_False|].
      by rewrite IH.
Qed.

Lemma JsMap_set_Forall (P : string * V → Prop) m k v :
  Forall P m → P (k, v) → Forall P (JsMap.set m k v).
Proof.
  intros Hm Hkv. induction Hm as [|[k0 v0] m H0 Hm IH]; simpl.
  - by repeat constructor.
  - destruct (decide (k0 = k)); constructor; auto.
Qed.

Lemma JsMap_get_Forall (P : string * V → Prop) m k v :
  Forall P m → JsMap.get m k = Some v → P (k, v).
Proof.
  intros Hm. induction Hm as [|[k0 v0] m H0 Hm IH]; simpl; [done|].
  destruct (decide (k0 = k)) as [->|]; [|done]. by intros [= ->].
Qed.
End jsmap_facts.

(** ** Tactics *)

(** The number of acknowledgement calls of a handler, construct by
    construct. *)
Ltac acking_step :=
  lazymatch goal with
  | |- acking _ _ (mret _) => apply acking_ret
  | |- acking _ _ skip => apply acking_ret
  | |- acking _ _ throw => apply acking_throw
  | |- acking _ _ get_world => apply acking_get_world
  | |- acking _ _ (modify _) => apply acking_modify
  | |- acking _ _ (tell (Emit _ _ _)) => apply acking_emit
  | |- acking _ _ (tell (AckCall _)) => apply acking_ack
  | |- acking _ _ (try_catch _ _) => eapply acking_try_catch
  | |- acking _ _ (destructure _ _) => eapply acking_destructure; intros ?
  | |- acking _ _ (for_each _ _) =>
      apply acking_for_each; intros ?;
      eapply acking_weaken;
      [ repeat acking_step | apply (bool_decide_unpack _); vm_compute; exact Logic.I .. ]
  | |- acking _ _ (_ ≫= _) => eapply acking_bind; [|intros ?]
  | |- acking _ _ (match _ with Some _ => _ | None => _ end) => eapply acking_option; [intros ?|]
  | |- acking _ _ (match _ with [] => _ | _ :: _ => _ end) => eapply acking_list; [|intros ? ?]
  | |- acking _ _ (let '(_, _) := _ in _) => eapply acking_pair; intros ? ?
  | |- acking _ _ (if _ then _ else _) => eapply acking_if
  end.


Ltac acking_solve tac :=
  eapply acking_weaken;
  [ repeat first [tac | acking_step]
  | apply (bool_decide_unpack _); vm_compute; exact Logic.I .. ].

(** Running a handler by hand: unfold the monad and compute. *)
Ltac hsimpl :=
  repeat (cbn -[Server.toggle_reaction Server.participants Server.find_newest
                InMem.ROOM_CAP InMem.find_message for_each acks trim slice_last] in *;
          unfold mbind, handler_bind, mret, handler_ret, get_world, modify, tell, skip,
                 Server.emit, Server.reply, Server.io_to, Server.db_op,
                 Server.world_after, Server.effects_of, Server.outcome_of,
                 InMem.emit, InMem.reply, InMem.safeHandler, InMem.alloc,
                 InMem.world_after, InMem.effects_of, InMem.outcome_of,
                 try_catch, destructure, throw in *).

Lemma falsy_Some_ne s : s ≠ "" → falsy (Some s) = false.
Proof. intros. unfold falsy, truthy. by rewrite bool_decide_true. Qed.

Lemma for_each_emits {W P K A} (xs : list A) (body : A → Handler W (Effect P K) unit) w l :
  (∀ x, emits_only (body x)) →
  ∃ l', for_each xs body w l = (w, l ++ l', Done tt) ∧ acks l' = [].
Proof. intros. by apply emits_only_for_each. Qed.

Lemma emits_only_raw {W P K} t ev (b : P) :
  emits_only (W:=W) (K:=K) (λ w l, (w, l ++ [Emit t ev b], Done tt)).
Proof. intros w l. by exists [Emit t ev b]. Qed.

(** One rule per construct of a handler. *)
Ltac keeps_step :=
  lazymatch goal with
  | |- keeps _ (mret _) _ => apply (keeps_ret _ _ (λ _, True) Logic.I)
  | |- keeps _ skip _ => apply keeps_skip
  | |- keeps _ throw _ => apply keeps_throw
  | |- keeps _ get_world _ => apply keeps_get_world
  | |- keeps _ (tell _) _ => apply keeps_tell
  | |- keeps _ (try_catch _ _) _ => apply keeps_try_catch
  | |- keeps _ (destructure _ _) _ => apply keeps_destructure; intros ? ?
  | |- keeps _ (for_each _ _) _ => apply keeps_for_each; intros ?
  | |- keeps _ (_ ≫= _) _ => eapply keeps_bind; [|intros ? ?]
  | |- keeps _ (if _ then _ else _) _ => case_match
  | |- keeps _ (match _ with _ => _ end) _ => case_match
  end.

(** ** The reaction toggle of [server.js] *)

Section toggle.
Import Server.
Implicit Types (rs : list Reaction) (e u : string).

Lemma toggle_reaction_entries_ok rs e u :
  Forall entry_ok rs → Forall entry_ok (toggle_reaction rs e u).
Proof.
  intros Hok. unfold toggle_reaction.
  destruct (list_find _ rs) as [[i r]|] eqn:Hfind.
  - apply list_find_Some in Hfind as (Hi & He & _).
    repeat case_bool_decide.
    + apply Forall_forall. intros x [Hne Hx]%list_elem_of_filter.
      apply list_elem_of_lookup in Hx as [j Hj].
      apply list_lookup_insert_Some in Hj as [(-> & <- & _)|[_ Hj]].
      * simpl in Hne. congruence.
      * eapply Forall_lookup_1; eauto.
    + apply Forall_insert; [done|]. split; [done|].
      simpl. intros Hnil. rewrite Hnil in *. done.
    + apply Forall_insert; [done|]. split; [done|].
      simpl. by destruct (users r).
  - apply Forall_app. split; [done|].
    repeat constructor. done.
Qed.

Lemma list_find_insert_same {A} (P : A → Prop) `{!∀ x, Decision (P x)} (l : list A) i x y :
  list_find P l = Some (i, x) → P y → list_find P (<[i:=y]> l) = Some (i, y).
Proof.
  intros (Hi & _ & Hleast)%list_find_Some Hy.
  apply list_find_insert_Some. right; left.
  split_and!; eauto using lookup_lt_Some.
Qed.

Lemma reacted_toggle rs e u :
  reacted (toggle_reaction rs e u) e u = negb (reacted rs e u).
Proof.
  unfold reacted at 2. unfold toggle_reaction.
  destruct (list_find _ rs) as [[i r]|] eqn:Hfind.
  - pose proof Hfind as (Hi & He & Hleast)%list_find_Some.
    destruct (decide (u ∈ users r)) as [Hin|Hin].
    + rewrite !(bool_decide_true (u ∈ users r)) by done. simpl.
      case_bool_decide as Hlen.
      * unfold reacted.
        destruct (list_find _ (filter _ _)) as [[j x]|] eqn:Hf; [|done].
        apply list_find_Some in Hf as (Hj & Hx & _).
        apply list_elem_of_lookup_2, list_elem_of_filter in Hj as [? _]. done.
      * unfold reacted.
        erewrite list_find_insert_same by eauto. simpl.
        apply bool_decide_eq_false. intros [? ?]%list_elem_of_filter. done.
    + rewrite !(bool_decide_false (u ∈ users r)) by done. simpl.
      unfold reacted.
      erewrite list_find_insert_same by eauto. simpl.
      apply bool_decide_eq_true. set_solver.
  - unfold reacted. rewrite list_find_app_r by done. simpl.
    rewrite decide_True by done. simpl. apply bool_decide_eq_true. set_solver.
Qed.

(** When a toggle-off leaves the entry without users, no entry for the
    emoji remains. *)
Lemma toggle_reaction_removes rs e u i r :
  list_find (λ x, emoji x = e) rs = Some (i, r) →
  u ∈ users r →
  filter (λ v, v ≠ u) (users r) = [] →
  ∀ x, x ∈ toggle_reaction rs e u → emoji x ≠ e.
Proof.
  intros Hfind Hin Hnil x. unfold toggle_reaction. rewrite Hfind.
  rewrite bool_decide_true by done. rewrite Hnil. simpl.
  intros [? ?]%list_elem_of_filter. done.
Qed.

End toggle.

(** ** Invariants of the Message collection ([server.js])

    A property of single documents that holds of a fresh message and is
    kept by the reaction toggle and by a first read receipt holds of every
    document after every request. *)

Section server_invariants.
Import Server.

Context (Pm : Message → Prop).
Hypothesis Pm_fresh : ∀ m, reactions m = [] → readBy m = [] → Pm m.
Hypothesis Pm_toggle : ∀ m e u, Pm m → Pm (with_reactions (toggle_reaction (reactions m) e u) m).
Hypothesis Pm_read : ∀ m u, Pm m → u ∉ readBy m → Pm (with_readBy (readBy m ++ [u]) m).

Lemma keeps_db_op {A} (I : World → Prop) ctx (f : World → World * A) (Φ : A → Prop) :
  (∀ w, I w → I (f w).1 ∧ Φ (f w).2) → keeps I (db_op ctx f) Φ.
Proof.
  intros Hf w l Hw. unfold db_op. destruct (db_up ctx); [|done].
  specialize (Hf w Hw). by destruct (f w).
Qed.

Lemma keeps_db_read {A} (I : World → Prop) ctx (f : World → A) :
   keeps I (db_op ctx (λ w, (w, f w))) (λ _, True).
Proof. apply keeps_db_op. by intros w Hw. Qed.

Lemma keeps_findById ctx id :
  keeps (every_message Pm) (Message_findById ctx id) (λ o, ∀ m, o = Some m → Pm m).
Proof.
  apply keeps_db_op. intros w Hw. split; [done|]. simpl.
  intros m Hm. destruct id as [i|]; [|done]. simpl in Hm. eauto.
Qed.

Lemma keeps_save ctx m :
  Pm m → keeps (every_message Pm) (Message_save ctx m) (λ _, True).
Proof.
  intros Hm. apply keeps_db_op. intros w Hw. split; [|done]. simpl.
  intros id m' Hl. cbn in Hl. apply lookup_insert_Some in Hl as [[_ <-]|[_ ?]]; eauto.
Qed.

Lemma keeps_findByIdAndDelete ctx id :
  keeps (every_message Pm) (Message_findByIdAndDelete ctx id) (λ _, True).
Proof.
  apply keeps_db_op. intros w Hw. split; [|done]. simpl.
  intros i m' Hl. cbn in Hl. apply lookup_delete_Some in Hl as [_ ?]; eauto.
Qed.

Lemma keeps_deleteMany ctx r :
  keeps (every_message Pm) (Message_deleteMany ctx r) (λ _, True).
Proof.
  apply keeps_db_op. intros w Hw. split; [|done]. simpl.
  intros i m' Hl. cbn in Hl. apply map_lookup_filter_Some in Hl as [? _]; eauto.
Qed.

Lemma keeps_other (f : World → World) :
  (∀ w, Messages (f w) = Messages w) →
  keeps (E:=Effect Body Reply) (every_message Pm) (modify f) (λ _, True).
Proof.
  intros Hf. apply keeps_modify. intros w Hw id m. rewrite Hf. apply Hw.
Qed.

Lemma keeps_db_same {A} ctx (f : World → World * A) :
  (∀ w, Messages (f w).1 = Messages w) →
  keeps (every_message Pm) (db_op ctx f) (λ _, True).
Proof.
  intros Hf. apply keeps_db_op. intros w Hw. split; [|done].
  intros id m. rewrite Hf. apply Hw.
Qed.

Ltac server_step :=
  first
    [ apply keeps_findById
    | apply keeps_save
    | apply keeps_findByIdAndDelete
    | apply keeps_deleteMany
    | apply keeps_db_same; intros ?; simpl; by repeat case_match
    | apply keeps_other; done
    | keeps_step ].

Lemma every_message_handle cfg r : keeps (every_message Pm) (handle cfg r) (λ _, True).
Proof.
  destruct r as [ev s a c]. unfold handle. simpl.
  destruct ev;
    unfold on_connection, on_disconnect, on_rooms_request, on_join, on_message, on_typing,
      on_mark_read, on_file_message, on_privateMessage, on_reaction, on_joinRoom,
      on_leaveRoom, on_createRoom, on_clearRoom, on_deleteRoom, on_deleteMessage,
      emit_online, send_history, broadcast_rooms, socket_join, socket_leave, io_to,
      emit, reply, require_Room, Room_find, Room_findOne, Room_findOneAndDelete, Room_save,
      Message_find_newest;
    repeat server_step.
  - by apply Pm_fresh.
  - apply Pm_read; [eauto|]. by eapply bool_decide_eq_false_1.
  - by apply Pm_fresh.
  - by apply Pm_fresh.
  - apply Pm_toggle; eauto.
Qed.

Lemma every_message_run cfg reqs w :
  every_message Pm w → every_message Pm (run cfg reqs w).
Proof.
  revert w. induction reqs as [|r reqs IH]; intros w Hw; [done|]. simpl.
  apply IH. unfold step, world_after.
  pose proof (every_message_handle cfg r w [] Hw) as Hr.
  destruct (handle cfg r w []) as [[w' l'] [[]|]]; simpl; tauto.
Qed.
End server_invariants.

(** ** The [reaction] handler of [server.js] *)

Section reaction.
Import Server.

Lemma on_reaction_world ctx s a p w m e u :
  payload a = Some p → p_messageId p = Some (_id m) → p_emoji p = Some e → p_by p = Some u →
  db_up ctx = true → stored w m →
  world_after (on_reaction ctx s a w []) =
    set_Messages <[_id m := with_reactions (toggle_reaction (reactions m) e u) m]> w.
Proof.
  intros Hp Hid He Hu Hdb Hm. unfold on_reaction, Message_findById, Message_save.
  rewrite Hp. hsimpl. rewrite Hid, He, Hu, Hdb. hsimpl. rewrite Hm. hsimpl.
  destruct (private m); [|done]. hsimpl.
  match goal with |- context [for_each ?xs ?body ?w0 ?l0] =>
    destruct (emits_only_for_each xs body) with (w := w0) (l := l0) as (l' & -> & _)
  end; [|done].
  intros sid w0 l0. eexists. split; [by rewrite <-(assoc_L (++))|done].
Qed.

(** C10: after every reaction operation, whatever requests the server
    handled before it, every reaction entry of every stored message has a
    [count] equal to the number of its [users], and no entry has an empty
    [users] list. *)
Theorem reaction_entries_well_formed cfg reqs ctx s a :
  let w := world_after (on_reaction ctx s a (run cfg reqs init) []) in
  ∀ id m, Messages w !! id = Some m →
    Forall (λ r, count r = length (users r) ∧ users r ≠ []) (reactions m).
Proof.
  intros w.
  assert (∀ w0, reactions_ok w0 → reactions_ok (world_after (on_reaction ctx s a w0 []))) as Hstep.
  { intros w0 Hw0.
    pose proof (every_message_handle (λ m, Forall entry_ok (reactions m))) as Hh.
    specialize (Hh ltac:(intros m Hr _; simpl; rewrite Hr; constructor)
                   ltac:(intros; by apply toggle_reaction_entries_ok)
                   ltac:(by intros) cfg
                   {| event := reaction; socket := s; args := a; ctx := ctx |} w0 [] Hw0).
    change (handle cfg _ w0 []) with (on_reaction ctx s a w0 []) in Hh.
    unfold world_after.
    destruct (on_reaction ctx s a w0 []) as [[w' l'] [[]|]]; simpl; tauto. }
  apply Hstep. apply every_message_run.
  - intros m Hr _; simpl; rewrite Hr; constructor.
  - intros; by apply toggle_reaction_entries_ok.
  - by intros.
  - intros id m Hm. cbn in Hm. by rewrite lookup_empty in Hm.
Qed.

(** C10 at the session: the entry Bob's reaction leaves on Alice's
    message. *)
Lemma reaction_entries_well_formed_witness :
  Forall (λ r, Server.count r = length (Server.users r) ∧ Server.users r ≠ [])
    [{| Server.emoji := "<3"; Server.users := ["Bob"]; Server.count := 1 |}].
Proof.
  apply (reaction_entries_well_formed ServerDemo.cfg ServerDemo.session
           (ServerDemo.at_time 1007 "x7") ServerDemo.bob (sent ServerDemo.heart false) "msg1"
           (Server.with_reactions
              [{| Server.emoji := "<3"; Server.users := ["Bob"]; Server.count := 1 |}]
              ServerDemo.msg1)).
  vm_compute. reflexivity.
Defined.

(** C1, as amended: one [reaction] call flips whether [u] is recorded on
    [e], so two identical calls restore what was recorded before the
    first of them (nothing, when [u] had not reacted with [e]); a
    toggle-off that leaves the entry without users removes every entry for
    the emoji; and well-formed entries stay well formed. *)
Theorem reaction_toggles_membership ctx1 ctx2 s a p w m e u :
  payload a = Some p → p_messageId p = Some (_id m) → p_emoji p = Some e → p_by p = Some u →
  db_up ctx1 = true → db_up ctx2 = true →
  stored w m →
  let w1 := world_after (on_reaction ctx1 s a w []) in
  let w2 := world_after (on_reaction ctx2 s a w1 []) in
  ∃ m1 m2,
    Messages w1 !! _id m = Some m1 ∧ Messages w2 !! _id m = Some m2 ∧
    reacted (reactions m1) e u = negb (reacted (reactions m) e u) ∧
    reacted (reactions m2) e u = reacted (reactions m) e u ∧
    (∀ i r, list_find (λ x, emoji x = e) (reactions m) = Some (i, r) →
            u ∈ users r → filter (λ v, v ≠ u) (users r) = [] →
            ∀ x, x ∈ reactions m1 → emoji x ≠ e) ∧
    (Forall entry_ok (reactions m) →
     Forall entry_ok (reactions m1) ∧ Forall entry_ok (reactions m2)).
Proof.
  intros Hp Hid He Hu Hdb1 Hdb2 Hm w1 w2.
  set (m1 := with_reactions (toggle_reaction (reactions m) e u) m).
  set (m2 := with_reactions (toggle_reaction (reactions m1) e u) m1).
  assert (w1 = set_Messages <[_id m := m1]> w) as Hw1
    by (by apply on_reaction_world with (p := p)).
  assert (stored w1 m1) as Hm1.
  { unfold stored. rewrite Hw1. simpl. apply lookup_insert_eq. }
  assert (w2 = set_Messages <[_id m1 := m2]> w1) as Hw2
    by (by apply on_reaction_world with (p := p)).
  exists m1, m2. split_and!.
  - apply Hm1.
  - rewrite Hw2. simpl. apply lookup_insert_eq.
  - apply reacted_toggle.
  - simpl. rewrite !reacted_toggle. apply negb_involutive.
  - intros i r Hfind Hin Hnil x. simpl. by eapply toggle_reaction_removes.
  - intros Hok. split; simpl; auto using toggle_reaction_entries_ok.
Qed.

(** The amended C1 at Bob's reaction to Alice's message. *)
Lemma reaction_toggles_membership_witness :
  let w1 := world_after (on_reaction (ServerDemo.at_time 1007 "x7") ServerDemo.bob
                           (sent ServerDemo.heart false) ServerDemo.said []) in
  let w2 := world_after (on_reaction (ServerDemo.at_time 1008 "x8") ServerDemo.bob
                           (sent ServerDemo.heart false) w1 []) in
  ∃ m m1 m2,
    stored ServerDemo.said m ∧
    Messages w1 !! _id m = Some m1 ∧ Messages w2 !! _id m = Some m2 ∧
    reacted (reactions m1) "<3" "Bob" = negb (reacted (reactions m) "<3" "Bob") ∧
    reacted (reactions m2) "<3" "Bob" = reacted (reactions m) "<3" "Bob".
Proof.
  intros w1 w2.
  exists {| _id := "msg1"; content := Some "Hello from Alice"; from := "Alice"; to := None;
            room := Some "testroom"; timestamp := 1006; file := None; private := false;
            readBy := []; reactions := [] |}.
  match goal with |- ∃ m1 m2, stored _ ?m ∧ _ =>
    destruct (reaction_toggles_membership
                (ServerDemo.at_time 1007 "x7") (ServerDemo.at_time 1008 "x8") ServerDemo.bob
                (sent ServerDemo.heart false) ServerDemo.heart ServerDemo.said m "<3" "Bob")
      as (m1 & m2 & H1 & H2 & H3 & H4 & _)
  end; try reflexivity.
  exists m1, m2. split_and!; [reflexivity|exact H1|exact H2|exact H3|exact H4].
Defined.

(** C1 as stated fails: Bob has reacted to Alice's message once; two more
    identical [reaction] calls leave his reaction recorded. *)
Lemma reaction_twice_keeps_a_recorded_reaction :
  let w := ServerDemo.reacted_once in
  let w1 := world_after (on_reaction (ServerDemo.at_time 1008 "x8") ServerDemo.bob
                           (sent ServerDemo.heart false) w []) in
  let w2 := world_after (on_reaction (ServerDemo.at_time 1009 "x9") ServerDemo.bob
                           (sent ServerDemo.heart false) w1 []) in
  (reactions <$> Messages w !! "msg1") = Some [{| emoji := "<3"; users := ["Bob"]; count := 1 |}] ∧
  (reactions <$> Messages w2 !! "msg1") = Some [{| emoji := "<3"; users := ["Bob"]; count := 1 |}] ∧
  ((λ m, reacted (reactions m) "<3" "Bob") <$> Messages w2 !! "msg1") = Some true.
Proof. vm_compute. done. Qed.

End reaction.

(** ** Requests of [server.js], run *)

Section server_requests.
Import Server.

Lemma deleteMessage_refused cfg ctx s a p w m :
  payload a = Some p → p_messageId p = Some (_id m) → _id m ≠ "" →
  db_up ctx = true → stored w m →
  Some (from m) ≠ requester_of w s → ALLOW_ADMIN_DELETE cfg ≠ Some "true" →
  on_deleteMessage cfg ctx s a w [] =
    (w, if ack a then [AckCall (Fail (Some "not_authorized"))] else [], Done tt).
Proof.
  intros Hp Hid Hne Hdb Hm Hreq Hadm. unfold on_deleteMessage, Message_findById, allowAdmin.
  rewrite Hp. hsimpl. rewrite Hid, falsy_Some_ne, Hdb by done. hsimpl. rewrite Hm. hsimpl.
  rewrite bool_decide_true, bool_decide_false by done. hsimpl. by destruct (ack a).
Qed.

Lemma deleteMessage_by_sender cfg ctx s a p w m :
  payload a = Some p → p_messageId p = Some (_id m) → _id m ≠ "" →
  db_up ctx = true → stored w m →
  Some (from m) = requester_of w s →
  let r := on_deleteMessage cfg ctx s a w [] in
  world_after r = set_Messages (delete (_id m)) w ∧
  acks (effects_of r) = (if ack a then [Ok] else []) ∧
  (private m = false →
   effects_of r = Emit (IoTo (room m ||: "global")) "messageDeleted" (BMessageId (_id m))
                    :: (if ack a then [AckCall Ok] else [])).
Proof.
  intros Hp Hid Hne Hdb Hm Hreq. unfold on_deleteMessage, Message_findById, Message_findByIdAndDelete.
  rewrite Hp. hsimpl. rewrite Hid, falsy_Some_ne, Hdb by done. hsimpl. rewrite Hm. hsimpl.
  rewrite bool_decide_false by (by intros []). hsimpl.
  destruct (private m).
  - hsimpl.
    match goal with |- context [for_each ?xs ?body ?w0 ?l0] =>
      destruct (for_each_emits xs body w0 l0) as (l' & -> & Hl')
    end.
    { intros sid. apply emits_only_emit. }
    destruct (ack a); hsimpl; rewrite ?acks_app, ?Hl'; done.
  - hsimpl. destruct (ack a); done.
Qed.



Lemma on_message_saves ctx s a p w :
  payload a = Some p → db_up ctx = true →
  on_message ctx s a w [] =
    (set_Messages <[oid ctx := new_message ctx s p w]> w,
     [Emit (IoTo (p_room p ||: "global")) "message" (BMessage (new_message ctx s p w));
      Emit (IoTo (p_room p ||: "global")) "room_message"
        (BRoomMessage (p_room p ||: "global") (new_message ctx s p w))],
     Done tt).
Proof.
  intros Hp Hdb. unfold on_message, Message_save. rewrite Hp. hsimpl. rewrite Hdb. done.
Qed.

Lemma joinRoom_unknown_room cfg ctx s a p w r :
  payload a = Some p → p_room p = Some r → r ≠ "" →
  room_model cfg = true → db_up ctx = true →
  list_find (λ d, room_name d = r) (Rooms w) = None →
  on_joinRoom cfg ctx s a w [] =
    (w, if ack a then [AckCall (Fail (Some "room_not_found"))] else [], Done tt).
Proof.
  intros Hp Hr Hne Hmodel Hdb Hfind. unfold on_joinRoom, require_Room, Room_findOne.
  rewrite Hp. hsimpl. rewrite Hr, falsy_Some_ne, Hmodel by done. hsimpl.
  rewrite Hdb. hsimpl. rewrite Hfind. hsimpl. by destruct (ack a).
Qed.

Lemma joinRoom_no_room cfg ctx s a p w :
  payload a = Some p → falsy (p_room p) = true →
  on_joinRoom cfg ctx s a w [] =
    (w, if ack a then [AckCall (Fail (Some "room required"))] else [], Done tt).
Proof.
  intros Hp Hr. unfold on_joinRoom. rewrite Hp. hsimpl. rewrite Hr. hsimpl. by destruct (ack a).
Qed.

Lemma joinRoom_known_room cfg ctx s a p w r i d :
  payload a = Some p → p_room p = Some r → r ≠ "" →
  room_model cfg = true → db_up ctx = true →
  list_find (λ d, room_name d = r) (Rooms w) = Some (i, d) →
  on_joinRoom cfg ctx s a w [] =
    (set_adapter (λ ad, adapter_join ad r (socket_id s)) w,
     [Emit IoEmit "onlineUsers" (BOnlineUsers (onlineUsers w));
      Emit (SocketEmit (socket_id s)) "roomMessages"
        (BRoomMessages r (reverse (find_newest (in_room r) 50 (Messages w))))],
     Done tt).
Proof.
  intros Hp Hr Hne Hmodel Hdb Hfind.
  unfold on_joinRoom, require_Room, Room_findOne, socket_join, emit_online, send_history,
    Message_find_newest.
  rewrite Hp. hsimpl. rewrite Hr, falsy_Some_ne, Hmodel by done. hsimpl.
  rewrite Hdb. hsimpl. rewrite Hfind. hsimpl. done.
Qed.

(** When the lookup throws (no Room model, or the database is down) the
    join goes ahead; with the database down the history is empty. *)
Lemma joinRoom_lookup_fails cfg ctx s a p w r :
  payload a = Some p → p_room p = Some r → r ≠ "" →
  room_model cfg = false ∨ db_up ctx = false →
  on_joinRoom cfg ctx s a w [] =
    (set_adapter (λ ad, adapter_join ad r (socket_id s)) w,
     [Emit IoEmit "onlineUsers" (BOnlineUsers (onlineUsers w));
      Emit (SocketEmit (socket_id s)) "roomMessages"
        (BRoomMessages r (if db_up ctx then reverse (find_newest (in_room r) 50 (Messages w))
                          else []))],
     Done tt).
Proof.
  intros Hp Hr Hne Hfail.
  unfold on_joinRoom, require_Room, Room_findOne, socket_join, emit_online, send_history,
    Message_find_newest.
  rewrite Hp. hsimpl. rewrite Hr, falsy_Some_ne by done. hsimpl.
  destruct (room_model cfg) eqn:Hmodel, (db_up ctx) eqn:Hdb; hsimpl; try done.
  by destruct Hfail.
Qed.

Lemma on_join_named ctx s a p w name :
  payload a = Some p → clerk_username s ||? p_username p ||? None = Some name →
  db_up ctx = true →
  let w' := set_adapter (λ ad, adapter_join ad "global" (socket_id s))
              (set_onlineUsers (λ m, JsMap.set m (socket_id s) name) w) in
  ∃ rest,
    on_join ctx s a w [] =
      (w', Emit IoEmit "onlineUsers" (BOnlineUsers (onlineUsers w')) :: rest, Done tt) ∧
    acks rest = [].
Proof.
  intros Hp Hname Hdb w'.
  unfold on_join, socket_join, emit_online, send_history, Message_find_newest.
  rewrite Hp. hsimpl. rewrite Hname. hsimpl. rewrite Hdb. hsimpl.
  eexists. split; [reflexivity|done].
Qed.

(** C2: a [deleteMessage] request for a stored message by someone who is
    not its sender, while [ALLOW_ADMIN_DELETE] is not ['true'], is answered
    [{ok: false, error: 'not_authorized'}] and changes nothing; by its
    sender, it removes the message and is answered [{ok: true}]. *)
Theorem deleteMessage_by_sender_only cfg ctx s a p w m :
  payload a = Some p → p_messageId p = Some (_id m) → _id m ≠ "" → ack a = true →
  db_up ctx = true → stored w m →
  let r := on_deleteMessage cfg ctx s a w [] in
  (Some (from m) ≠ requester_of w s → ALLOW_ADMIN_DELETE cfg ≠ Some "true" →
     effects_of r = [AckCall (Fail (Some "not_authorized"))] ∧
     world_after r = w ∧ stored (world_after r) m) ∧
  (Some (from m) = requester_of w s →
     acks (effects_of r) = [Ok] ∧
     world_after r = set_Messages (delete (_id m)) w ∧
     Messages (world_after r) !! _id m = None).
Proof.
  intros Hp Hid Hne Hack Hdb Hm r. split.
  - intros Hreq Hadm. subst r. rewrite (deleteMessage_refused _ _ _ _ p _ m) by done.
    rewrite Hack. done.
  - intros Hreq.
    destruct (deleteMessage_by_sender cfg ctx s a p w m) as (Hw & Ha & _); try done.
    fold r in Hw, Ha. rewrite Hack in Ha. split_and!; [done..|].
    rewrite Hw. simpl. apply lookup_delete_eq.
Qed.

(** C2 at the session: Bob may not delete Alice's message, Alice may. *)
Lemma deleteMessage_by_sender_only_witness :
  let by_bob :=
    on_deleteMessage ServerDemo.cfg (ServerDemo.at_time 1008 "x8") ServerDemo.bob
      ServerDemo.on_msg1 ServerDemo.said [] in
  let by_alice :=
    on_deleteMessage ServerDemo.cfg (ServerDemo.at_time 1009 "x9") ServerDemo.alice
      ServerDemo.on_msg1 ServerDemo.said [] in
  (effects_of by_bob = [AckCall (Fail (Some "not_authorized"))] ∧
   world_after by_bob = ServerDemo.said ∧ stored (world_after by_bob) ServerDemo.msg1) ∧
  (acks (effects_of by_alice) = [Ok] ∧
   world_after by_alice = set_Messages (delete "msg1") ServerDemo.said ∧
   Messages (world_after by_alice) !! "msg1" = None).
Proof.
  intros by_bob by_alice. split.
  - apply (deleteMessage_by_sender_only ServerDemo.cfg (ServerDemo.at_time 1008 "x8")
             ServerDemo.bob ServerDemo.on_msg1 (fields [(F_messageId, "msg1")])
             ServerDemo.said ServerDemo.msg1);
      first [reflexivity | vm_compute; congruence].
  - apply (deleteMessage_by_sender_only ServerDemo.cfg (ServerDemo.at_time 1009 "x9")
             ServerDemo.alice ServerDemo.on_msg1 (fields [(F_messageId, "msg1")])
             ServerDemo.said ServerDemo.msg1);
      first [reflexivity | vm_compute; congruence].
Defined.

End server_requests.

(** ** Invariants of the in-memory stores *)

Section inmem_invariants.
Import InMem.

Lemma room_push_bounded ref info :
  (length (messages info) ≤ ROOM_CAP)%nat → (length (messages (room_push ref info)) ≤ ROOM_CAP)%nat.
Proof.
  intros Hle. unfold room_push. simpl. case_bool_decide as Hlen; [|lia].
  rewrite length_app in *. simpl in *.
  destruct (messages info ++ [ref]) as [|x l] eqn:Heq; simpl; [lia|].
  apply (f_equal length) in Heq. rewrite length_app in Heq. simpl in Heq. lia.
Qed.

Lemma store_run msg w l :
  store msg w l =
    (set_ROOMS (λ rooms,
       match JsMap.get rooms (room msg) with
       | Some info => JsMap.set rooms (room msg) (room_push (length (heap w)) info)
       | None => rooms
       end) (set_MESSAGES (λ ms, ms ++ [length (heap w)]) (set_heap (λ h, h ++ [msg]) w)),
     l, Done tt).
Proof. reflexivity. Qed.

Lemma keeps_alloc (I : World → Prop) m :
  (∀ w, I w → I (set_heap (λ h, h ++ [m]) w)) →
  keeps (E:=Effect Body Reply) I (alloc m) (λ _, True).
Proof. intros Hf w l Hw. split; auto. Qed.

Lemma buffers_bounded_new_room w n info :
  buffers_bounded w → messages info = [] →
  buffers_bounded (set_ROOMS (λ rooms, JsMap.set rooms n info) w).
Proof.
  intros Hw Hnil. apply JsMap_set_Forall; [done|]. simpl. rewrite Hnil. simpl. lia.
Qed.

Lemma buffers_bounded_push w r ref :
  buffers_bounded w →
  buffers_bounded (set_ROOMS (λ rooms,
    match JsMap.get rooms r with
    | Some info => JsMap.set rooms r (room_push ref info)
    | None => rooms
    end) w).
Proof.
  intros Hw. unfold buffers_bounded. simpl.
  destruct (JsMap.get (ROOMS w) r) as [info|] eqn:Hget; [|done].
  apply JsMap_set_Forall; [done|]. apply room_push_bounded.
  by apply (JsMap_get_Forall _ _ _ _ Hw Hget).
Qed.

Lemma buffers_bounded_handle r : keeps buffers_bounded (handle r) (λ _, True).
Proof.
  destruct r as [ev s a c|n cb c]; simpl.
  - destruct ev; simpl;
    unfold on_connection, on_disconnect, on_join, on_create_room, on_rooms_request, on_join_room,
      on_leave_room, on_message, on_private_message, on_typing, on_react, on_file_message,
      on_mark_read, safeHandler, broadcastUsers, store, emit, reply;
    repeat first [ keeps_step | apply keeps_alloc; by intros | apply keeps_modify; intros ? ? ];
    try assumption;
    try (apply buffers_bounded_new_room; done);
    try (by apply buffers_bounded_push).
  - unfold post_rooms, emit.
    repeat first [ keeps_step | apply keeps_modify; intros ? ? ];
    try assumption; try (apply buffers_bounded_new_room; done).
Qed.

Lemma keeps_run (I : World → Prop) reqs w :
  (∀ r, keeps I (handle r) (λ _, True)) → I w → I (run reqs w).
Proof.
  intros Hh. revert w. induction reqs as [|r reqs IH]; intros w Hw; [done|]. simpl.
  apply IH. unfold step, world_after. specialize (Hh r w [] Hw).
  destruct (handle r w []) as [[w' l'] [[]|]]; simpl; tauto.
Qed.

Lemma buffers_bounded_init now0 : buffers_bounded (init now0).
Proof. unfold buffers_bounded, ROOM_CAP. simpl. repeat constructor; simpl; lia. Qed.

Lemma archive_extends_handle w0 r : keeps (archive_extends w0) (handle r) (λ _, True).
Proof.
  assert (∀ w m, archive_extends w0 w → archive_extends w0 (set_heap (λ h, h ++ [m]) w)) as Halloc.
  { intros w m [? ?]. split; [done|]. simpl. rewrite length_app. lia. }
  assert (∀ w ref, archive_extends w0 w → archive_extends w0 (set_MESSAGES (λ ms, ms ++ [ref]) w)) as Hpush.
  { intros w m [? ?]. split; [|done]. simpl. by apply prefix_app_r. }
  assert (∀ w i m, archive_extends w0 w → archive_extends w0 (set_heap <[i := m]> w)) as Hmut.
  { intros w i m [? ?]. split; [done|]. simpl. by rewrite length_insert. }
  destruct r as [ev s a c|n cb c]; simpl.
  - destruct ev; simpl;
    unfold on_connection, on_disconnect, on_join, on_create_room, on_rooms_request, on_join_room,
      on_leave_room, on_message, on_private_message, on_typing, on_react, on_file_message,
      on_mark_read, safeHandler, broadcastUsers, store, emit, reply;
    repeat first [ keeps_step | apply keeps_alloc; by auto | apply keeps_modify; intros ? ? ];
    try assumption; auto.
  - unfold post_rooms, emit.
    repeat first [ keeps_step | apply keeps_modify; intros ? ? ]; try assumption.
Qed.

Lemma on_message_run ctx s a p w :
  payload a = Some p →
  on_message ctx s a w [] =
    (world_after (store (new_message ctx s p) w []),
     Emit (IoTo (room (new_message ctx s p))) "message" (BMessage (new_message ctx s p))
       :: (if ack a then [AckCall (OkIdTs (fresh_id ctx) (now ctx))] else []),
     Done tt).
Proof. intros Hp. unfold on_message. hsimpl. rewrite Hp. hsimpl. by destruct (ack a). Qed.

Lemma on_file_message_run ctx s a p w :
  payload a = Some p →
  on_file_message ctx s a w [] =
    (world_after (store (new_file_message ctx s p) w []),
     Emit (IoTo (room (new_file_message ctx s p))) "file_message" (BMessage (new_file_message ctx s p))
       :: (if ack a then [AckCall (OkId (fresh_id ctx))] else []),
     Done tt).
Proof. intros Hp. unfold on_file_message. hsimpl. rewrite Hp. hsimpl. by destruct (ack a). Qed.

(** What [store] does to the archive and to the buffer of the room. *)
Lemma store_spec msg w :
  buffers_bounded w →
  let w' := world_after (store msg w []) in
  heap w' = heap w ++ [msg] ∧
  MESSAGES w' = MESSAGES w ++ [length (heap w)] ∧
  buffers_bounded w' ∧
  (∀ info, JsMap.get (ROOMS w) (room msg) = Some info →
     ∃ info', JsMap.get (ROOMS w') (room msg) = Some info' ∧
       messages info' =
         if decide (length (messages info) = ROOM_CAP)
         then tail (messages info) ++ [length (heap w)]
         else messages info ++ [length (heap w)]) ∧
  (∀ r, r ≠ room msg → JsMap.get (ROOMS w') r = JsMap.get (ROOMS w) r).
Proof.
  intros Hw w'. subst w'. rewrite store_run. unfold world_after. simpl. split_and!; try done.
  - by apply (buffers_bounded_push (set_MESSAGES _ (set_heap _ w))).
  - intros info Hget. rewrite Hget. rewrite JsMap_get_set, decide_True by done.
    eexists; split; [done|]. simpl.
    pose proof (JsMap_get_Forall _ _ _ _ Hw Hget) as Hle. simpl in Hle.
    rewrite length_app. simpl. case_bool_decide; case_decide; try lia; [|done].
    destruct (messages info); simpl in *; [unfold ROOM_CAP in *; lia|done].
  - intros r Hr. destruct (JsMap.get (ROOMS w) (room msg)); [|done].
    rewrite JsMap_get_set. by rewrite decide_False.
Qed.

End inmem_invariants.

(** ** How often a handler acknowledges *)

Section inmem_acks.
Import InMem.

Lemma acking_alloc m : acking [0%nat] [] (alloc m).
Proof.
  intros w l. eexists _, [], _. rewrite app_nil_r. split; [reflexivity|]. simpl. left.
Qed.

Ltac unfold_handlers :=
  unfold on_event, on_connection, on_disconnect, on_join, on_create_room, on_rooms_request,
    on_join_room, on_leave_room, on_message, on_private_message, on_typing, on_react,
    on_file_message, on_mark_read, broadcastUsers, store, safeHandler, emit, reply;
  cbn [ack payload last_is_function].


(** With the callback as only argument no handler calls it: none throws
    on a function read as a payload, and [ack] is not bound. *)
Lemma inmem_callback_only ev ctx s : acking [0%nat] [] (on_event ev ctx s EmittedCallback).
Proof.
  destruct ev; unfold_handlers; unfold destructure; cbn [ack payload last_is_function];
    try change (negb (truthy (trim (p_room callback_fields ||: "")))) with true;
    acking_solve ltac:(apply acking_alloc).
Qed.
End inmem_acks.

Section server_acks.
Import Server.

Lemma acking_db_op {A} ctx (f : World → World * A) : acking [0%nat] [0%nat] (db_op ctx f).
Proof.
  intros w l. unfold db_op. destruct (db_up ctx).
  - destruct (f w) as [w' a]. exists w', [], (Done a). rewrite app_nil_r. split; [done|]. simpl. left.
  - exists w, [], Thrown. rewrite app_nil_r. split; [done|]. simpl. left.
Qed.

Ltac unfold_handlers :=
  unfold handle, on_connection, on_disconnect, on_rooms_request, on_join, on_message, on_typing,
    on_mark_read, on_file_message, on_privateMessage, on_reaction, on_joinRoom,
    on_leaveRoom, on_createRoom, on_clearRoom, on_deleteRoom, on_deleteMessage,
    emit_online, send_history, broadcast_rooms, socket_join, socket_leave, io_to,
    emit, reply, require_Room, Room_find, Room_findOne, Room_findOneAndDelete, Room_save,
    Message_find_newest, Message_findById, Message_save, Message_findByIdAndDelete,
    Message_deleteMany;
  cbn [event socket args Server.ctx ack payload last_is_function].




Lemma server_callback_only cfg ev s c :
  acking [0%nat] [0%nat]
    (handle cfg {| event := ev; socket := s; args := EmittedCallback; ctx := c |}).
Proof.
  destruct ev; unfold_handlers; unfold destructure; cbn [ack payload last_is_function];
    acking_solve ltac:(apply acking_db_op).
Qed.

End server_acks.

(** ** Lists of readers, room membership *)


Lemma occurrences_not_in u l : u ∉ l → occurrences u l = 0%nat.
Proof.
  intros Hn. unfold occurrences. induction l as [|x l IH]; [done|].
  rewrite filter_cons. rewrite not_elem_of_cons in Hn. destruct Hn as [? ?].
  rewrite decide_False by done. auto.
Qed.



Lemma occurrences_NoDup u l : NoDup l → (occurrences u l ≤ 1)%nat.
Proof.
  induction 1 as [|x l Hx Hl IH]; [unfold occurrences; simpl; lia|].
  unfold occurrences in *. rewrite filter_cons. case_decide as Heq; [|done].
  subst. apply occurrences_not_in in Hx. unfold occurrences in Hx. simpl. lia.
Qed.

Section adapter_facts.
Implicit Types (a : Adapter) (r sid : string).

Lemma elem_of_JsSet_add (s : JsSet.t) x y : x ∈ JsSet.add s y ↔ x ∈ s ∨ x = y.
Proof.
  unfold JsSet.add, JsSet.has. case_bool_decide.
  - split; [by left|]. intros [?| ->]; done.
  - rewrite elem_of_app, list_elem_of_singleton. done.
Qed.

Lemma sockets_in_adapter_join a r sid r' sid' :
  sid' ∈ sockets_in (adapter_join a r sid) r' ↔
  sid' ∈ sockets_in a r' ∨ (r' = r ∧ sid' = sid).
Proof.
  unfold sockets_in, adapter_join. rewrite JsMap_get_set.
  destruct (decide (r = r')) as [->|Hne]; simpl.
  - rewrite elem_of_JsSet_add. split; [intros [?|?]; auto|intros [?|[_ ?]]; auto].
  - split; [auto|intros [?|[? _]]; [done|congruence]].
Qed.
End adapter_facts.

(** ** Requests of the in-memory server, run *)

Section inmem_requests.
Import InMem.

(** [join]: the identity is registered, the users are broadcast, the
    adapter is not touched. *)
Lemma on_join_run s a p w :
  payload a = Some p →
  let uname := trim (p_username p ||? Some (userName s) ||: "Anonymous") in
  let canonicalId := auth_userId s ||? Some (userId s) ||: anon s in
  let w' := register canonicalId uname (socket_id s) w in
  on_join s a w [] =
    (w',
     [Emit IoEmit "users" (BUsers (user_summaries w'));
      Emit IoEmit "users_count"
        (BUsersCount (length (filter (λ u, us_online u = true) (user_summaries w'))))]
       ++ (if ack a then [AckCall (OkJoin canonicalId uname)] else []),
     Done tt).
Proof.
  intros Hp. unfold on_join, broadcastUsers. hsimpl. rewrite Hp. hsimpl. by destruct (ack a).
Qed.

Lemma on_join_room_empty ctx s a p w :
  payload a = Some p → trim (p_room p ||: "") = "" →
  on_join_room ctx s a w [] = (w, if ack a then [AckCall (Fail "room required")] else [], Done tt).
Proof.
  intros Hp Hr. unfold on_join_room. hsimpl. rewrite Hp. hsimpl. rewrite Hr. hsimpl.
  by destruct (ack a).
Qed.

Lemma JsMap_has_get {V} (m : JsMap.t V) k : JsMap.has m k = true → is_Some (JsMap.get m k).
Proof. unfold JsMap.has. by intros ?%bool_decide_eq_true. Qed.

Lemma on_join_room_run ctx s a p w :
  payload a = Some p →
  let r := trim (p_room p ||: "") in
  r ≠ "" →
  let w' := joined ctx s r w in
  ∃ info,
    JsMap.get (ROOMS w') r = Some info ∧
    (JsMap.has (ROOMS w) r = false → info = new_room s ctx r) ∧
    (JsMap.has (ROOMS w) r = true → JsMap.get (ROOMS w) r = Some info) ∧
    on_join_room ctx s a w [] =
      (w',
       (if JsMap.has (ROOMS w) r then [] else [Emit IoEmit "rooms" (BRooms (listRooms w'))])
         ++ [Emit (SocketEmit (socket_id s)) "room_messages"
               (BRoomMessages r (deref w' (slice_last 100 (messages info))));
             Emit (IoTo r) "room_users" (BRoomUsers r (room_users w' r))]
         ++ (if ack a then [AckCall (OkRoomMessages r (deref w' (slice_last 100 (messages info))))]
             else []),
       Done tt).
Proof.
  intros Hp r Hr w'. subst w'. unfold joined, on_join_room. hsimpl. rewrite Hp. hsimpl.
  fold r. unfold truthy. rewrite bool_decide_true by done. hsimpl.
  destruct (JsMap.has (ROOMS w) r) eqn:Hhas; hsimpl.
  - destruct (JsMap_has_get _ _ Hhas) as [info Hinfo]. exists info. rewrite Hinfo.
    split_and!; [done|done|done|]. hsimpl. by destruct (ack a).
  - exists (new_room s ctx r). rewrite JsMap_get_set, decide_True by done.
    split_and!; [done|done|done|]. hsimpl. by destruct (ack a).
Qed.
End inmem_requests.

Section inmem_mark_read.
Import InMem.

Lemma find_message_Some w id ref m :
  find_message w id = Some (ref, m) → heap w !! ref = Some m ∧ msg_id m = id.
Proof.
  unfold find_message. intros Hf.
  destruct (list_find _ (MESSAGES w)) as [[i r]|] eqn:Hfind; [|done]. simpl in Hf.
  destruct (heap w !! r) as [m'|] eqn:Hr; [|done]. simpl in Hf. simplify_eq.
  split; [done|]. apply list_find_Some in Hfind as (_ & HP & _).
  rewrite Hr in HP. simpl in HP. by simplify_eq.
Qed.

(** Mutating the fields of a message other than its id does not change
    which message an id finds. *)
Lemma find_message_update w id ref m m' :
  find_message w id = Some (ref, m) → msg_id m' = msg_id m →
  find_message (set_heap <[ref := m']> w) id = Some (ref, m').
Proof.
  intros Hf Hid. pose proof (find_message_Some _ _ _ _ Hf) as [Hm Hmid].
  unfold find_message in *. simpl.
  rewrite (list_find_ext _ (λ r, msg_id <$> heap w !! r = Some id)).
  - destruct (list_find _ (MESSAGES w)) as [[i r]|]; [|done]. simpl in *.
    destruct (heap w !! r) eqn:Hr; [|done]. simpl in Hf. simplify_eq.
    rewrite list_lookup_insert_eq by eauto using lookup_lt_Some. done.
  - intros r. destruct (decide (r = ref)) as [->|Hne].
    + rewrite list_lookup_insert_eq by eauto using lookup_lt_Some. rewrite Hm. simpl.
      by rewrite Hid.
    + by rewrite list_lookup_insert_ne.
Qed.

Lemma mem_mark_read_found s a p w id ref m :
  payload a = Some p → p_messageId p = Some id → id ≠ "" →
  find_message w id = Some (ref, m) →
  let u := userId s in
  let rb := default [] (readBy m) in
  let rb' := if bool_decide (u ∈ rb) then rb else rb ++ [u] in
  ∃ rest,
    on_mark_read s a w [] =
      (set_heap <[ref := with_readBy rb' m]> w,
       Emit (IoTo (room_or_global m)) "message_read" (BMessageRead (msg_id m) u) :: rest,
       Done tt) ∧
    acks rest = if ack a then [Ok] else [].
Proof.
  intros Hp Hid Hne Hf u rb rb'. unfold on_mark_read. hsimpl. rewrite Hp. hsimpl.
  rewrite Hid, falsy_Some_ne by done. hsimpl. rewrite Hf. hsimpl.
  destruct (JsMap.get (USERS_BY_ID w) (senderId m)) as [entry|]; hsimpl.
  - match goal with |- context [for_each ?xs ?body ?w0 ?l0] =>
      destruct (for_each_emits xs body w0 l0) as (l' & -> & Hl')
    end.
    { intros sid. apply emits_only_raw. }
    destruct (ack a); hsimpl.
    + eexists. split; [reflexivity|]. by rewrite acks_app, Hl'.
    + eexists. split; [reflexivity|]. done.
  - destruct (ack a); hsimpl; eexists; split; reflexivity.
Qed.


Lemma set_heap_twice f g w : set_heap f (set_heap g w) = set_heap (f ∘ g) w.
Proof. done. Qed.

End inmem_mark_read.

(** ** Pagination *)

Section ascending_facts.
Context {A : Type} (ts : A → Z).
Implicit Types l : list A.

Lemma StronglySorted_sublist (R : relation A) l1 l2 :
  l1 `sublist_of` l2 → StronglySorted R l2 → StronglySorted R l1.
Proof.
  induction 1 as [|x l1 l2 Hsub IH|x l1 l2 Hsub IH]; intros Hs; [done|..].
  - apply StronglySorted_cons in Hs as [Hx Hs]. apply StronglySorted_cons. split; [|auto].
    eapply Forall_forall. intros y Hy. eapply Forall_forall in Hx; [done|].
    by eapply elem_of_sublist.
  - apply StronglySorted_cons in Hs as [_ Hs]. auto.
Qed.

Lemma ascending_sublist l1 l2 : l1 `sublist_of` l2 → ascending ts l2 → ascending ts l1.
Proof. apply StronglySorted_sublist. Qed.

(** Newest first, reversed, is oldest first. *)
Lemma ascending_reverse l :
  StronglySorted (λ a b, ts b ≤ ts a) l → ascending ts (reverse l).
Proof.
  intros Hs. apply Sorted_StronglySorted.
  { intros x y z ? ?. lia. }
  apply StronglySorted_Sorted in Hs. by apply Sorted_reverse in Hs.
Qed.
End ascending_facts.

(** The archive of the in-memory server is in timestamp order. *)

Section archive_order.
Import InMem.

Lemma ascending_stamps {A} (ts : A → Z) (l : list A) :
  ascending ts l ↔ StronglySorted Z.le (ts <$> l).
Proof.
  unfold ascending. induction l as [|x l IH]; csimpl.
  - split; constructor.
  - rewrite !StronglySorted_cons, IH, Forall_fmap. done.
Qed.

Lemma deref_alloc w w' m refs :
  heap w' = heap w ++ [m] →
  Forall (λ ref, (ref < length (heap w))%nat) refs →
  deref w' refs = deref w refs.
Proof.
  unfold deref. intros ->. induction 1 as [|r refs Hr _ IH]; csimpl; [done|].
  rewrite lookup_app_l by done. by rewrite IH.
Qed.

Lemma deref_app w refs1 refs2 : deref w (refs1 ++ refs2) = deref w refs1 ++ deref w refs2.
Proof. unfold deref. apply omap_app. Qed.

Lemma stamps_update w ref m m' :
  heap w !! ref = Some m → timestamp m' = timestamp m →
  stamps (set_heap <[ref := m']> w) = stamps w.
Proof.
  intros Hm Ht. unfold stamps, archive, deref. simpl.
  induction (MESSAGES w) as [|r refs IH]; csimpl; [done|].
  destruct (decide (r = ref)) as [->|Hne].
  - rewrite list_lookup_insert_eq by (by eapply lookup_lt_Some). rewrite Hm. csimpl.
    by rewrite IH, Ht.
  - rewrite list_lookup_insert_ne by done. destruct (heap w !! r); csimpl; by rewrite IH.
Qed.

Lemma archive_in_order_update t w ref m m' :
  heap w !! ref = Some m → timestamp m' = timestamp m →
  archive_in_order t w → archive_in_order t (set_heap <[ref := m']> w).
Proof.
  intros Hm Ht (Hv & Hs & Hb). unfold archive_in_order.
  rewrite (stamps_update w ref m m') by done. split_and!; [|done..].
  simpl. eapply Forall_impl; [done|]. intros r ?. simpl. by rewrite length_insert.
Qed.

Lemma archive_in_order_store t w m :
  timestamp m = t →
  archive_in_order t w →
  archive_in_order t (set_MESSAGES (λ ms, ms ++ [length (heap w)]) (set_heap (λ h, h ++ [m]) w)).
Proof.
  intros Ht (Hv & Hs & Hb).
  assert (stamps (set_MESSAGES (λ ms, ms ++ [length (heap w)]) (set_heap (λ h, h ++ [m]) w))
          = stamps w ++ [t]) as Hst.
  { unfold stamps, archive. simpl. rewrite deref_app.
    rewrite (deref_alloc w _ m (MESSAGES w)) by done. rewrite fmap_app. f_equal.
    unfold deref. csimpl. rewrite lookup_app_r by lia. rewrite Nat.sub_diag. csimpl.
    by rewrite Ht. }
  unfold archive_in_order. rewrite Hst. split_and!.
  - simpl. apply Forall_app. split.
    + eapply Forall_impl; [done|]. intros r ?. simpl in *. rewrite length_app. simpl. lia.
    + constructor; [|done]. rewrite length_app. simpl. lia.
  - apply StronglySorted_app_2; [|done|repeat constructor].
    intros x y Hx Hy. apply list_elem_of_singleton in Hy as ->.
    by eapply Forall_forall in Hb.
  - apply Forall_app. split; [done|]. by constructor.
Qed.

Lemma archive_in_order_frame t w w' :
  heap w' = heap w → MESSAGES w' = MESSAGES w → archive_in_order t w → archive_in_order t w'.
Proof.
  intros Hh Hm. unfold archive_in_order, stamps, archive, deref. by rewrite Hh, Hm.
Qed.

Lemma archive_in_order_later t t' w : t ≤ t' → archive_in_order t w → archive_in_order t' w.
Proof.
  intros Hle (Hv & Hs & Hb). split_and!; [done..|].
  eapply Forall_impl; [done|]. intros x ?. simpl in *. lia.
Qed.

(** [alloc] and the push to [MESSAGES], as one step. *)
Lemma keeps_alloc_push {A} (I : World → Prop) m (k : nat → H A) (Φ : A → Prop) :
  (∀ w, I w → I (set_MESSAGES (λ ms, ms ++ [length (heap w)]) (set_heap (λ h, h ++ [m]) w))) →
  (∀ ref, keeps I (k ref) Φ) →
  keeps I (ref ← alloc m; modify (set_MESSAGES (λ ms, ms ++ [ref]));; k ref) Φ.
Proof.
  intros Hstep Hk w l Hw. unfold mbind, handler_bind, alloc, modify. simpl.
  apply Hk. by apply Hstep.
Qed.

(** A handler that reads the stores and goes on from what it read. *)
Lemma keeps_read {A} (I : World → Prop) (k : World → H A) (Φ : A → Prop) :
  (∀ w, I w → ∀ l, match k w w l with
                    | (w', _, Done a) => I w' ∧ Φ a
                    | (w', _, Thrown) => I w'
                    end) →
  keeps I (get_world ≫= k) Φ.
Proof. intros Hk w l Hw. by apply Hk. Qed.

Lemma keeps_modify_here {A} (I : World → Prop) f (rest : H A) (Φ : A → Prop) w l :
  I (f w) → keeps I rest Φ →
  match (modify f;; rest) w l with
  | (w', _, Done a) => I w' ∧ Φ a
  | (w', _, Thrown) => I w'
  end.
Proof. intros Hw Hrest. by apply Hrest. Qed.

Local Ltac frame_step :=
  first [ keeps_step
        | apply keeps_modify; intros ? ?; eapply archive_in_order_frame; [..|eassumption]; reflexivity ].

Local Ltac frame_solve := unfold reply, emit; repeat frame_step.

Lemma archive_in_order_store_keeps t msg :
  timestamp msg = t → keeps (archive_in_order t) (store msg) (λ _, True).
Proof.
  intros Ht. unfold store. apply keeps_alloc_push.
  - intros w. by apply archive_in_order_store.
  - intros ref. frame_step.
Qed.

Lemma archive_in_order_mark_read t s a :
  keeps (archive_in_order t) (on_mark_read s a) (λ _, True).
Proof.
  unfold on_mark_read, safeHandler.
  apply keeps_try_catch; [|frame_solve].
  apply keeps_destructure. intros p Hp.
  apply keeps_try_catch; [|frame_solve].
  case_match; [frame_solve|].
  apply keeps_read. intros w Hw l.
  destruct (p_messageId p ≫= find_message w) as [[ref m]|] eqn:Hf.
  - destruct (p_messageId p) as [id|]; [|done]. simpl in Hf.
    apply find_message_Some in Hf as [Href _].
    apply keeps_modify_here.
    + by apply (archive_in_order_update _ _ _ m).
    + frame_solve.
  - assert (keeps (archive_in_order t) (reply (ack a) (Fail "message not found")) (λ _, True)) as Hr
      by frame_solve.
    by apply Hr.
Qed.

Lemma archive_in_order_react t s a :
  keeps (archive_in_order t) (on_react s a) (λ _, True).
Proof.
  unfold on_react, safeHandler.
  apply keeps_try_catch; [|frame_solve].
  apply keeps_destructure. intros p Hp.
  apply keeps_try_catch; [|frame_solve].
  apply keeps_read. intros w Hw l.
  destruct (p_messageId p ≫= find_message w) as [[ref m]|] eqn:Hf.
  - destruct (p_messageId p) as [id|]; [|done]. simpl in Hf.
    apply find_message_Some in Hf as [Href _].
    apply keeps_modify_here.
    + by apply (archive_in_order_update _ _ _ m).
    + frame_solve.
  - assert (keeps (archive_in_order t) (reply (ack a) (Fail "message not found")) (λ _, True)) as Hr
      by frame_solve.
    by apply Hr.
Qed.

Lemma archive_in_order_handle r :
  keeps (archive_in_order (clock r)) (handle r) (λ _, True).
Proof.
  destruct r as [ev s a c|n cb c]; simpl.
  - destruct ev; simpl;
      try apply archive_in_order_mark_read; try apply archive_in_order_react;
      unfold on_connection, on_disconnect, on_join, on_create_room, on_rooms_request, on_join_room,
        on_leave_room, on_message, on_private_message, on_typing, on_file_message,
        safeHandler, broadcastUsers, emit, reply;
      repeat first [ apply archive_in_order_store_keeps; reflexivity
                   | apply keeps_alloc_push; [intros ?; by apply archive_in_order_store|intros ?]
                   | frame_step ].
  - unfold post_rooms, emit. repeat frame_step.
Qed.

(** Handled by a clock that does not run backwards, the archive stays in
    timestamp order. *)
Lemma archive_in_order_run reqs t w :
  archive_in_order t w → Forall (λ r, t ≤ clock r) reqs → ascending clock reqs →
  ∃ t', archive_in_order t' (run reqs w).
Proof.
  revert t w. induction reqs as [|r reqs IH]; intros t w Hw Hle Hs; [by exists t|].
  apply Forall_cons in Hle as [Hr Hle]. apply StronglySorted_cons in Hs as [Hrs Hs]. simpl.
  apply (IH (clock r)); [|done..].
  apply (archive_in_order_later _ (clock r)) in Hw; [|done].
  unfold step, world_after. pose proof (archive_in_order_handle r w [] Hw) as Hh.
  destruct (handle r w []) as [[w' l'] [[]|]]; simpl; tauto.
Qed.

Lemma archive_ascending_run now0 reqs :
  ascending clock reqs → ascending timestamp (archive (run reqs (init now0))).
Proof.
  intros Hs. destruct reqs as [|r reqs].
  - simpl. constructor.
  - destruct (archive_in_order_run (r :: reqs) (clock r) (init now0)) as (t' & _ & Ht' & _).
    + split_and!; simpl; constructor.
    + pose proof Hs as Hs'. apply StronglySorted_cons in Hs' as [Hrs _].
      constructor; [lia|done].
    + done.
    + by apply ascending_stamps.
Qed.

End archive_order.

Section inmem_paginate.
Import InMem.

Lemma mem_paginate_spec ctx w room_q before_q limit_q T n :
  0 ≤ now ctx → ascending timestamp (archive w) →
  default (Num (now ctx)) before_q = Num T → default (Num 50) limit_q = Num n →
  let r := room_q ||: "global" in
  let page := paginate ctx w room_q before_q limit_q in
  (∀ m, m ∈ page → m ∈ archive w ∧ room_or_global m = r ∧ timestamp m < T) ∧
  (length page ≤ Z.to_nat (Z.min n 200))%nat ∧
  ascending timestamp page ∧
  ∃ older, filter (eligible ctx r T) (archive w) = older ++ page ∧
           (older ≠ [] → length page = Z.to_nat (Z.min n 200)).
Proof.
  intros Hnow Hasc HT Hn r page. subst page.
  unfold paginate, page_limit, GLOBAL_ROOM. rewrite HT, Hn. fold r (archive w).
  set (l := filter (eligible ctx r T) (archive w)).
  set (k := Z.to_nat (Z.max 0 (Z.of_nat (length l) - Z.min n 200))).
  split_and!.
  - intros m Hm. apply (λ H, elem_of_sublist _ _ _ H (sublist_drop l k)) in Hm.
    apply list_elem_of_filter in Hm as [[Hr Ht] Hm]. split_and!; [done..|].
    case_bool_decide; lia.
  - rewrite length_drop. lia.
  - eapply ascending_sublist; [|done]. etrans; [apply sublist_drop|apply sublist_filter].
  - exists (take k l). rewrite take_drop. split; [done|].
    intros Hne. rewrite length_drop.
    assert (k ≠ 0)%nat by (intros Hk; by rewrite Hk in Hne). unfold k in *. lia.
Qed.

(** A limit that [parseInt] cannot read switches the clamp off: the page
    is every eligible message. *)
Lemma mem_paginate_NaN ctx w room_q before_q T :
  default (Num (now ctx)) before_q = Num T →
  paginate ctx w room_q before_q (Some NaN)
  = filter (eligible ctx (room_q ||: "global") T) (archive w).
Proof. intros HT. unfold paginate, page_limit, GLOBAL_ROOM. by rewrite HT. Qed.
End inmem_paginate.

Section server_paginate.
Import Server.

Lemma srv_paginate_spec ctx w room_q before_q limit_q :
  db_up ctx = true →
  let r := room_q ||: "global" in
  let T := default (now ctx) before_q in
  let n := default 50 limit_q in
  ∃ page,
    paginate ctx w room_q before_q limit_q = Json page ∧
    (∀ m, m ∈ page → (∃ id, Messages w !! id = Some m) ∧ room m = Some r ∧ timestamp m < T) ∧
    (length page ≤ Z.to_nat (Z.min n 200))%nat ∧
    ascending timestamp page ∧
    (∀ id m', Messages w !! id = Some m' → room m' = Some r → timestamp m' < T → m' ∉ page →
       length page = Z.to_nat (Z.min n 200) ∧ ∀ m, m ∈ page → timestamp m' ≤ timestamp m).
Proof.
  intros Hdb r T n. unfold paginate, Message_find_newest, db_op. rewrite Hdb.
  fold r T n. unfold find_newest.
  set (l := merge_sort newer (filter (eligible r T) (map_to_list (Messages w)).*2)).
  set (k := Z.to_nat (Z.min n 200)).
  assert (StronglySorted newer l) as Hl by (apply StronglySorted_merge_sort; apply _).
  assert (∀ m, m ∈ l ↔ eligible r T m ∧ ∃ id, Messages w !! id = Some m) as Hin.
  { intros m. unfold l. rewrite merge_sort_Permutation, list_elem_of_filter, list_elem_of_fmap.
    split; intros [? Hm]; (split; [done|]).
    - destruct Hm as ([id m0] & -> & ?%elem_of_map_to_list). by exists id.
    - destruct Hm as [id ?]. exists (id, m). by rewrite elem_of_map_to_list. }
  eexists. split; [reflexivity|]. split_and!.
  - intros m Hm. rewrite elem_of_reverse in Hm. apply (λ H, elem_of_sublist _ _ _ H (sublist_take l k)), Hin in Hm.
    destruct Hm as [[? ?] ?]. done.
  - rewrite length_reverse, length_take. lia.
  - apply ascending_reverse. eapply StronglySorted_sublist; [apply sublist_take|done].
  - intros id m' Hm' Hr HT Hnot. rewrite elem_of_reverse in Hnot.
    assert (m' ∈ l) as Hm'l by (apply Hin; split; [done|by exists id]).
    rewrite <-(take_drop k l) in Hm'l, Hl. apply elem_of_app in Hm'l as [?|Hdrop]; [done|].
    split.
    + rewrite length_reverse, length_take. apply list_elem_of_lookup in Hdrop as [i Hi].
      apply lookup_lt_Some in Hi. rewrite length_drop in Hi. lia.
    + intros m Hm. rewrite elem_of_reverse in Hm.
      by apply (StronglySorted_app_1_elem_of _ _ _ _ _ Hl Hm Hdrop).
Qed.
End server_paginate.

(** X24: the in-memory [GET /messages/paginate] for parameters that parse:
    the page holds only messages of the room with a timestamp below the
    bound, at most [min n 200] of them, oldest first, and they are the
    most recent ones below the bound: whatever eligible message is left
    out is no newer than any message of a then full page.  The archive is
    taken to be in timestamp order, which it is after any requests
    handled by a clock that does not run backwards (the last part). *)
Theorem paginate_window_for_parsed_parameters :
  (∀ ctx w room_q before_q limit_q T n,
     0 ≤ InMem.now ctx → ascending InMem.timestamp (InMem.archive w) →
     default (Num (InMem.now ctx)) before_q = Num T → default (Num 50) limit_q = Num n →
     let r := room_q ||: "global" in
     let page := InMem.paginate ctx w room_q before_q limit_q in
     (∀ m, m ∈ page → m ∈ InMem.archive w ∧ InMem.room_or_global m = r ∧ InMem.timestamp m < T) ∧
     (length page ≤ Z.to_nat (Z.min n 200))%nat ∧
     ascending InMem.timestamp page ∧
     ∃ older, filter (InMem.eligible ctx r T) (InMem.archive w) = older ++ page ∧
              (older ≠ [] → length page = Z.to_nat (Z.min n 200)) ∧
              (∀ m' m, m' ∈ older → m ∈ page → InMem.timestamp m' ≤ InMem.timestamp m)) ∧
  (∀ now0 reqs,
     ascending InMem.clock reqs →
     ascending InMem.timestamp (InMem.archive (InMem.run reqs (InMem.init now0)))).
Proof.
  split; [|apply archive_ascending_run].
  intros ctx w room_q before_q limit_q T n Hnow Hasc HT Hn r page.
  destruct (mem_paginate_spec ctx w room_q before_q limit_q T n Hnow Hasc HT Hn)
    as (Hin & Hlen & Hpage & older & Heq & Hfull).
  fold r page in Hin, Hlen, Hpage, Heq, Hfull.
  split_and!; try done. exists older. split_and!; try done.
  intros m' m Hm' Hm.
  assert (ascending InMem.timestamp (older ++ page)) as Hs.
  { rewrite <-Heq. eapply ascending_sublist; [apply sublist_filter|done]. }
  by apply (StronglySorted_app_1_elem_of _ _ _ _ _ Hs Hm' Hm).
Qed.

(** The first page of [testroom] at the session. *)
Lemma paginate_window_for_parsed_parameters_witness :
  let c := InMemDemo.at_time (InMemDemo.t0 + 100) "zzzzzz" in
  let page := InMem.paginate c InMemDemo.said (Some "testroom") None (Some (Num 10)) in
  (∀ m, m ∈ page →
     m ∈ InMem.archive InMemDemo.said ∧ InMem.room_or_global m = "testroom" ∧
     InMem.timestamp m < InMemDemo.t0 + 100) ∧
  (length page ≤ 10)%nat ∧
  ascending InMem.timestamp page.
Proof.
  intros c page.
  destruct (proj1 paginate_window_for_parsed_parameters c InMemDemo.said (Some "testroom") None
              (Some (Num 10)) (InMemDemo.t0 + 100) 10)
    as (H1 & H2 & H3 & _).
  - vm_compute. congruence.
  - apply (proj2 paginate_window_for_parsed_parameters InMemDemo.t0 InMemDemo.session).
    vm_compute. repeat constructor; congruence.
  - reflexivity.
  - reflexivity.
  - split; [exact H1|]. split; [exact H2|exact H3].
Defined.

(** C7 fails on the in-memory route at [?room=global&limit=abc]: after
    201 messages to the room, a limit of 1000 is clamped to a page of 200,
    and the limit that does not parse gets all 201. *)
Theorem paginate_unparsed_limit_is_not_clamped :
  let c := InMemDemo.at_time (InMemDemo.t0 + 1000) "zzzzzz" in
  length (InMem.paginate c InMemDemo.flooded (Some "global") None (Some (Num 1000))) = 200%nat ∧
  length (InMem.paginate c InMemDemo.flooded (Some "global") None (Some NaN)) = 201%nat ∧
  InMem.paginate c InMemDemo.flooded (Some "global") None (Some NaN)
  = filter (InMem.eligible c "global" (InMemDemo.t0 + 1000)) (InMem.archive InMemDemo.flooded).
Proof.
  intros c. split_and!.
  - vm_compute. reflexivity.
  - vm_compute. reflexivity.
  - by apply mem_paginate_NaN.
Qed.

(** ** Who a message is stored under *)


(** [a || b || null] is a name only when it is a non-empty string. *)
Lemma js_or_known (a c : option string) (d name : string) :
  a ||? None = Some name → a ||? c ||: d = name.
Proof.
  destruct a as [x|]; simpl; [|done]. destruct (truthy x) eqn:Hx; [|done].
  intros [= ->]. simpl. by rewrite Hx.
Qed.

Lemma js_or_unknown (a c : option string) (d : string) :
  a ||? None = None → a ||? c ||: d = c ||: d.
Proof.
  destruct a as [x|]; simpl; [|done]. by destruct (truthy x) eqn:Hx.
Qed.

Lemma trim_nonempty u : trim u ≠ "" → u ≠ "".
Proof. intros Hne ->. by apply Hne. Qed.

(** [trim] strips white space beyond ASCII, at both ends, and none
    inside. *)
Lemma trim_strips_no_break_space :
  trim nbsp = "" ∧
  trim (nbsp +:+ " lobby" +:+ nbsp) = "lobby" ∧
  trim ("a" +:+ nbsp +:+ "b") = "a" +:+ nbsp +:+ "b".
Proof. vm_compute. done. Qed.

Section senders.

(** C3, as amended: the sender stored with a message does not depend on
    the [from] the client sent when the connection has a name the server
    knows (a Clerk username or an [onlineUsers] entry), and always on the
    in-memory server; on [server.js] a connection without such a name is
    stored under the client's [from]. *)
Theorem message_sender_from_session :
  (∀ ctx s k p w f f' name,
     Server.db_up ctx = true → Server.requester_of w s = Some name →
     Server.from (Server.new_message ctx s (with_from f p) w) = name ∧
     Server.world_after (Server.on_message ctx s (sent (with_from f p) k) w []) =
     Server.world_after (Server.on_message ctx s (sent (with_from f' p) k) w [])) ∧
  (∀ ctx s k p w f,
     Server.db_up ctx = true → Server.requester_of w s = None →
     ∃ m, Server.Messages (Server.world_after (Server.on_message ctx s (sent (with_from f p) k) w []))
            !! Server.oid ctx = Some m ∧
          Server.from m = f ||: "Anonymous") ∧
  (∀ ctx s k p w f f',
     InMem.world_after (InMem.on_message ctx s (sent (with_from f p) k) w []) =
     InMem.world_after (InMem.on_message ctx s (sent (with_from f' p) k) w []) ∧
     InMem.heap (InMem.world_after (InMem.on_message ctx s (sent (with_from f p) k) w []))
       !! length (InMem.heap w) = Some (InMem.new_message ctx s p) ∧
     InMem.senderId (InMem.new_message ctx s p) = InMem.userId s ∧
     InMem.senderName (InMem.new_message ctx s p) = InMem.userName s).
Proof.
  split_and!.
  - intros ctx s k p w f f' name Hdb Hname. unfold Server.requester_of in Hname.
    assert (∀ g, Server.new_message ctx s (with_from g p) w =
                 Server.new_message ctx s (with_from None p) w) as Heq.
    { intros g. unfold Server.new_message. simpl.
      by rewrite !(js_or_known _ _ _ name) by done. }
    split.
    + unfold Server.new_message. simpl. by apply js_or_known.
    + rewrite !(on_message_saves _ _ _ (with_from _ p)) by done.
      unfold Server.world_after. simpl. by rewrite (Heq f), (Heq f').
  - intros ctx s k p w f Hdb Hname. unfold Server.requester_of in Hname.
    rewrite (on_message_saves _ _ _ (with_from f p)) by done.
    eexists. split; [apply lookup_insert_eq|]. simpl. by apply js_or_unknown.
  - intros ctx s k p w f f'.
    rewrite !(on_message_run _ _ _ (with_from _ p)) by done.
    assert (∀ g, InMem.new_message ctx s (with_from g p) = InMem.new_message ctx s p) as Heq by done.
    rewrite !Heq. split_and!; try done.
    unfold InMem.world_after. rewrite store_run. simpl.
    rewrite lookup_app_r by lia. by rewrite Nat.sub_diag.
Qed.

(** The amended C3 at the session: Alice has joined, so a message she
    sends is stored under [Alice] whatever [from] says. *)
Lemma message_sender_from_session_witness :
  let c := ServerDemo.at_time 1008 "msg2" in
  let p := fields [(F_content, "hi"); (F_room, "testroom")] in
  Server.from (Server.new_message c ServerDemo.alice (with_from (Some "Mallory") p) ServerDemo.said)
    = "Alice" ∧
  Server.world_after
    (Server.on_message c ServerDemo.alice (sent (with_from (Some "Mallory") p) false) ServerDemo.said []) =
  Server.world_after
    (Server.on_message c ServerDemo.alice (sent (with_from (Some "Alice") p) false) ServerDemo.said []).
Proof.
  intros c p.
  apply (proj1 message_sender_from_session c ServerDemo.alice false p ServerDemo.said
           (Some "Mallory") (Some "Alice") "Alice"); reflexivity.
Defined.

(** C3 as stated fails on [server.js]: on a connection that has not
    joined (no Clerk user, no [onlineUsers] entry) the stored sender is
    the [from] of the payload. *)
Lemma message_stored_under_client_from :
  let stored_from f :=
    Server.from <$>
      Server.Messages
        (Server.world_after
           (Server.on_message (ServerDemo.at_time 1000 "msg0") ServerDemo.alice
              (sent (fields [(F_content, "hi"); (F_from, f)]) false) Server.init []))
      !! "msg0" in
  Server.requester_of Server.init ServerDemo.alice = None ∧
  stored_from "Alice" = Some "Alice" ∧ stored_from "Mallory" = Some "Mallory".
Proof. vm_compute. done. Qed.
End senders.

(** ** Joining a room *)

Section joining.

Lemma length_slice_last {A} n (l : list A) : (length (slice_last n l) ≤ n)%nat.
Proof. unfold slice_last. rewrite length_drop. lia. Qed.

Lemma length_deref w refs : (length (InMem.deref w refs) ≤ length refs)%nat.
Proof.
  unfold InMem.deref. induction refs as [|r refs IH]; csimpl; [done|].
  destruct (InMem.heap w !! r); simpl; lia.
Qed.

Lemma length_find_newest P `{∀ m, Decision (P m)} n ms :
  (length (Server.find_newest P n ms) ≤ Z.to_nat n)%nat.
Proof. unfold Server.find_newest. rewrite length_take. lia. Qed.

(** C4, as amended.  In-memory [join_room]: an empty room name (after
    trim) fails with ["room required"]; otherwise the room is created when
    it does not exist, the connection becomes a member, and the last 100
    messages of the room's buffer go to the requester only (the
    [room_messages] event and the acknowledgement).  [server.js]
    [joinRoom]: an empty name fails with ['room required']; while the
    lookup works (the Room model is loaded and the database answers) a
    room that is not in the Room collection fails with ['room_not_found']
    and nothing changes (no room is created); for a room that exists, and
    for any room when the lookup fails, the connection becomes a member
    and the 50 newest messages go to the requester only, none when the
    database is down. *)
Theorem joinRoom_joins_and_sends_history :
  (∀ ctx s a p w,
     payload a = Some p →
     let r := trim (p_room p ||: "") in
     let run := InMem.on_join_room ctx s a w [] in
     (r = "" →
        run = (w, if ack a then [AckCall (InMem.Fail "room required")] else [], Done tt)) ∧
     (r ≠ "" →
        let w' := InMem.world_after run in
        ∃ info,
          JsMap.get (InMem.ROOMS w') r = Some info ∧
          (JsMap.has (InMem.ROOMS w) r = false → info = InMem.new_room s ctx r) ∧
          (JsMap.has (InMem.ROOMS w) r = true → InMem.ROOMS w' = InMem.ROOMS w) ∧
          InMem.socket_id s ∈ sockets_in (InMem.adapter w') r ∧
          let window := InMem.deref w' (slice_last 100 (InMem.messages info)) in
          (length window ≤ 100)%nat ∧
          InMem.effects_of run =
            (if JsMap.has (InMem.ROOMS w) r then []
             else [Emit IoEmit "rooms" (InMem.BRooms (InMem.listRooms w'))])
            ++ [Emit (SocketEmit (InMem.socket_id s)) "room_messages" (InMem.BRoomMessages r window);
                Emit (IoTo r) "room_users" (InMem.BRoomUsers r (InMem.room_users w' r))]
            ++ (if ack a then [AckCall (InMem.OkRoomMessages r window)] else []))) ∧
  (∀ cfg ctx s a p w,
     payload a = Some p →
     let run := Server.on_joinRoom cfg ctx s a w [] in
     (falsy (p_room p) = true →
        run = (w, if ack a then [AckCall (Server.Fail (Some "room required"))] else [], Done tt)) ∧
     (∀ r, p_room p = Some r → r ≠ "" →
        let found := list_find (λ d, Server.room_name d = r) (Server.Rooms w) in
        let lookup_works := Server.room_model cfg = true ∧ Server.db_up ctx = true in
        (lookup_works → found = None →
           run = (w, if ack a then [AckCall (Server.Fail (Some "room_not_found"))] else [], Done tt)) ∧
        (is_Some found ∨ ¬ lookup_works →
           let w' := Server.world_after run in
           let window :=
             if Server.db_up ctx
             then reverse (Server.find_newest (Server.in_room r) 50 (Server.Messages w))
             else [] in
           Server.Rooms w' = Server.Rooms w ∧
           Server.socket_id s ∈ sockets_in (Server.adapter w') r ∧
           (length window ≤ 50)%nat ∧
           Server.effects_of run =
             [Emit IoEmit "onlineUsers" (Server.BOnlineUsers (Server.onlineUsers w));
              Emit (SocketEmit (Server.socket_id s)) "roomMessages"
                (Server.BRoomMessages r window)]))).
Proof.
  split.
  - intros ctx s a p w Hp r run. split.
    + intros Hr. by apply (on_join_room_empty _ _ _ p).
    + intros Hr w'. destruct (on_join_room_run ctx s a p w Hp Hr) as (info & Hget & Hnew & Hold & Hrun).
      fold r run in Hget, Hnew, Hold, Hrun.
      assert (w' = InMem.joined ctx s r w) as Hw' by (subst w'; by rewrite Hrun).
      exists info. rewrite Hw'. split_and!; try done.
      * intros Hhas. unfold InMem.joined. by rewrite Hhas.
      * unfold InMem.joined. simpl. apply sockets_in_adapter_join. by right.
      * intros window. split; [|by rewrite Hrun].
        etrans; [apply length_deref|apply length_slice_last].
  - intros cfg ctx s a p w Hp run. split.
    + intros Hr. by apply (joinRoom_no_room _ _ _ _ p).
    + intros r Hr Hne found lookup_works. split.
      * intros [Hmodel Hdb] Hfind. by apply (joinRoom_unknown_room _ _ _ _ p _ r).
      * intros Hjoin w' window.
        assert (run = (Server.set_adapter (λ ad, adapter_join ad r (Server.socket_id s)) w,
                       [Emit IoEmit "onlineUsers" (Server.BOnlineUsers (Server.onlineUsers w));
                        Emit (SocketEmit (Server.socket_id s)) "roomMessages"
                          (Server.BRoomMessages r window)],
                       Done tt)) as Hrun.
        { unfold window, lookup_works in *.
          destruct (Server.room_model cfg) eqn:Hmodel, (Server.db_up ctx) eqn:Hdb.
          - destruct Hjoin as [[[i d] Hfind]|Hno]; [|by destruct Hno].
            by apply (joinRoom_known_room _ _ _ _ p _ r i d).
          - unfold run. rewrite (joinRoom_lookup_fails cfg ctx s a p w r) by auto. by rewrite Hdb.
          - unfold run. rewrite (joinRoom_lookup_fails cfg ctx s a p w r) by auto. by rewrite Hdb.
          - unfold run. rewrite (joinRoom_lookup_fails cfg ctx s a p w r) by auto. by rewrite Hdb. }
        subst w'. rewrite Hrun. split_and!; try done.
        -- simpl. apply sockets_in_adapter_join. by right.
        -- unfold window. destruct (Server.db_up ctx); [|simpl; lia].
           rewrite length_reverse. apply (length_find_newest (Server.in_room r) 50).
Qed.

(** The amended C4 at the session: Alice joins [lobby], which does not
    exist, on the in-memory server. *)
Lemma joinRoom_joins_and_sends_history_witness :
  let run := InMem.on_join_room (InMemDemo.at_time (InMemDemo.t0 + 6) "a00006") InMemDemo.alice
               (sent (fields [(F_room, "lobby")]) true) InMemDemo.said [] in
  JsMap.has (InMem.ROOMS InMemDemo.said) "lobby" = false ∧
  ∃ info,
    JsMap.get (InMem.ROOMS (InMem.world_after run)) "lobby" = Some info ∧
    "sock-A" ∈ sockets_in (InMem.adapter (InMem.world_after run)) "lobby" ∧
    acks (InMem.effects_of run) = [InMem.OkRoomMessages "lobby" []].
Proof.
  intros run. split; [reflexivity|].
  destruct (proj2 (proj1 joinRoom_joins_and_sends_history
                     (InMemDemo.at_time (InMemDemo.t0 + 6) "a00006") InMemDemo.alice
                     (sent (fields [(F_room, "lobby")]) true) (fields [(F_room, "lobby")])
                     InMemDemo.said eq_refl))
    as (info & Hget & Hnew & _ & Hin & _ & Heff).
  { vm_compute. congruence. }
  exists info. split; [exact Hget|]. split; [exact Hin|].
  rewrite (Hnew eq_refl) in Heff. fold run in Heff. rewrite Heff. reflexivity.
Defined.

(** C4 as stated fails on [server.js]: [joinRoom] for a room that is not
    in the Room collection is refused; no room is created and nobody
    joins. *)
Lemma joinRoom_refuses_an_unknown_room :
  let run := Server.on_joinRoom ServerDemo.cfg (ServerDemo.at_time 1008 "x8") ServerDemo.bob
               (sent (fields [(F_room, "lobby")]) true) ServerDemo.said [] in
  Server.effects_of run = [AckCall (Server.Fail (Some "room_not_found"))] ∧
  Server.world_after run = ServerDemo.said ∧
  Server.room_name <$> Server.Rooms (Server.world_after run) = ["testroom"] ∧
  sockets_in (Server.adapter (Server.world_after run)) "lobby" = [].
Proof. vm_compute. done. Qed.

End joining.

(** ** Registering a connection *)

Section registering.

Lemma register_registers uid uname sid w :
  let w' := InMem.register uid uname sid w in
  InMem.adapter w' = InMem.adapter w ∧
  JsMap.get (InMem.ONLINE w') sid = Some (uid, uname) ∧
  ∃ info, JsMap.get (InMem.USERS_BY_ID w') uid = Some info ∧
          InMem.info_userName info = uname ∧ sid ∈ InMem.sockets info.
Proof.
  intros w'. subst w'. unfold InMem.register. simpl. split_and!; [done|..].
  - by rewrite JsMap_get_set, decide_True.
  - destruct (JsMap.get (InMem.USERS_BY_ID w) uid) as [existing|];
      rewrite JsMap_get_set, decide_True by done;
      (eexists; split_and!; [done..|]); simpl; apply elem_of_JsSet_add; by right.
Qed.

Lemma srv_on_join_run ctx s a p w name :
  payload a = Some p → Server.clerk_username s ||? p_username p ||? None = Some name →
  let w' := Server.set_adapter (λ ad, adapter_join ad "global" (Server.socket_id s))
              (Server.set_onlineUsers (λ m, JsMap.set m (Server.socket_id s) name) w) in
  ∃ rest,
    Server.on_join ctx s a w [] =
      (w', Emit IoEmit "onlineUsers" (Server.BOnlineUsers (Server.onlineUsers w')) :: rest, Done tt) ∧
    acks rest = [].
Proof.
  intros Hp Hname w'.
  unfold Server.on_join, Server.socket_join, Server.emit_online, Server.send_history,
    Server.Message_find_newest.
  rewrite Hp. hsimpl. rewrite Hname. hsimpl.
  destruct (Server.db_up ctx); hsimpl; (eexists; split; [reflexivity|done]).
Qed.

(** C5, as amended.  In-memory [join]: the identity is registered (under
    the handshake's user id) with the trimmed name, the users snapshot is
    broadcast, and no room membership changes.  [server.js] [join] with a
    non-empty username: the name is registered, the online users are
    broadcast, and the connection is put into the room ['global']; no other
    membership changes. *)
Theorem join_registers_and_broadcasts :
  (∀ s a p w,
     payload a = Some p →
     let uname := trim (p_username p ||? Some (InMem.userName s) ||: "Anonymous") in
     let uid := InMem.auth_userId s ||? Some (InMem.userId s) ||: InMem.anon s in
     let run := InMem.on_join s a w [] in
     let w' := InMem.world_after run in
     InMem.adapter w' = InMem.adapter w ∧
     JsMap.get (InMem.ONLINE w') (InMem.socket_id s) = Some (uid, uname) ∧
     (∃ info, JsMap.get (InMem.USERS_BY_ID w') uid = Some info ∧
              InMem.info_userName info = uname ∧ InMem.socket_id s ∈ InMem.sockets info) ∧
     Emit IoEmit "users" (InMem.BUsers (InMem.user_summaries w')) ∈ InMem.effects_of run ∧
     acks (InMem.effects_of run) = if ack a then [InMem.OkJoin uid uname] else []) ∧
  (∀ ctx s a p w u,
     payload a = Some p → p_username p = Some u → trim u ≠ "" →
     let name := Server.clerk_username s ||: u in
     let run := Server.on_join ctx s a w [] in
     let w' := Server.world_after run in
     JsMap.get (Server.onlineUsers w') (Server.socket_id s) = Some name ∧
     Emit IoEmit "onlineUsers" (Server.BOnlineUsers (Server.onlineUsers w')) ∈ Server.effects_of run ∧
     Server.socket_id s ∈ sockets_in (Server.adapter w') "global" ∧
     (∀ r sid, sid ∈ sockets_in (Server.adapter w') r ↔
               sid ∈ sockets_in (Server.adapter w) r ∨ (r = "global" ∧ sid = Server.socket_id s)) ∧
     acks (Server.effects_of run) = []).
Proof.
  split.
  - intros s a p w Hp uname uid run w'. subst w' run. rewrite (on_join_run s a p w Hp).
    fold uname uid. unfold InMem.world_after, InMem.effects_of. simpl.
    destruct (register_registers uid uname (InMem.socket_id s) w) as (Ha & Ho & Hu).
    split_and!; [done..| |].
    + apply list_elem_of_here.
    + by destruct (ack a).
  - intros ctx s a p w u Hp Hu Htrim name run w'.
    apply trim_nonempty in Htrim.
    assert (Server.clerk_username s ||? p_username p ||? None = Some name) as Hname.
    { rewrite Hu. unfold name. destruct (Server.clerk_username s) as [c|]; simpl.
      - destruct (truthy c) eqn:Hc; simpl; [by rewrite Hc|].
        unfold truthy. by rewrite bool_decide_true.
      - unfold truthy. by rewrite bool_decide_true. }
    destruct (srv_on_join_run ctx s a p w name Hp Hname) as (rest & Hrun & Hacks).
    subst w'. fold run in Hrun. rewrite Hrun.
    unfold Server.world_after, Server.effects_of. simpl. split_and!.
    + by rewrite JsMap_get_set, decide_True.
    + apply list_elem_of_here.
    + apply sockets_in_adapter_join. by right.
    + intros r sid. apply sockets_in_adapter_join.
    + done.
Qed.

(** The amended C5 at Alice's [join] on [server.js]. *)
Lemma join_registers_and_broadcasts_witness :
  let c := ServerDemo.at_time 1002 "x2" in
  let w := Server.step ServerDemo.cfg Server.init
             (ServerDemo.req Server.connection ServerDemo.alice no_fields false
                (ServerDemo.at_time 1000 "x0")) in
  let run := Server.on_join c ServerDemo.alice (sent (fields [(F_username, "Alice")]) false) w [] in
  JsMap.get (Server.onlineUsers (Server.world_after run)) "sock-A" = Some "Alice" ∧
  Emit IoEmit "onlineUsers" (Server.BOnlineUsers (Server.onlineUsers (Server.world_after run)))
    ∈ Server.effects_of run ∧
  "sock-A" ∈ sockets_in (Server.adapter (Server.world_after run)) "global".
Proof.
  intros c w run.
  destruct (proj2 join_registers_and_broadcasts c ServerDemo.alice
              (sent (fields [(F_username, "Alice")]) false) (fields [(F_username, "Alice")])
              w "Alice" eq_refl eq_refl) as (H1 & H2 & H3 & _).
  { vm_compute. congruence. }
  split; [exact H1|]. split; [exact H2|exact H3].
Defined.

(** C5 as stated fails on [server.js]: Alice's [join] puts her connection
    into the room ['global']. *)
Lemma join_enters_the_global_room :
  let w := Server.step ServerDemo.cfg Server.init
             (ServerDemo.req Server.connection ServerDemo.alice no_fields false
                (ServerDemo.at_time 1000 "x0")) in
  let w' := Server.step ServerDemo.cfg w
              (ServerDemo.req Server.join ServerDemo.alice (fields [(F_username, "Alice")]) false
                 (ServerDemo.at_time 1002 "x2")) in
  rooms_of (Server.adapter w) "sock-A" = [] ∧
  rooms_of (Server.adapter w') "sock-A" = ["global"].
Proof. vm_compute. done. Qed.

End registering.

(** ** Read receipts *)

Section read_receipts.







End read_receipts.

(** ** The room buffers and the archive *)

Section appending.
Import InMem.

Lemma buffers_bounded_get w r info :
  buffers_bounded w → JsMap.get (ROOMS w) r = Some info → (length (messages info) ≤ ROOM_CAP)%nat.
Proof. intros Hw Hget. apply (JsMap_get_Forall _ _ _ _ Hw Hget). Qed.

(** C9: after every append of a text or file message, whatever requests
    the server handled before, every room's buffer holds at most 2000
    messages; the appended message went to the end of its room's buffer,
    and the oldest one was dropped when the buffer was full; the global
    archive gained the message and no later request removes anything from
    it. *)
Theorem append_keeps_buffers_capped now0 reqs ctx s p k :
  let w := run reqs (init now0) in
  ∀ msg run_,
    (msg = new_message ctx s p ∧ run_ = on_message ctx s (sent p k) w []) ∨
    (msg = new_file_message ctx s p ∧ run_ = on_file_message ctx s (sent p k) w []) →
    let w' := world_after run_ in
    (∀ r info, JsMap.get (ROOMS w') r = Some info → (length (messages info) ≤ 2000)%nat) ∧
    (∀ info, JsMap.get (ROOMS w) (room msg) = Some info →
       ∃ info', JsMap.get (ROOMS w') (room msg) = Some info' ∧
         messages info' =
           if decide (length (messages info) = 2000%nat)
           then tail (messages info) ++ [length (heap w)]
           else messages info ++ [length (heap w)]) ∧
    MESSAGES w' = MESSAGES w ++ [length (heap w)] ∧
    heap w' !! length (heap w) = Some msg ∧
    (∀ more, archive_extends w' (InMem.run more w')).
Proof.
  intros w msg run_ Hrun w'.
  assert (buffers_bounded w) as Hw.
  { apply keeps_run; [apply buffers_bounded_handle|apply buffers_bounded_init]. }
  assert (w' = world_after (store msg w [])) as Hw'.
  { subst w'. destruct Hrun as [[-> ->]|[-> ->]].
    - by rewrite (on_message_run _ _ _ p).
    - by rewrite (on_file_message_run _ _ _ p). }
  destruct (store_spec msg w Hw) as (Hheap & Hmsgs & Hb & Hroom & _).
  rewrite <-Hw' in Hheap, Hmsgs, Hb, Hroom.
  split_and!.
  - intros r info Hget. by apply (buffers_bounded_get w' r).
  - done.
  - done.
  - rewrite Hheap, lookup_app_r by lia. by rewrite Nat.sub_diag.
  - intros more. apply keeps_run; [apply archive_extends_handle|]. by split.
Qed.

(** C9 at the session: Bob answers Alice. *)
Lemma append_keeps_buffers_capped_witness :
  let w := InMemDemo.said in
  let c := InMemDemo.at_time (InMemDemo.t0 + 6) "b7b7b7" in
  let w' := InMem.world_after (InMem.on_message c InMemDemo.bob (sent InMemDemo.hello true) w []) in
  (∀ r info, JsMap.get (InMem.ROOMS w') r = Some info → (length (InMem.messages info) ≤ 2000)%nat) ∧
  InMem.MESSAGES w' = InMem.MESSAGES w ++ [length (InMem.heap w)] ∧
  InMem.heap w' !! length (InMem.heap w) = Some (InMem.new_message c InMemDemo.bob InMemDemo.hello).
Proof.
  intros w c w'.
  destruct (append_keeps_buffers_capped InMemDemo.t0 InMemDemo.session c InMemDemo.bob
              InMemDemo.hello true (InMem.new_message c InMemDemo.bob InMemDemo.hello)
              (InMem.on_message c InMemDemo.bob (sent InMemDemo.hello true) w [])
              (or_introl (conj eq_refl eq_refl)))
    as (H1 & _ & H3 & H4 & _).
  split; [exact H1|]. split; [exact H3|exact H4].
Defined.
End appending.

(** ** Acknowledgements *)

Section acknowledgements.

(** A request sent with the callback as its only argument: the handler
    takes the callback for the payload, no [ack] parameter is bound, and
    the callback is never called, on either server. *)
Lemma callback_without_payload_is_never_called :
  (∀ ev ctx s w,
     let r := InMem.on_event ev ctx s EmittedCallback w [] in
     InMem.outcome_of r = Done tt ∧ acks (InMem.effects_of r) = []) ∧
  (∀ cfg ev s c w,
     acks (Server.effects_of
             (Server.handle cfg {| Server.event := ev; Server.socket := s;
                                   Server.args := EmittedCallback; Server.ctx := c |} w [])) = []).
Proof.
  split.
  - intros ev ctx s w r.
    pose proof (acking_run _ _ _ w (inmem_callback_only ev ctx s)) as Hr. fold r in Hr.
    destruct r as [[w' l] [[]|]]; [|by apply elem_of_nil in Hr].
    apply list_elem_of_singleton in Hr. split; [done|]. unfold InMem.effects_of. simpl.
    by destruct (acks l).
  - intros cfg ev s c w.
    pose proof (acking_run _ _ _ w (server_callback_only cfg ev s c)) as Hr.
    unfold Server.effects_of.
    destruct (Server.handle cfg _ w []) as [[w' l] [|]]; simpl;
      apply list_elem_of_singleton in Hr; by destruct (acks l).
Qed.



End acknowledgements.

(** ** Rooms of [server.js]: creating and clearing *)

Section server_rooms.
Import Server.

(** The names of the Room collection. *)
Lemma list_find_name_None r (rooms : list RoomDoc) :
  list_find (λ d, room_name d = r) rooms = None ↔ r ∉ room_name <$> rooms.
Proof.
  rewrite list_find_None, Forall_forall, list_elem_of_fmap. split.
  - intros Hno (d & -> & Hd). by apply (Hno d).
  - intros Hno d Hd Heq. apply Hno. by exists d.
Qed.

Lemma createRoom_run cfg ctx s a p w n :
  payload a = Some p → p_name p = Some n → n ≠ "" →
  room_model cfg = true → db_up ctx = true →
  let r := {| room_id := oid ctx; room_name := n;
              createdBy := clerk_id s ||: socket_id s; createdAt := now ctx |} in
  on_createRoom cfg ctx s a w [] =
    if bool_decide (n ∈ room_name <$> Rooms w) then
      (w, if ack a then [AckCall (Fail (Some "room exists"))] else [], Done tt)
    else
      (set_Rooms (λ rs, rs ++ [r]) w,
       (if ack a then [AckCall (OkRoom (oid ctx) n)] else []) ++
       [Emit IoEmit "roomsList" (BRoomsList (roomsPayload (Rooms w ++ [r])));
        Emit IoEmit "rooms" (BRooms (prod_swap <$> roomsPayload (Rooms w ++ [r])))],
       Done tt).
Proof.
  intros Hp Hn Hne Hmodel Hdb r.
  unfold on_createRoom, require_Room, Room_findOne, Room_save, broadcast_rooms, Room_find.
  rewrite Hp. hsimpl. rewrite Hn, falsy_Some_ne, Hmodel by done. hsimpl. rewrite Hdb. hsimpl.
  destruct (list_find _ (Rooms w)) as [[i d]|] eqn:Hfind; hsimpl.
  - rewrite bool_decide_true; [by destruct (ack a)|].
    apply list_find_Some in Hfind as (Hi & Hd & _). apply list_elem_of_fmap.
    exists d. split; [done|]. by eapply list_elem_of_lookup_2.
  - rewrite bool_decide_false by (by apply list_find_name_None).
    by destruct (ack a).
Qed.


Lemma keeps_apply {W E A} (I : W → Prop) (h : Handler W E A) (Φ : A → Prop) w l :
  keeps I h Φ → I w →
  match h w l with
  | (w', _, Done a) => I w' ∧ Φ a
  | (w', _, Thrown) => I w'
  end.
Proof. intros Hh Hw. by apply Hh. Qed.

(** A database call, then what follows it from the state it left. *)
Lemma keeps_db_bind {A B} (I : World → Prop) ctx (f : World → World * A) (k : A → H B)
    (Φ : B → Prop) :
  (∀ w l, I w → db_up ctx = true →
     match k (f w).2 (f w).1 l with
     | (w', _, Done b) => I w' ∧ Φ b
     | (w', _, Thrown) => I w'
     end) →
  keeps I (db_op ctx f ≫= k) Φ.
Proof.
  intros Hk w l Hw. unfold mbind, handler_bind, db_op.
  destruct (db_up ctx) eqn:Hdb; [|done].
  specialize (Hk w l Hw eq_refl). by destruct (f w).
Qed.

Lemma db_bind_run {A B} ctx (f : World → World * A) (k : A → H B) w l :
  db_up ctx = true → (db_op ctx f ≫= k) w l = k (f w).2 (f w).1 l.
Proof. intros Hdb. unfold mbind, handler_bind, db_op. rewrite Hdb. by destruct (f w). Qed.

Local Ltac rooms_step :=
  first
    [ keeps_step
    | apply keeps_modify; intros ? ?; assumption
    | apply (keeps_db_op _ _ _ (λ _, True)); intros ? ?; split; [simpl; assumption|exact Logic.I] ].

Local Ltac rooms_solve :=
  unfold emit_online, send_history, broadcast_rooms, socket_join, socket_leave, io_to,
    emit, reply, require_Room, Room_find, Room_findOne, Message_find_newest,
    Message_findById, Message_save, Message_findByIdAndDelete, Message_deleteMany;
  repeat rooms_step.

Lemma names_unique_createRoom cfg ctx s a :
  keeps names_unique (on_createRoom cfg ctx s a) (λ _, True).
Proof.
  unfold on_createRoom. apply keeps_destructure. intros p Hp.
  apply keeps_try_catch; [|rooms_solve].
  case_match; [rooms_solve|].
  eapply keeps_bind; [rooms_solve|]. intros _ _.
  unfold Room_findOne. apply keeps_db_bind. intros w l Hw Hdb. simpl.
  destruct (list_find _ (Rooms w)) as [[i d]|] eqn:Hfind; simpl.
  - apply keeps_apply; [rooms_solve|done].
  - unfold Room_save. rewrite db_bind_run by done. simpl.
    apply keeps_apply; [rooms_solve|].
    unfold names_unique, set_Rooms. cbn [Rooms]. rewrite fmap_app.
    apply NoDup_app. split_and!; [done| |].
    + intros x Hx Hin. apply list_elem_of_singleton in Hin as ->.
      by apply list_find_name_None in Hfind.
    + apply NoDup_singleton.
Qed.

Lemma names_unique_findOneAndDelete ctx r :
  keeps names_unique (Room_findOneAndDelete ctx r) (λ _, True).
Proof.
  apply keeps_db_op. intros w Hw. split; [|done]. simpl.
  destruct (list_find _ (Rooms w)) as [[i d]|]; [|done].
  unfold names_unique, set_Rooms. cbn [Rooms]. rewrite list_fmap_delete.
  eapply sublist_NoDup; [done|apply sublist_delete].
Qed.

Lemma names_unique_deleteRoom cfg ctx s a :
  keeps names_unique (on_deleteRoom cfg ctx s a) (λ _, True).
Proof.
  unfold on_deleteRoom, broadcast_rooms, emit, reply, require_Room, Room_find, Message_deleteMany.
  repeat first [ apply names_unique_findOneAndDelete | rooms_step ].
Qed.

Lemma names_unique_handle cfg r : keeps names_unique (handle cfg r) (λ _, True).
Proof.
  destruct r as [ev s a c]. unfold handle. simpl.
  destruct ev;
    try apply names_unique_createRoom; try apply names_unique_deleteRoom;
    unfold on_connection, on_disconnect, on_rooms_request, on_join, on_message, on_typing,
      on_mark_read, on_file_message, on_privateMessage, on_reaction, on_joinRoom,
      on_leaveRoom, on_clearRoom, on_deleteMessage;
    rooms_solve.
Qed.

Lemma srv_keeps_run (I : World → Prop) cfg reqs w :
  (∀ r, keeps I (handle cfg r) (λ _, True)) → I w → I (run cfg reqs w).
Proof.
  intros Hh. revert w. induction reqs as [|r reqs IH]; intros w Hw; [done|]. simpl.
  apply IH. unfold step, world_after. specialize (Hh r w [] Hw).
  destruct (handle cfg r w []) as [[w' l'] [[]|]]; simpl; tauto.
Qed.

(** X1: [createRoom] refuses a taken name.  With the Room model loaded and
    the database up, a request that names an existing room changes nothing
    and is answered [{ok: false, error: "room exists"}]; a new name appends
    one Room document, created by the Clerk id of the socket or else its
    socket id, tells every client the new list and acknowledges with the
    room; from then on every [createRoom] of this name is refused. *)
Theorem createRoom_refuses_a_taken_name cfg ctx s a p w n :
  payload a = Some p → p_name p = Some n → n ≠ "" →
  room_model cfg = true → db_up ctx = true →
  let run := on_createRoom cfg ctx s a w [] in
  (n ∈ room_name <$> Rooms w →
     run = (w, if ack a then [AckCall (Fail (Some "room exists"))] else [], Done tt)) ∧
  (n ∉ room_name <$> Rooms w →
     let w' := world_after run in
     Rooms w' = Rooms w ++ [{| room_id := oid ctx; room_name := n;
                               createdBy := clerk_id s ||: socket_id s; createdAt := now ctx |}] ∧
     Messages w' = Messages w ∧
     acks (effects_of run) = (if ack a then [OkRoom (oid ctx) n] else []) ∧
     Emit IoEmit "roomsList" (BRoomsList (roomsPayload (Rooms w'))) ∈ effects_of run ∧
     ∀ ctx' s' a' p',
       payload a' = Some p' → p_name p' = Some n → db_up ctx' = true →
       on_createRoom cfg ctx' s' a' w' [] =
         (w', if ack a' then [AckCall (Fail (Some "room exists"))] else [], Done tt)).
Proof.
  intros Hp Hn Hne Hmodel Hdb run. subst run.
  rewrite (createRoom_run cfg ctx s a p w n) by done. split.
  - intros Hin. by rewrite bool_decide_true.
  - intros Hnot w'. subst w'. rewrite bool_decide_false by done.
    unfold world_after, effects_of. cbn [fst snd set_Rooms Rooms Messages].
    split_and!; [done|done| | |].
    + rewrite acks_app. by destruct (ack a).
    + apply elem_of_app. right. apply list_elem_of_here.
    + intros ctx' s' a' p' Hp' Hn' Hdb'.
      rewrite (createRoom_run cfg ctx' s' a' p' _ n) by done.
      rewrite bool_decide_true; [done|]. unfold set_Rooms. cbn [Rooms]. rewrite fmap_app.
      apply elem_of_app. right. apply list_elem_of_here.
Qed.

(** X2: whatever requests the server has handled, one after the other, no
    two documents of the Room collection have the same name. *)
Theorem room_names_stay_unique cfg reqs : names_unique (run cfg reqs init).
Proof.
  apply srv_keeps_run; [apply names_unique_handle|]. unfold names_unique. simpl. constructor.
Qed.

Lemma filter_none {A} (P : A → Prop) `{∀ x, Decision (P x)} (l : list A) :
  (∀ x, x ∈ l → ¬ P x) → filter P l = [].
Proof.
  intros Hno. apply elem_of_nil_inv. intros x [HP Hx]%list_elem_of_filter. by apply (Hno x).
Qed.

Lemma clearRoom_run ctx s a p w r :
  payload a = Some p → p_room p = Some r → r ≠ "" → db_up ctx = true →
  on_clearRoom ctx s a w [] =
    (set_Messages (filter (λ kv, ¬ in_room r kv.2)) w,
     Emit (IoTo r) "roomCleared" (BRoom r)
       :: (if ack a then [AckCall (OkDeleted (size (filter (λ kv, in_room r kv.2) (Messages w))))]
           else []),
     Done tt).
Proof.
  intros Hp Hr Hne Hdb. unfold on_clearRoom, Message_deleteMany.
  rewrite Hp. hsimpl. rewrite Hr, falsy_Some_ne, Hdb by done. hsimpl. by destruct (ack a).
Qed.

(** X3: with the database up, [clearRoom] deletes the messages of the room and nothing else:
    the other messages and the rooms stay; it tells the room
    [roomCleared], acknowledges with the number of messages deleted, and a
    page of the room asked for afterwards is empty.  Who asks is not
    checked. *)
Theorem clearRoom_empties_the_room ctx s a p w r :
  payload a = Some p → p_room p = Some r → r ≠ "" → db_up ctx = true →
  let run := on_clearRoom ctx s a w [] in
  let w' := world_after run in
  let n := size (filter (λ kv, in_room r kv.2) (Messages w)) in
  (∀ id m, Messages w' !! id = Some m ↔ Messages w !! id = Some m ∧ room m ≠ Some r) ∧
  Rooms w' = Rooms w ∧
  (n + size (Messages w') = size (Messages w))%nat ∧
  effects_of run =
    Emit (IoTo r) "roomCleared" (BRoom r) :: (if ack a then [AckCall (OkDeleted n)] else []) ∧
  (∀ ctx' before_q limit_q,
     db_up ctx' = true → paginate ctx' w' (Some r) before_q limit_q = Json []).
Proof.
  intros Hp Hr Hne Hdb run w' n. subst run w'.
  rewrite (clearRoom_run ctx s a p w r) by done.
  unfold world_after, effects_of. cbn [fst snd set_Messages Messages Rooms].
  split_and!; [|done| |done|].
  - intros id m. rewrite map_lookup_filter_Some. simpl. unfold in_room. tauto.
  - unfold n.
    rewrite <-(map_filter_union_complement (λ kv : string * Message, in_room r kv.2) (Messages w)) at 3.
    rewrite map_size_disj_union by apply map_disjoint_filter_complement.
    by f_equal.
  - intros ctx' before_q limit_q Hdb'.
    unfold paginate, Message_find_newest, db_op. rewrite Hdb'. simpl. unfold find_newest.
    rewrite filter_none; [cbn; by rewrite take_nil|].
    intros m Hm [Hroom _]. apply list_elem_of_fmap in Hm as ([id m'] & -> & Hm).
    apply elem_of_map_to_list in Hm. apply map_lookup_filter_Some in Hm as [_ Hnot].
    unfold truthy in Hroom. rewrite bool_decide_true in Hroom by done. exact (Hnot Hroom).
Qed.

Lemma clearRoom_empties_the_room_witness :
  let run := on_clearRoom (ServerDemo.at_time 1010 "x10") ServerDemo.bob
               (sent (fields [(F_room, "testroom")]) true) ServerDemo.said [] in
  Messages (world_after run) = ∅ ∧
  effects_of run = [Emit (IoTo "testroom") "roomCleared" (BRoom "testroom"); AckCall (OkDeleted 1)].
Proof.
  intros run.
  destruct (clearRoom_empties_the_room (ServerDemo.at_time 1010 "x10") ServerDemo.bob
              (sent (fields [(F_room, "testroom")]) true) (fields [(F_room, "testroom")])
              ServerDemo.said "testroom") as (_ & _ & _ & Heff & _);
    [reflexivity|reflexivity|vm_compute; congruence|reflexivity|].
  split; [vm_compute; reflexivity|]. fold run in Heff. rewrite Heff. vm_compute. reflexivity.
Defined.

Lemma createRoom_refuses_a_taken_name_witness :
  on_createRoom ServerDemo.cfg (ServerDemo.at_time 1010 "room2") ServerDemo.bob
    (sent (fields [(F_name, "testroom")]) true) ServerDemo.said [] =
  (ServerDemo.said, [AckCall (Fail (Some "room exists"))], Done tt).
Proof.
  apply (createRoom_refuses_a_taken_name ServerDemo.cfg (ServerDemo.at_time 1010 "room2")
           ServerDemo.bob (sent (fields [(F_name, "testroom")]) true)
           (fields [(F_name, "testroom")]) ServerDemo.said "testroom");
    first [reflexivity | vm_compute; congruence | vm_compute; repeat constructor].
Defined.

End server_rooms.

(** ** Maps without duplicate keys; leaving and disconnecting ([server.js]) *)

Section jsmap_wf.
Context {V : Type}.
Implicit Types (m : JsMap.t V) (k : string) (v : V).

Lemma JsMap_get_None m k : JsMap.get m k = None ↔ k ∉ m.*1.
Proof.
  induction m as [|[k' v'] m IH]; simpl.
  - split; [intros _; apply not_elem_of_nil|done].
  - rewrite not_elem_of_cons. destruct (decide (k' = k)) as [->|Hne]; [(intuition congruence)|].
    rewrite IH. (intuition congruence).
Qed.

Lemma JsMap_get_Some_elem m k v : JsMap.get m k = Some v → (k, v) ∈ m.
Proof.
  induction m as [|[k' v'] m IH]; simpl; [done|].
  destruct (decide (k' = k)) as [->|Hne].
  - intros [= ->]. apply list_elem_of_here.
  - intros Hget. apply list_elem_of_further. auto.
Qed.

Lemma JsMap_elem_get m k v : JsMap.wf m → (k, v) ∈ m → JsMap.get m k = Some v.
Proof.
  unfold JsMap.wf. induction m as [|[k' v'] m IH]; simpl; [by intros _ ?%elem_of_nil|].
  intros [Hk' Hm]%NoDup_cons [Heq|Hin]%elem_of_cons.
  - simplify_eq. by rewrite decide_True.
  - destruct (decide (k' = k)) as [->|Hne]; [|auto].
    exfalso. apply Hk'. apply list_elem_of_fmap. by exists (k, v).
Qed.

Lemma JsMap_keys_set m k v :
  ∀ x, x ∈ (JsMap.set m k v).*1 ↔ x ∈ m.*1 ∨ x = k.
Proof.
  intros x. induction m as [|[k' v'] m IH]; csimpl.
  - rewrite list_elem_of_singleton. split; [auto|]. intros [[]%elem_of_nil|]; done.
  - destruct (decide (k' = k)) as [->|Hne]; csimpl; rewrite !elem_of_cons; [(intuition congruence)|].
    rewrite IH. (intuition congruence).
Qed.

Lemma JsMap_wf_set m k v : JsMap.wf m → JsMap.wf (JsMap.set m k v).
Proof.
  unfold JsMap.wf. induction m as [|[k' v'] m IH]; csimpl.
  - intros _. apply NoDup_singleton.
  - intros [Hk' Hm]%NoDup_cons. destruct (decide (k' = k)) as [->|Hne]; csimpl.
    + by apply NoDup_cons.
    + apply NoDup_cons. split; [|auto]. rewrite JsMap_keys_set. (intuition congruence).
Qed.

Lemma JsMap_delete_sublist m k : JsMap.delete m k `sublist_of` m.
Proof.
  induction m as [|[k' v'] m IH]; simpl; [done|].
  destruct (decide (k' = k)); [by apply sublist_cons|by apply sublist_skip].
Qed.

Lemma JsMap_wf_delete m k : JsMap.wf m → JsMap.wf (JsMap.delete m k).
Proof.
  unfold JsMap.wf. intros Hm. eapply sublist_NoDup; [done|].
  apply fmap_sublist, JsMap_delete_sublist.
Qed.

Lemma JsMap_get_delete m k k' :
  JsMap.wf m → JsMap.get (JsMap.delete m k) k' = if decide (k = k') then None else JsMap.get m k'.
Proof.
  unfold JsMap.wf. induction m as [|[k0 v0] m IH]; simpl.
  - intros _. by case_decide.
  - intros [Hk0 Hm]%NoDup_cons. destruct (decide (k0 = k)) as [->|Hne].
    + destruct (decide (k = k')) as [->|Hne']; [by apply JsMap_get_None|done].
    + simpl. rewrite IH by done. destruct (decide (k0 = k')) as [->|?]; [|done].
      by rewrite decide_False.
Qed.
End jsmap_wf.

Section adapter_wf.

Lemma elem_of_JsSet_delete (s : JsSet.t) x y : x ∈ JsSet.delete s y ↔ x ∈ s ∧ x ≠ y.
Proof. unfold JsSet.delete. rewrite list_elem_of_filter. tauto. Qed.

Lemma adapter_join_wf a r sid : JsMap.wf a → JsMap.wf (adapter_join a r sid).
Proof. apply JsMap_wf_set. Qed.

Lemma adapter_leave_wf a r sid : JsMap.wf a → JsMap.wf (adapter_leave a r sid).
Proof.
  intros Ha. unfold adapter_leave. destruct (JsMap.get a r); [|done].
  destruct (JsSet.delete _ _); [by apply JsMap_wf_delete|by apply JsMap_wf_set].
Qed.

Lemma sockets_in_adapter_leave a r sid r' sid' :
  JsMap.wf a →
  sid' ∈ sockets_in (adapter_leave a r sid) r' ↔
  sid' ∈ sockets_in a r' ∧ (r' ≠ r ∨ sid' ≠ sid).
Proof.
  intros Ha. unfold sockets_in, adapter_leave.
  destruct (JsMap.get a r) as [s|] eqn:Hget.
  - destruct (JsSet.delete s sid) as [|x s'] eqn:Hdel.
    + rewrite JsMap_get_delete by done. destruct (decide (r = r')) as [<-|Hne].
      * rewrite Hget. simpl. split; [by intros ?%elem_of_nil|]. intros [Hin [?|Hne]]; [done|].
        assert (sid' ∈ JsSet.delete s sid) as Hd by (by apply elem_of_JsSet_delete).
        rewrite Hdel in Hd. by apply elem_of_nil in Hd.
      * (intuition congruence).
    + rewrite JsMap_get_set. destruct (decide (r = r')) as [<-|Hne].
      * rewrite Hget. simpl. rewrite <-Hdel, elem_of_JsSet_delete. (intuition congruence).
      * (intuition congruence).
  - destruct (decide (r = r')) as [<-|Hne]; [|(intuition congruence)].
    rewrite Hget. simpl. split; [by intros ?%elem_of_nil|by intros [?%elem_of_nil _]].
Qed.

End adapter_wf.

Section server_presence.
Import Server.

Lemma srv_maps_wf_handle cfg r : keeps maps_wf (handle cfg r) (λ _, True).
Proof.
  assert (∀ w f, maps_wf w → (∀ m, JsMap.wf m → JsMap.wf (f m)) → maps_wf (set_onlineUsers f w)) as Hon.
  { intros w f [? ?] Hf. split; simpl; auto. }
  assert (∀ w f, maps_wf w → (∀ m, JsMap.wf m → JsMap.wf (f m)) → maps_wf (set_adapter f w)) as Had.
  { intros w f [? ?] Hf. split; simpl; auto. }
  assert (∀ sid (l : list string) a, JsMap.wf a →
            JsMap.wf (foldr (λ r a, adapter_leave a r sid) a l)) as Hfold.
  { intros sid l a Ha. induction l; simpl; [done|]. by apply adapter_leave_wf. }
  destruct r as [ev s a c]. unfold handle. simpl.
  destruct ev;
    unfold on_connection, on_disconnect, on_rooms_request, on_join, on_message, on_typing,
      on_mark_read, on_file_message, on_privateMessage, on_reaction, on_joinRoom,
      on_leaveRoom, on_createRoom, on_clearRoom, on_deleteRoom, on_deleteMessage,
      emit_online, send_history, broadcast_rooms, socket_join, socket_leave, io_to,
      emit, reply, require_Room, Room_find, Room_findOne, Room_findOneAndDelete, Room_save,
      Message_find_newest, Message_findById, Message_save, Message_findByIdAndDelete,
      Message_deleteMany;
    repeat first
      [ keeps_step
      | apply keeps_modify; intros ? ?;
        first [ apply Hon; [assumption|intros ? ?; first [by apply JsMap_wf_set|by apply JsMap_wf_delete]]
              | apply Had; [assumption|intros ? ?;
                  first [by apply adapter_join_wf|by apply adapter_leave_wf|by apply Hfold]] ]
      | apply (keeps_db_op _ _ _ (λ _, True)); intros ? ?; split; [|exact Logic.I];
        simpl; repeat case_match; assumption ].
Qed.

Lemma srv_maps_wf_run cfg reqs : maps_wf (run cfg reqs init).
Proof.
  revert reqs. assert (∀ reqs w, maps_wf w → maps_wf (run cfg reqs w)) as Hrun.
  { induction reqs as [|r reqs IH]; intros w Hw; [done|]. simpl.
    apply IH. unfold step, world_after. pose proof (srv_maps_wf_handle cfg r w [] Hw) as Hh.
    destruct (handle cfg r w []) as [[w' l'] [[]|]]; simpl; tauto. }
  intros reqs. apply Hrun. split; apply NoDup_nil_2.
Qed.


Lemma leaveRoom_run s a p w r :
  payload a = Some p → p_room p = Some r → r ≠ "" →
  let w' := set_adapter (λ ad, adapter_leave ad r (socket_id s)) w in
  let names := filter (λ n, truthy n)
                 (omap (JsMap.get (onlineUsers w')) (sockets_in (adapter w') r)) in
  on_leaveRoom s a w [] =
    (w',
     (match names with [] => [Emit (IoTo r) "roomUsers" (BRoomUsers r [])] | _ => [] end)
       ++ (if ack a then [AckCall Ok] else []),
     Done tt).
Proof.
  intros Hp Hr Hne w' names. unfold on_leaveRoom, socket_leave.
  rewrite Hp. hsimpl. rewrite Hr, falsy_Some_ne by done. hsimpl.
  fold w'. fold names. destruct names; hsimpl; by destruct (ack a).
Qed.

(** X4: [leaveRoom] takes the socket out of that room of the adapter and
    of no other; the users, the messages and the rooms stay; the callback
    gets [{ok: true}]; and a [roomUsers] event, when one is sent, goes to
    the room with an empty list of users. *)
Theorem leaveRoom_leaves_the_room cfg reqs s a p r :
  let w := run cfg reqs init in
  payload a = Some p → p_room p = Some r → r ≠ "" →
  let run_ := on_leaveRoom s a w [] in
  let w' := world_after run_ in
  (∀ r' sid, sid ∈ sockets_in (adapter w') r' ↔
             sid ∈ sockets_in (adapter w) r' ∧ (r' ≠ r ∨ sid ≠ socket_id s)) ∧
  onlineUsers w' = onlineUsers w ∧ Messages w' = Messages w ∧ Rooms w' = Rooms w ∧
  acks (effects_of run_) = (if ack a then [Ok] else []) ∧
  (∀ t ev b, Emit t ev b ∈ effects_of run_ →
     t = IoTo r ∧ ev = "roomUsers" ∧ b = BRoomUsers r []).
Proof.
  intros w Hp Hr Hne run_ w'. subst run_ w'.
  rewrite (leaveRoom_run s a p w r) by done.
  unfold world_after, effects_of. cbn [fst snd].
  destruct (srv_maps_wf_run cfg reqs) as [_ Had]. fold w in Had.
  split_and!; [|done..| |].
  - intros r' sid. simpl. by apply sockets_in_adapter_leave.
  - rewrite acks_app. by destruct (filter _ _), (ack a).
  - intros t ev b Hin. apply elem_of_app in Hin as [Hin|Hin].
    + destruct (filter _ _); [|by apply elem_of_nil in Hin].
      apply list_elem_of_singleton in Hin. by simplify_eq.
    + destruct (ack a); [|by apply elem_of_nil in Hin].
      apply list_elem_of_singleton in Hin. done.
Qed.

(** Bob leaves the room of the session. *)
Lemma leaveRoom_leaves_the_room_witness :
  let left_ := on_leaveRoom ServerDemo.bob (sent (fields [(F_room, "testroom")]) true)
                 ServerDemo.said [] in
  ("sock-B" ∉ sockets_in (adapter (world_after left_)) "testroom") ∧
  acks (effects_of left_) = [Ok].
Proof.
  intros left_.
  destruct (leaveRoom_leaves_the_room ServerDemo.cfg ServerDemo.session ServerDemo.bob
              (sent (fields [(F_room, "testroom")]) true) (fields [(F_room, "testroom")])
              "testroom" eq_refl eq_refl)
    as (Hin & _ & _ & _ & Hack & _); [done|].
  split; [|exact Hack].
  intros H. apply Hin in H as [_ [?|?]]; done.
Defined.

Lemma disconnect_run s w :
  let username := JsMap.get (onlineUsers w) (socket_id s) in
  let w' := set_adapter (λ a, foldr (λ r a, adapter_leave a r (socket_id s)) a
                                (rooms_of a (socket_id s)))
              (set_onlineUsers (λ m, JsMap.delete m (socket_id s)) w) in
  on_disconnect s w [] =
    (w',
     [Emit IoEmit "onlineUsers" (BOnlineUsers (onlineUsers w'));
      Emit (SocketBroadcast (socket_id s)) "notification"
        (BNotification {| n_type := "presence";
                          n_message := Some ((username ||: "A user") +:+ " left");
                          n_title := None; n_body := None; n_messageId := None;
                          n_private := None |})],
     Done tt).
Proof. reflexivity. Qed.

Lemma sockets_in_leave_all a sid (l : list string) r' sid' :
  JsMap.wf a →
  sid' ∈ sockets_in (foldr (λ r a, adapter_leave a r sid) a l) r' ↔
  sid' ∈ sockets_in a r' ∧ (r' ∉ l ∨ sid' ≠ sid).
Proof.
  intros Ha. induction l as [|r l IH]; simpl.
  - split; [intros ?; split; [done|left; apply not_elem_of_nil]|by intros [? _]].
  - assert (JsMap.wf (foldr (λ r a, adapter_leave a r sid) a l)) as Hwf.
    { clear IH. induction l; simpl; [done|]. by apply adapter_leave_wf. }
    rewrite sockets_in_adapter_leave by done. rewrite IH, not_elem_of_cons.
    destruct (decide (sid' = sid)); intuition congruence.
Qed.

Lemma elem_of_rooms_of a sid r : JsMap.wf a → r ∈ rooms_of a sid ↔ sid ∈ sockets_in a r.
Proof.
  intros Ha. unfold rooms_of, sockets_in. rewrite list_elem_of_fmap. split.
  - intros ([r0 ss] & -> & [Hin Hel]%list_elem_of_filter). simpl in *.
    by rewrite (JsMap_elem_get _ _ _ Ha Hel).
  - destruct (JsMap.get a r) as [ss|] eqn:Hget; simpl; [|by intros ?%elem_of_nil].
    intros Hin. exists (r, ss). split; [done|]. apply list_elem_of_filter.
    split; [done|]. by apply JsMap_get_Some_elem.
Qed.

(** X5: after [disconnect] the socket has no name in [onlineUsers] and is
    in no room; the other sockets keep their name and their rooms, the
    messages and the rooms stay, and every client is sent the new
    [onlineUsers]. *)
Theorem disconnect_forgets_the_connection cfg reqs s :
  let w := run cfg reqs init in
  let run_ := on_disconnect s w [] in
  let w' := world_after run_ in
  JsMap.get (onlineUsers w') (socket_id s) = None ∧
  (∀ r, socket_id s ∉ sockets_in (adapter w') r) ∧
  (∀ sid, sid ≠ socket_id s →
     JsMap.get (onlineUsers w') sid = JsMap.get (onlineUsers w) sid ∧
     ∀ r, sid ∈ sockets_in (adapter w') r ↔ sid ∈ sockets_in (adapter w) r) ∧
  Messages w' = Messages w ∧ Rooms w' = Rooms w ∧
  Emit IoEmit "onlineUsers" (BOnlineUsers (onlineUsers w')) ∈ effects_of run_ ∧
  acks (effects_of run_) = [].
Proof.
  intros w run_ w'. subst run_ w'. rewrite disconnect_run.
  unfold world_after, effects_of. cbn [fst snd].
  destruct (srv_maps_wf_run cfg reqs) as [Hon Had]. fold w in Hon, Had.
  split_and!; [| | |done|done|apply list_elem_of_here|done].
  - simpl. rewrite JsMap_get_delete by done. by rewrite decide_True.
  - intros r. simpl. rewrite sockets_in_leave_all by done.
    rewrite elem_of_rooms_of by done. tauto.
  - intros sid Hne. split.
    + simpl. rewrite JsMap_get_delete by done. by rewrite decide_False.
    + intros r. simpl. rewrite sockets_in_leave_all by done. tauto.
Qed.

End server_presence.

(** ** Deleting rooms and messages ([server.js]) *)

Section server_deleting.
Import Server.

Lemma deleteRoom_run cfg ctx s a p w r :
  payload a = Some p → p_room p = Some r → r ≠ "" →
  room_model cfg = true → db_up ctx = true →
  let rooms' := match list_find (λ d, room_name d = r) (Rooms w) with
                | Some (i, _) => delete i (Rooms w)
                | None => Rooms w
                end in
  on_deleteRoom cfg ctx s a w [] =
    (set_Messages (filter (λ kv, ¬ in_room r kv.2)) (set_Rooms (λ _, rooms') w),
     [Emit IoEmit "roomDeleted" (BRoom r);
      Emit IoEmit "roomsList" (BRoomsList (roomsPayload rooms'));
      Emit IoEmit "rooms" (BRooms (prod_swap <$> roomsPayload rooms'))]
       ++ (if ack a then [AckCall Ok] else []),
     Done tt).
Proof.
  intros Hp Hr Hne Hmodel Hdb rooms'.
  unfold on_deleteRoom, require_Room, Room_findOneAndDelete, Message_deleteMany, broadcast_rooms,
    Room_find.
  rewrite Hp. hsimpl. rewrite Hr, falsy_Some_ne, Hmodel by done. hsimpl. rewrite Hdb. hsimpl.
  subst rooms'. destruct (list_find _ (Rooms w)) as [[i d]|]; hsimpl; by destruct (ack a).
Qed.

Lemma elem_of_delete_found (rooms : list RoomDoc) r i d0 :
  NoDup (room_name <$> rooms) →
  list_find (λ d, room_name d = r) rooms = Some (i, d0) →
  ∀ d, d ∈ delete i rooms ↔ d ∈ rooms ∧ room_name d ≠ r.
Proof.
  intros Hnd Hfind d. apply list_find_Some in Hfind as (Hi & Hr & _).
  rewrite <-(take_drop_middle rooms i d0 Hi) in Hnd |- * at 2.
  rewrite delete_take_drop.
  rewrite fmap_app, fmap_cons, NoDup_app in Hnd. destruct Hnd as (_ & Hdisj & Htl).
  apply NoDup_cons in Htl as [Hnot _].
  rewrite !elem_of_app, elem_of_cons. split.
  - intros [Hin|Hin].
    + split; [by left|]. intros Heq. apply (Hdisj (room_name d)).
      * apply list_elem_of_fmap. by exists d.
      * rewrite Heq, <-Hr. apply list_elem_of_here.
    + split; [by right; right|]. intros Heq. apply Hnot. rewrite Hr, <-Heq.
      apply list_elem_of_fmap. by exists d.
  - intros [[Hin|[->|Hin]] Hne]; [by left|done|by right].
Qed.

(** X6: with the Room model loaded and the database up, [deleteRoom]
    the Room documents of that name and the messages of that room,
    and nothing else: other rooms, other messages,
    the users and the adapter stay.  Every client is told [roomDeleted]
    and the callback gets [{ok: true}].  Who asks is not checked. *)
Theorem deleteRoom_removes_room_and_messages cfg reqs ctx s a p r :
  let w := run cfg reqs init in
  payload a = Some p → p_room p = Some r → r ≠ "" →
  room_model cfg = true → db_up ctx = true →
  let run_ := on_deleteRoom cfg ctx s a w [] in
  let w' := world_after run_ in
  (∀ d, d ∈ Rooms w' ↔ d ∈ Rooms w ∧ room_name d ≠ r) ∧
  (∀ id m, Messages w' !! id = Some m ↔ Messages w !! id = Some m ∧ room m ≠ Some r) ∧
  onlineUsers w' = onlineUsers w ∧ adapter w' = adapter w ∧
  Emit IoEmit "roomDeleted" (BRoom r) ∈ effects_of run_ ∧
  acks (effects_of run_) = (if ack a then [Ok] else []).
Proof.
  intros w Hp Hr Hne Hmodel Hdb run_ w'. subst run_ w'.
  rewrite (deleteRoom_run cfg ctx s a p w r) by done.
  unfold world_after, effects_of. cbn [fst snd].
  assert (names_unique w) as Hnd.
  { apply srv_keeps_run; [apply names_unique_handle|]. unfold names_unique. simpl. constructor. }
  split_and!; [| |done|done|apply list_elem_of_here|by destruct (ack a)].
  - intros d. cbn [Rooms set_Messages set_Rooms].
    destruct (list_find _ (Rooms w)) as [[i d0]|] eqn:Hfind.
    + by apply (elem_of_delete_found _ r i d0).
    + split; [|by intros [? _]]. intros Hd. split; [done|].
      apply list_find_None in Hfind. by eapply Forall_forall in Hfind.
  - intros id m. cbn [Messages set_Messages set_Rooms].
    rewrite map_lookup_filter_Some. simpl. unfold in_room. tauto.
Qed.

Lemma deleteRoom_removes_room_and_messages_witness :
  let run_ := on_deleteRoom ServerDemo.cfg (ServerDemo.at_time 1010 "x10") ServerDemo.bob
                (sent (fields [(F_room, "testroom")]) true) ServerDemo.said [] in
  Rooms (world_after run_) = [] ∧ Messages (world_after run_) = ∅ ∧
  acks (effects_of run_) = [Ok].
Proof.
  intros run_.
  destruct (deleteRoom_removes_room_and_messages ServerDemo.cfg ServerDemo.session
              (ServerDemo.at_time 1010 "x10") ServerDemo.bob
              (sent (fields [(F_room, "testroom")]) true) (fields [(F_room, "testroom")])
              "testroom") as (_ & _ & _ & _ & _ & Hack);
    [reflexivity|reflexivity|vm_compute; congruence|reflexivity|reflexivity|].
  split; [vm_compute; reflexivity|]. split; [vm_compute; reflexivity|exact Hack].
Defined.

Lemma deleteMessage_no_id cfg ctx s a p w :
  payload a = Some p → falsy (p_messageId p) = true →
  on_deleteMessage cfg ctx s a w [] =
    (w, if ack a then [AckCall (Fail (Some "messageId required"))] else [], Done tt).
Proof.
  intros Hp Hid. unfold on_deleteMessage. rewrite Hp. hsimpl. rewrite Hid. hsimpl.
  by destruct (ack a).
Qed.

Lemma deleteMessage_absent cfg ctx s a p w id :
  payload a = Some p → p_messageId p = Some id → id ≠ "" → db_up ctx = true →
  Messages w !! id = None →
  on_deleteMessage cfg ctx s a w [] =
    (w, if ack a then [AckCall (Fail (Some "not_found"))] else [], Done tt).
Proof.
  intros Hp Hid Hne Hdb Hm. unfold on_deleteMessage, Message_findById.
  rewrite Hp. hsimpl. rewrite Hid, falsy_Some_ne, Hdb by done. hsimpl. rewrite Hm. hsimpl.
  by destruct (ack a).
Qed.

Lemma deleteMessage_admin cfg ctx s a p w m :
  payload a = Some p → p_messageId p = Some (_id m) → _id m ≠ "" → db_up ctx = true →
  stored w m → ALLOW_ADMIN_DELETE cfg = Some "true" →
  world_after (on_deleteMessage cfg ctx s a w []) = set_Messages (delete (_id m)) w ∧
  acks (effects_of (on_deleteMessage cfg ctx s a w [])) = (if ack a then [Ok] else []).
Proof.
  intros Hp Hid Hne Hdb Hm Hadm.
  unfold on_deleteMessage, Message_findById, Message_findByIdAndDelete, allowAdmin.
  rewrite Hp. hsimpl. rewrite Hid, falsy_Some_ne, Hdb by done. hsimpl. rewrite Hm. hsimpl.
  rewrite (bool_decide_true (ALLOW_ADMIN_DELETE cfg = Some "true")) by done.
  rewrite andb_false_r. hsimpl.
  destruct (private m).
  - hsimpl.
    match goal with |- context [for_each ?xs ?body ?w0 ?l0] =>
      destruct (for_each_emits xs body w0 l0) as (l' & -> & Hl')
    end.
    { intros sid. apply emits_only_emit. }
    destruct (ack a); hsimpl; rewrite ?acks_app, ?Hl'; done.
  - hsimpl. by destruct (ack a).
Qed.

(** X7: the edges of [deleteMessage], with a callback and the database up:
    without a message id the answer is "messageId required", for an id
    that names no stored message "not_found", both without any change; and
    with [ALLOW_ADMIN_DELETE] set to "true" the message is deleted whoever
    asks. *)
Theorem deleteMessage_edge_cases cfg ctx s a p w :
  payload a = Some p → ack a = true → db_up ctx = true →
  let run_ := on_deleteMessage cfg ctx s a w [] in
  (falsy (p_messageId p) = true →
     run_ = (w, [AckCall (Fail (Some "messageId required"))], Done tt)) ∧
  (∀ id, p_messageId p = Some id → id ≠ "" → Messages w !! id = None →
     run_ = (w, [AckCall (Fail (Some "not_found"))], Done tt)) ∧
  (∀ m, p_messageId p = Some (_id m) → _id m ≠ "" → stored w m →
     ALLOW_ADMIN_DELETE cfg = Some "true" →
     Messages (world_after run_) = delete (_id m) (Messages w) ∧
     acks (effects_of run_) = [Ok]).
Proof.
  intros Hp Hack Hdb run_. subst run_. split_and!.
  - intros Hid. rewrite (deleteMessage_no_id cfg ctx s a p w) by done. by rewrite Hack.
  - intros id Hid Hne Hm. rewrite (deleteMessage_absent cfg ctx s a p w id) by done.
    by rewrite Hack.
  - intros m Hid Hne Hm Hadm.
    destruct (deleteMessage_admin cfg ctx s a p w m) as [Hw Ha]; try done.
    rewrite Hw, Ha, Hack. done.
Qed.

Lemma deleteMessage_edge_cases_witness :
  let admin := {| ALLOW_ADMIN_DELETE := Some "true"; room_model := true |} in
  let run_ := on_deleteMessage admin (ServerDemo.at_time 1010 "x10") ServerDemo.bob
                ServerDemo.on_msg1 ServerDemo.said [] in
  Messages (world_after run_) = delete "msg1" (Messages ServerDemo.said) ∧
  acks (effects_of run_) = [Ok].
Proof.
  intros admin run_.
  apply (proj2 (proj2 (deleteMessage_edge_cases admin (ServerDemo.at_time 1010 "x10")
                         ServerDemo.bob ServerDemo.on_msg1 (fields [(F_messageId, "msg1")])
                         ServerDemo.said eq_refl eq_refl eq_refl)) ServerDemo.msg1);
    first [reflexivity | vm_compute; congruence].
Defined.

End server_deleting.

(** ** Private messages ([server.js]) *)

Section server_private.
Import Server.

(** A message with a room is not private. *)

Lemma room_not_private_handle cfg r : keeps (every_message room_not_private) (handle cfg r) (λ _, True).
Proof.
  destruct r as [ev s a c]. unfold handle. simpl.
  destruct ev;
    unfold on_connection, on_disconnect, on_rooms_request, on_join, on_message, on_typing,
      on_mark_read, on_file_message, on_privateMessage, on_reaction, on_joinRoom,
      on_leaveRoom, on_createRoom, on_clearRoom, on_deleteRoom, on_deleteMessage,
      emit_online, send_history, broadcast_rooms, socket_join, socket_leave, io_to,
      emit, reply, require_Room, Room_find, Room_findOne, Room_findOneAndDelete, Room_save,
      Message_find_newest;
    repeat first
      [ apply keeps_findById
      | apply keeps_save
      | apply keeps_findByIdAndDelete
      | apply keeps_deleteMany
      | apply keeps_db_same; intros ?; simpl; by repeat case_match
      | apply keeps_other; done
      | keeps_step ];
    try (by intros ?);
    try (intros Hroom; simpl in *;
         match goal with Hm : ∀ m0, Some ?m = Some m0 → room_not_private m0 |- _ => by apply (Hm m) end).
Qed.


(** X8: private messages stay out of the histories.  Whatever requests
    the server has handled, the history of a room and every page of the
    pagination route hold no private message; and [privateMessage] stores
    its message as private, without a room, and addresses its events to
    the sender and to [io.to(toSocketId)] only.  [toSocketId] is the
    request's, unchecked: the message goes to whatever it names, a socket
    or a room. *)
Theorem private_messages_stay_out_of_rooms cfg reqs :
  let w := run cfg reqs init in
  (∀ r n, Forall (λ m, private m = false) (find_newest (in_room r) n (Messages w))) ∧
  (∀ ctx room_q before_q limit_q,
     match paginate ctx w room_q before_q limit_q with
     | Json page => Forall (λ m, private m = false) page
     | Status500 => True
     end) ∧
  (∀ ctx s a p q,
     payload a = Some p → p_payload p = Some q → db_up ctx = true →
     let run_ := on_privateMessage ctx s a w [] in
     ∃ m, world_after run_ = set_Messages <[oid ctx := m]> w ∧
          private m = true ∧ room m = None ∧
          to m = (p_toSocketId p ≫= JsMap.get (onlineUsers w)) ||? None ∧
          (∀ x, p_toSocketId p = Some x →
             Emit (IoTo x) "privateMessage" (BMessage m) ∈ effects_of run_) ∧
          Emit (SocketEmit (socket_id s)) "privateMessage" (BMessage m) ∈ effects_of run_ ∧
          ∀ t ev b, Emit t ev b ∈ effects_of run_ →
            t = SocketEmit (socket_id s) ∨ ∃ x, p_toSocketId p = Some x ∧ t = IoTo x).
Proof.
  intros w.
  assert (every_message room_not_private w) as Hw.
  { apply srv_keeps_run; [apply room_not_private_handle|].
    intros id m Hm. cbn in Hm. by rewrite lookup_empty in Hm. }
  assert (∀ P `{∀ m, Decision (P m)} n,
            (∀ m, P m → room m ≠ None) →
            Forall (λ m, private m = false) (find_newest P n (Messages w))) as Hfind.
  { intros P ? n HP. apply Forall_forall. intros m Hm. unfold find_newest in Hm.
    apply (λ H, elem_of_sublist _ _ _ H (sublist_take _ _)) in Hm.
    rewrite merge_sort_Permutation in Hm. apply list_elem_of_filter in Hm as [HPm Hm].
    apply list_elem_of_fmap in Hm as ([id m'] & -> & Hm). apply elem_of_map_to_list in Hm.
    apply (Hw id m' Hm). by apply HP. }
  split_and!.
  - intros r n. apply Hfind. intros m Hm. unfold in_room in Hm. by rewrite Hm.
  - intros ctx room_q before_q limit_q. unfold paginate, Message_find_newest, db_op.
    destruct (db_up ctx); [|done]. simpl. apply Forall_reverse, Hfind.
    intros m [Hm _]. unfold in_room in Hm. by rewrite Hm.
  - intros ctx s a p q Hp Hq Hdb run_. subst run_.
    unfold on_privateMessage, Message_save. rewrite Hp. hsimpl. rewrite Hq, Hdb.
    destruct (p_toSocketId p) as [sid|] eqn:Hto; hsimpl;
      (eexists; split; [reflexivity|]; split_and!; [done..| | |]).
    + intros x [= <-]. apply list_elem_of_here.
    + apply list_elem_of_further, list_elem_of_here.
    + intros t ev b Hin.
      repeat (apply elem_of_cons in Hin as [Hin|Hin]; [simplify_eq; eauto|]).
      by apply elem_of_nil in Hin.
    + intros x [=].
    + apply list_elem_of_here.
    + intros t ev b Hin.
      repeat (apply elem_of_cons in Hin as [Hin|Hin]; [simplify_eq; eauto|]).
      by apply elem_of_nil in Hin.
Qed.

(** A private message addressed to the name of a room: Bob names
    [testroom], and the message and its notification are emitted to the
    room. *)
Lemma privateMessage_to_a_room_name :
  let p := {| p_username := None; p_name := None; p_room := None; p_text := None;
              p_content := None; p_from := None; p_messageId := None; p_emoji := None;
              p_by := None; p_reaction := None; p_toUserId := None;
              p_toSocketId := Some "testroom"; p_isTyping := None; p_private := None;
              p_file := None; p_data := None; p_mime := None;
              p_payload := Some {| inner_content := Some "psst"; inner_from := None |} |} in
  let run_ := on_privateMessage (ServerDemo.at_time 1008 "pm1") ServerDemo.bob (sent p false)
                ServerDemo.said [] in
  (λ e, match e with Emit t ev _ => (t, ev) | AckCall _ => (IoEmit, "") end) <$> effects_of run_
  = [(IoTo "testroom", "privateMessage"); (SocketEmit "sock-B", "privateMessage");
     (IoTo "testroom", "notification")].
Proof. vm_compute. reflexivity. Qed.

End server_private.

(** ** What is broadcast was saved ([server.js]) *)

Section server_saving.
Import Server.

Lemma on_message_fails ctx s a w :
  db_up ctx = false ∨ payload a = None → on_message ctx s a w [] = (w, [], Done tt).
Proof.
  intros Hfail. unfold on_message, Message_save.
  destruct (payload a) as [p|]; hsimpl; [|done].
  destruct Hfail as [->|?]; done.
Qed.

Lemma srv_on_file_message_run ctx s a p w :
  payload a = Some p →
  let msg :=
    {| _id := oid ctx; content := None;
       from := clerk_username s ||? JsMap.get (onlineUsers w) (socket_id s) ||: "Anonymous";
       to := None; room := Some (p_room p ||: "global"); timestamp := now ctx;
       file := Some {| file_name := p_name p; file_data := p_data p; file_mime := p_mime p |};
       private := false; readBy := []; reactions := [] |} in
  on_file_message ctx s a w [] =
    if db_up ctx then
      (set_Messages <[oid ctx := msg]> w,
       Emit (IoTo (p_room p ||: "global")) "file_message" (BMessage msg)
         :: (if ack a then [AckCall (OkId (oid ctx))] else []),
       Done tt)
    else (w, if ack a then [AckCall (Fail (Some "server_error"))] else [], Done tt).
Proof.
  intros Hp msg. unfold on_file_message, Message_save. rewrite Hp. hsimpl.
  destruct (db_up ctx); hsimpl; by destruct (ack a).
Qed.

(** X9: [message] and [file_message] broadcast only what they saved.
    Every event either of them emits carries a message that is stored in
    the collection afterwards, and goes to the room of that message.
    [message] never throws and never calls a callback, and does nothing at
    all when the database is down; [file_message] then answers
    "server_error".  The sender of a file message is the name of the
    session, never a field of the request. *)
Theorem broadcast_only_what_was_saved ctx s a w :
  let sent_ := on_message ctx s a w [] in
  let file_ := on_file_message ctx s a w [] in
  (outcome_of sent_ = Done tt ∧ acks (effects_of sent_) = []) ∧
  (db_up ctx = false ∨ payload a = None → sent_ = (w, [], Done tt)) ∧
  (∀ t ev b, Emit t ev b ∈ effects_of sent_ →
     ∃ m, stored (world_after sent_) m ∧ t = IoTo (room m ||: "global") ∧
          (b = BMessage m ∨ b = BRoomMessage (room m ||: "global") m)) ∧
  (∀ p, payload a = Some p → db_up ctx = false →
     file_ = (w, if ack a then [AckCall (Fail (Some "server_error"))] else [], Done tt)) ∧
  (∀ t ev b, Emit t ev b ∈ effects_of file_ →
     ∃ m, stored (world_after file_) m ∧ t = IoTo (room m ||: "global") ∧ b = BMessage m ∧
          from m = clerk_username s ||? JsMap.get (onlineUsers w) (socket_id s) ||: "Anonymous").
Proof.
  intros sent_ file_. subst sent_ file_.
  assert (∀ r : option string, Some (r ||: "global") ||: "global" = r ||: "global") as Hroom.
  { intros [r|]; simpl; [|done]. destruct (truthy r) eqn:Hr; simpl; [by rewrite Hr|done]. }
  destruct (payload a) as [p|] eqn:Hp; [destruct (db_up ctx) eqn:Hdb|].
  - rewrite (on_message_saves ctx s a p w) by done.
    rewrite (srv_on_file_message_run ctx s a p w) by done. rewrite Hdb.
    unfold outcome_of, effects_of, world_after. cbn [fst snd].
    split_and!; [done|done|by intros [?|?]| |done|].
    + intros t ev b Hin. exists (new_message ctx s p w). split; [apply lookup_insert_eq|].
      cbn [new_message room]. rewrite Hroom.
      repeat (apply elem_of_cons in Hin as [Hin|Hin]; [simplify_eq; eauto|]).
      by apply elem_of_nil in Hin.
    + intros t ev b Hin. eexists. split; [apply lookup_insert_eq|].
      cbn [room]. rewrite Hroom.
      apply elem_of_cons in Hin as [Hin|Hin]; [by simplify_eq|].
      destruct (ack a); [|by apply elem_of_nil in Hin].
      by apply list_elem_of_singleton in Hin.
  - rewrite (on_message_fails ctx s a w) by (by left).
    rewrite (srv_on_file_message_run ctx s a p w) by done. rewrite Hdb.
    unfold outcome_of, effects_of, world_after. cbn [fst snd].
    split_and!; [done|done|done|by intros ? ? ? ?%elem_of_nil|by intros ? [= <-]|].
    intros t ev b Hin. destruct (ack a); [|by apply elem_of_nil in Hin].
    by apply list_elem_of_singleton in Hin.
  - rewrite (on_message_fails ctx s a w) by (by right).
    unfold on_file_message. rewrite Hp. hsimpl.
    split_and!; [done|done|done|by intros ? ? ? ?%elem_of_nil|done|by intros ? ? ? ?%elem_of_nil].
Qed.

End server_saving.

(** ** Start-up ([server.js]) *)

Section starting.
Import Server.

Lemma startServer_unfold listen port attemptsLeft :
  startServer listen port attemptsLeft =
    match listen port with
    | Listening => Running port
    | EADDRINUSE =>
        if decide (1 < attemptsLeft) then startServer listen (port + 1) (attemptsLeft - 1)
        else Exit1
    | OtherError => Exit1
    end.
Proof.
  rewrite startServer_equation_1. unfold startServer_unfold_clause_1.
  destruct (listen port); [done| |done].
  unfold startServer_unfold_clause_1_clause_2. by destruct (decide (1 < attemptsLeft)).
Qed.

(** The ports [startServer] may try: [Z.max 1 attemptsLeft] of them, from
    [port] upwards. *)
Lemma startServer_in_use listen (k : nat) port attemptsLeft :
  Z.of_nat k < Z.max 1 attemptsLeft →
  (∀ j, 0 ≤ j < Z.of_nat k → listen (port + j) = EADDRINUSE) →
  startServer listen port attemptsLeft =
    startServer listen (port + Z.of_nat k) (attemptsLeft - Z.of_nat k).
Proof.
  revert port attemptsLeft. induction k as [|k IH]; intros port attemptsLeft Hk Hbusy.
  - f_equal; lia.
  - rewrite startServer_unfold. rewrite <-(Z.add_0_r port) at 1. rewrite Hbusy by lia.
    rewrite decide_True by lia. rewrite IH.
    + f_equal; lia.
    + lia.
    + intros j Hj. rewrite <-Z.add_assoc. apply Hbusy. lia.
Qed.

(** X10: [startServer] takes the first free port.  Of the
    [max 1 attemptsLeft] ports from [port] on, it runs on the first one
    that is not in use when that port can be listened on, and exits when
    that port fails with another error or when all of them are in use.
    When it runs, every port before the one it runs on was in use. *)
Theorem startServer_takes_the_first_free_port listen port attemptsLeft :
  let tries := Z.max 1 attemptsLeft in
  (∀ k, 0 ≤ k < tries →
     (∀ j, 0 ≤ j < k → listen (port + j) = EADDRINUSE) →
     (listen (port + k) = Listening → startServer listen port attemptsLeft = Running (port + k)) ∧
     (listen (port + k) = OtherError → startServer listen port attemptsLeft = Exit1)) ∧
  ((∀ j, 0 ≤ j < tries → listen (port + j) = EADDRINUSE) →
     startServer listen port attemptsLeft = Exit1) ∧
  (∀ p, startServer listen port attemptsLeft = Running p →
     port ≤ p < port + tries ∧ listen p = Listening ∧
     ∀ j, port ≤ j < p → listen j = EADDRINUSE).
Proof.
  intros tries. subst tries.
  assert (∀ k, 0 ≤ k < Z.max 1 attemptsLeft →
            (∀ j, 0 ≤ j < k → listen (port + j) = EADDRINUSE) →
            startServer listen port attemptsLeft =
              startServer listen (port + k) (attemptsLeft - k)) as Hskip.
  { intros k Hk Hbusy. rewrite (startServer_in_use listen (Z.to_nat k) port attemptsLeft).
    - f_equal; lia.
    - lia.
    - intros j Hj. apply Hbusy. lia. }
  split_and!.
  - intros k Hk Hbusy. rewrite (Hskip k Hk Hbusy), startServer_unfold.
    split; by intros ->.
  - intros Hbusy.
    rewrite (Hskip (Z.max 1 attemptsLeft - 1)) by (try lia; intros j Hj; apply Hbusy; lia).
    rewrite startServer_unfold, Hbusy by lia. rewrite decide_False by lia. done.
  - assert (∀ (n : nat) port attemptsLeft p,
              Z.max 1 attemptsLeft ≤ Z.of_nat n →
              startServer listen port attemptsLeft = Running p →
              port ≤ p < port + Z.max 1 attemptsLeft ∧ listen p = Listening ∧
              ∀ j, port ≤ j < p → listen j = EADDRINUSE) as Hrun.
    { clear. induction n as [|n IH]; intros port attemptsLeft p Hn; [lia|].
      rewrite startServer_unfold. destruct (listen port) eqn:Hl; [|case_decide|]; try done.
      - intros [= <-]. split_and!; [lia..|done|]. intros j Hj. lia.
      - intros Hp. apply IH in Hp as (Hp & Hlp & Hbusy); [|lia].
        split_and!; [lia|lia|done|]. intros j Hj.
        destruct (decide (j = port)) as [->|?]; [done|]. apply Hbusy. lia. }
    intros p. apply (Hrun (Z.to_nat (Z.max 1 attemptsLeft))). lia.
Qed.

Lemma startServer_takes_the_first_free_port_witness :
  startServer (λ p, if bool_decide (p < 5003) then EADDRINUSE else Listening) 5000 10
    = Running 5003.
Proof.
  apply (proj1 (startServer_takes_the_first_free_port _ 5000 10) 3).
  - vm_compute. split; congruence.
  - intros j Hj. rewrite bool_decide_true by lia. reflexivity.
  - reflexivity.
Defined.

Lemma connect_from_spec connects delayMs i left :
  let '(steps, connected) := connect_from connects delayMs i left in
  (connected = true →
     ∃ k, (k < left)%nat ∧ connects (i + k)%nat = true ∧
          (∀ j, (i ≤ j < i + k)%nat → connects j = false) ∧
          steps = (seq i k ≫= λ j, [Connect j; Wait delayMs]) ++ [Connect (i + k)]) ∧
  (connected = false →
     (∀ j, (i ≤ j < i + left)%nat → connects j = false) ∧
     steps = match left with
             | O => []
             | S l => (seq i l ≫= λ j, [Connect j; Wait delayMs]) ++ [Connect (i + l)]
             end).
Proof.
  revert i. induction left as [|left IH]; intros i; simpl.
  { split; [done|]. intros _. split; [lia|done]. }
  destruct (connects i) eqn:Hi.
  { split; [|done]. intros _. exists 0%nat. rewrite Nat.add_0_r. split_and!; [lia|done|lia|by csimpl]. }
  destruct left as [|left].
  { split; [done|]. intros _. rewrite Nat.add_0_r. split; [|by csimpl].
    intros j Hj. by replace j with i by lia. }
  specialize (IH (S i)). destruct (connect_from connects delayMs (S i) (S left)) as [steps connected].
  destruct IH as [IHt IHf]. split.
  - intros Hc. destruct (IHt Hc) as (k & Hk & Hck & Hbefore & ->).
    exists (S k). rewrite Nat.add_succ_r. split_and!; [lia|done| |by csimpl].
    intros j Hj. destruct (decide (j = i)) as [->|?]; [done|]. apply Hbefore. lia.
  - intros Hc. destruct (IHf Hc) as [Hall ->]. rewrite Nat.add_succ_r. split; [|csimpl; by rewrite ?Nat.add_succ_r].
    intros j Hj. destruct (decide (j = i)) as [->|?]; [done|]. apply Hall. lia.
Qed.

(** X11: [connectWithRetry] stops at the first attempt that succeeds.  It
    connects when one of the first [retries] attempts succeeds, and only
    then; it waits [delayMs] after every failed attempt but the last one,
    and makes no attempt after a successful one. *)
Theorem connectWithRetry_stops_at_first_success connects retries delayMs :
  let '(steps, connected) := connectWithRetry connects retries delayMs in
  (connected = true ↔ ∃ k, (k < retries)%nat ∧ connects k = true) ∧
  (∀ k, (k < retries)%nat → connects k = true → (∀ j, (j < k)%nat → connects j = false) →
     connected = true ∧
     steps = (seq 0 k ≫= λ j, [Connect j; Wait delayMs]) ++ [Connect k]) ∧
  ((∀ j, (j < retries)%nat → connects j = false) →
     connected = false ∧
     steps = match retries with
             | O => []
             | S l => (seq 0 l ≫= λ j, [Connect j; Wait delayMs]) ++ [Connect l]
             end).
Proof.
  unfold connectWithRetry. pose proof (connect_from_spec connects delayMs 0 retries) as Hspec.
  destruct (connect_from connects delayMs 0 retries) as [steps connected].
  destruct Hspec as [Ht Hf]. simpl in *.
  assert (connected = true ∨ connected = false) as Hcases by (destruct connected; auto).
  split_and!.
  - split.
    + intros Hc. destruct (Ht Hc) as (k & ? & ? & _). eauto.
    + intros (k & Hk & Hck). destruct Hcases as [?|Hc]; [done|].
      destruct (Hf Hc) as [Hall _]. rewrite Hall in Hck by lia. done.
  - intros k Hk Hck Hbefore. destruct Hcases as [Hc|Hc].
    + destruct (Ht Hc) as (k' & Hk' & Hck' & Hbefore' & ->). split; [done|].
      assert (k' = k) as ->; [|done].
      destruct (Nat.lt_trichotomy k' k) as [?|[?|?]]; [|done|].
      * rewrite Hbefore in Hck' by done. done.
      * rewrite Hbefore' in Hck by lia. done.
    + destruct (Hf Hc) as [Hall _]. rewrite Hall in Hck by lia. done.
  - intros Hall. destruct Hcases as [Hc|Hc].
    + destruct (Ht Hc) as (k & Hk & Hck & _). rewrite Hall in Hck by done. done.
    + by destruct (Hf Hc) as [_ ->].
Qed.

End starting.

(** ** The maps of the in-memory server *)

Section inmem_maps.
Import InMem.

Lemma JsSet_add_nonempty (s : JsSet.t) x : JsSet.add s x ≠ [].
Proof.
  unfold JsSet.add, JsSet.has. case_bool_decide as Hin.
  - intros ->. by apply elem_of_nil in Hin.
  - by destruct s.
Qed.

Lemma JsMap_delete_Forall {V} (P : string * V → Prop) (m : JsMap.t V) k :
  Forall P m → Forall P (JsMap.delete m k).
Proof.
  rewrite !Forall_forall. intros Hm x Hx. apply Hm.
  eapply elem_of_sublist; [done|apply JsMap_delete_sublist].
Qed.

Lemma wf_leave_all sid (l : list string) a :
  JsMap.wf a → JsMap.wf (foldr (λ r a, adapter_leave a r sid) a l).
Proof. intros Ha. induction l; simpl; [done|]. by apply adapter_leave_wf. Qed.

Lemma register_wf uid uname sid w : maps_wf w → maps_wf (register uid uname sid w).
Proof.
  intros (Hon & Hus & Hro & Had). unfold register. split_and!; simpl; [|..|done|done].
  - by apply JsMap_wf_set.
  - destruct (JsMap.get (USERS_BY_ID w) uid); by apply JsMap_wf_set.
Qed.

Lemma register_users_have_sockets uid uname sid w :
  users_have_sockets w → users_have_sockets (register uid uname sid w).
Proof.
  intros Hw. unfold register, users_have_sockets. simpl.
  destruct (JsMap.get (USERS_BY_ID w) uid); (apply JsMap_set_Forall; [done|]); simpl;
    apply JsSet_add_nonempty.
Qed.

Local Ltac unfold_all :=
  unfold post_rooms, on_connection, on_disconnect, on_join, on_create_room, on_rooms_request, on_join_room,
    on_leave_room, on_message, on_private_message, on_typing, on_react, on_file_message,
    on_mark_read, safeHandler, broadcastUsers, store, emit, reply.

Lemma mem_maps_wf_handle r : keeps maps_wf (handle r) (λ _, True).
Proof.
  assert (∀ w f, maps_wf w → (∀ m, JsMap.wf m → JsMap.wf (f m)) → maps_wf (set_ONLINE f w)) as Hon.
  { intros w f (? & ? & ? & ?) Hf. split_and!; simpl; auto. }
  assert (∀ w f, maps_wf w → (∀ m, JsMap.wf m → JsMap.wf (f m)) → maps_wf (set_USERS_BY_ID f w)) as Hus.
  { intros w f (? & ? & ? & ?) Hf. split_and!; simpl; auto. }
  assert (∀ w f, maps_wf w → (∀ m, JsMap.wf m → JsMap.wf (f m)) → maps_wf (set_ROOMS f w)) as Hro.
  { intros w f (? & ? & ? & ?) Hf. split_and!; simpl; auto. }
  assert (∀ w f, maps_wf w → (∀ m, JsMap.wf m → JsMap.wf (f m)) → maps_wf (set_adapter f w)) as Had.
  { intros w f (? & ? & ? & ?) Hf. split_and!; simpl; auto. }
  assert (∀ w f, maps_wf w → maps_wf (set_heap f w)) as Hheap by (by intros w f (? & ? & ? & ?)).
  assert (∀ w f, maps_wf w → maps_wf (set_MESSAGES f w)) as Hmsgs by (by intros w f (? & ? & ? & ?)).
  destruct r as [ev s a c|n cb c]; simpl; [destruct ev; simpl|]; unfold_all;
    repeat first
      [ keeps_step
      | apply keeps_alloc; intros ? ?; by apply Hheap
      | apply keeps_modify; intros ? ?;
        first [ by apply register_wf
              | by apply Hheap
              | by apply Hmsgs
              | apply Hon; [assumption|intros ? ?; first [by apply JsMap_wf_set|by apply JsMap_wf_delete]]
              | apply Hus; [assumption|intros ? ?; first [by apply JsMap_wf_set|by apply JsMap_wf_delete]]
              | apply Hro; [assumption|intros ? ?; repeat case_match;
                                        first [by apply JsMap_wf_set|assumption]]
              | apply Had; [assumption|intros ? ?;
                  first [by apply adapter_join_wf|by apply adapter_leave_wf|by apply wf_leave_all]] ] ].
Qed.

Lemma mem_maps_wf_init now0 : maps_wf (init now0).
Proof.
  unfold maps_wf, JsMap.wf. simpl. split_and!; try apply NoDup_nil_2.
  apply NoDup_cons. split; [|apply NoDup_singleton].
  intros Hin%list_elem_of_singleton. done.
Qed.

Lemma users_have_sockets_handle r : keeps users_have_sockets (handle r) (λ _, True).
Proof.
  destruct r as [ev s a c|n cb c]; simpl; [destruct ev; simpl|]; unfold_all;
    repeat first
      [ keeps_step
      | apply keeps_alloc; by intros ? ?
      | apply keeps_modify; intros ? ?;
        first [ by apply register_users_have_sockets
              | assumption
              | by apply JsMap_delete_Forall
              | by (apply JsMap_set_Forall; [assumption|]) ] ].
Qed.

End inmem_maps.

(** ** Disconnecting from the in-memory server *)

Section inmem_disconnect.
Import InMem.

Lemma JsMap_set_middle {V} (done rest : JsMap.t V) k v v' :
  k ∉ done.*1 → JsMap.set (done ++ (k, v) :: rest) k v' = done ++ (k, v') :: rest.
Proof.
  induction done as [|[k0 v0] done IH]; csimpl.
  - intros _. by rewrite decide_True.
  - intros [Hne Hnot]%not_elem_of_cons. rewrite decide_False by done. by rewrite IH.
Qed.

Lemma JsMap_delete_middle {V} (done rest : JsMap.t V) k v :
  k ∉ done.*1 → JsMap.delete (done ++ (k, v) :: rest) k = done ++ rest.
Proof.
  induction done as [|[k0 v0] done IH]; csimpl.
  - intros _. by rewrite decide_True.
  - intros [Hne Hnot]%not_elem_of_cons. rewrite decide_False by done. by rewrite IH.
Qed.

(** The body of the loop of [disconnect] over the entries of
    [USERS_BY_ID]. *)
Local Abbreviation leave_user sid :=
  (λ e : string * UserInfo,
     if JsSet.has (sockets e.2) sid then
       match JsSet.delete (sockets e.2) sid with
       | [] =>
           (modify (set_USERS_BY_ID (λ m, JsMap.delete m e.1));;
            emit IoEmit "notification" (BNotification "user_leave" e.1 (info_userName e.2)))
       | rest =>
           modify (set_USERS_BY_ID (λ m,
             JsMap.set m e.1 {| info_userName := info_userName e.2; sockets := rest |}))
       end
     else skip).

Lemma for_each_cons {W E A} (x : A) (xs : list A) (body : A → Handler W E unit) w l :
  for_each (x :: xs) body w l =
    match body x w l with
    | (w', l', Done _) => for_each xs body w' l'
    | (w', l', Thrown) => (w', l', Thrown)
    end.
Proof. reflexivity. Qed.

Lemma leave_users_run sid (rest done : JsMap.t UserInfo) w l :
  USERS_BY_ID w = done ++ rest → NoDup (done ++ rest).*1 →
  ∃ l', for_each rest (leave_user sid) w l =
          (set_USERS_BY_ID (λ _, done ++ omap (without_socket sid) rest) w, l ++ l', Done tt) ∧
        acks l' = [].
Proof.
  set (body := leave_user sid).
  revert done w l. induction rest as [|[uid info] rest IH]; intros done w l Hw Hnd.
  { exists []. csimpl. rewrite !app_nil_r in *. split; [|done]. rewrite <-Hw. by destruct w. }
  assert (uid ∉ done.*1) as Hnot.
  { rewrite fmap_app, fmap_cons in Hnd. apply NoDup_app in Hnd as (_ & Hdisj & _).
    intros Hin. apply (Hdisj uid Hin). apply list_elem_of_here. }
  rewrite for_each_cons. unfold body at 1, without_socket. cbn [omap list_omap fst snd].
  fold (without_socket sid).
  destruct (JsSet.has (sockets info) sid) eqn:Hhas.
  - destruct (JsSet.delete (sockets info) sid) as [|x xs] eqn:Hdel.
    + unfold emit, tell, modify, mbind, handler_bind.
      destruct (IH done (set_USERS_BY_ID (λ m, JsMap.delete m uid) w)
                  (l ++ [Emit IoEmit "notification" (BNotification "user_leave" uid (info_userName info))]))
        as (l' & Hrun & Hl').
      { simpl. rewrite Hw. by apply JsMap_delete_middle. }
      { rewrite fmap_app, fmap_cons in Hnd. rewrite fmap_app.
        apply NoDup_app in Hnd as (? & Hdisj & [_ ?]%NoDup_cons). apply NoDup_app.
        split_and!; [done| |done]. intros y Hy Hin. apply (Hdisj y Hy). by right. }
      rewrite Hrun. eexists. split; [by rewrite <-(assoc_L (++))|]. by rewrite acks_app, Hl'.
    + unfold modify.
      destruct (IH (done ++ [(uid, {| info_userName := info_userName info; sockets := x :: xs |})])
                  (set_USERS_BY_ID (λ m, JsMap.set m uid
                     {| info_userName := info_userName info; sockets := x :: xs |}) w) l)
        as (l' & Hrun & Hl').
      { simpl. rewrite Hw, <-(assoc_L (++)). by apply JsMap_set_middle. }
      { rewrite <-(assoc_L (++)). by rewrite !fmap_app, !fmap_cons in *. }
      rewrite Hrun. exists l'. split; [|done]. by rewrite <-(assoc_L (++)).
  - unfold skip, mret, handler_ret.
    destruct (IH (done ++ [(uid, info)]) w l) as (l' & Hrun & Hl').
    { by rewrite <-(assoc_L (++)). }
    { by rewrite <-(assoc_L (++)). }
    rewrite Hrun. exists l'. split; [|done]. by rewrite <-(assoc_L (++)).
Qed.


Lemma elem_of_without_socket sid (us : JsMap.t UserInfo) uid info :
  Forall (λ e : string * UserInfo, sockets e.2 ≠ []) us →
  (uid, info) ∈ omap (without_socket sid) us → (sid ∉ sockets info) ∧ sockets info ≠ [].
Proof.
  intros Hus Hin. apply list_elem_of_omap in Hin as ([uid0 info0] & Hin & Hclean).
  unfold without_socket in Hclean. simpl in Hclean.
  destruct (JsSet.has (sockets info0) sid) eqn:Hhas.
  - destruct (JsSet.delete (sockets info0) sid) as [|x xs] eqn:Hdel; [done|].
    simplify_eq. simpl. split; [|done]. rewrite <-Hdel. rewrite elem_of_JsSet_delete. tauto.
  - simplify_eq. split.
    + unfold JsSet.has in Hhas. by apply bool_decide_eq_false_1 in Hhas.
    + eapply Forall_forall in Hus; [|exact Hin]. done.
Qed.

Lemma mem_disconnect_run s w :
  JsMap.wf (USERS_BY_ID w) →
  ∃ l,
    on_disconnect s w [] =
      (set_adapter (λ a, foldr (λ r a, adapter_leave a r (socket_id s)) a (rooms_of a (socket_id s)))
         (set_USERS_BY_ID (λ _, omap (without_socket (socket_id s)) (USERS_BY_ID w))
            (set_ONLINE (λ m, JsMap.delete m (socket_id s)) w)),
       l, Done tt) ∧
    acks l = [].
Proof.
  intros Hwf. unfold on_disconnect, broadcastUsers.
  unfold mbind at 1, handler_bind at 1, modify at 1.
  unfold mbind at 1, handler_bind at 1, get_world at 1.
  unfold mbind at 1, handler_bind at 1.
  destruct (leave_users_run (socket_id s) (USERS_BY_ID w) []
              (set_ONLINE (λ m, JsMap.delete m (socket_id s)) w) []) as (l' & Hrun & Hl').
  { done. }
  { done. }
  cbn [USERS_BY_ID set_ONLINE] in Hrun |- *. rewrite Hrun. hsimpl.
  eexists. split; [reflexivity|]. rewrite !acks_app, Hl'. done.
Qed.

Lemma filter_all {A} (P : A → Prop) `{∀ x, Decision (P x)} (l : list A) :
  Forall P l → filter P l = l.
Proof.
  induction 1 as [|x l Hx _ IH]; [done|]. rewrite filter_cons, decide_True by done. by rewrite IH.
Qed.

Lemma mem_run_invariants now0 reqs :
  maps_wf (run reqs (init now0)) ∧ users_have_sockets (run reqs (init now0)).
Proof.
  split.
  - apply keeps_run; [apply mem_maps_wf_handle|apply mem_maps_wf_init].
  - apply keeps_run; [apply users_have_sockets_handle|]. unfold users_have_sockets. simpl. constructor.
Qed.

(** X12: [disconnect] on the in-memory server forgets the socket: it is
    no longer online, no user lists it, it is in no room, and a user whose
    only socket it was is removed, so that every user still listed has a
    socket.  The messages and the rooms stay. *)
Theorem mem_disconnect_forgets_the_socket now0 reqs s :
  let w := run reqs (init now0) in
  let run_ := on_disconnect s w [] in
  let w' := world_after run_ in
  outcome_of run_ = Done tt ∧ acks (effects_of run_) = [] ∧
  JsMap.get (ONLINE w') (socket_id s) = None ∧
  USERS_BY_ID w' = omap (without_socket (socket_id s)) (USERS_BY_ID w) ∧
  (∀ uid info, (uid, info) ∈ USERS_BY_ID w' →
     (socket_id s ∉ sockets info) ∧ sockets info ≠ []) ∧
  (∀ r, socket_id s ∉ sockets_in (adapter w') r) ∧
  heap w' = heap w ∧ MESSAGES w' = MESSAGES w ∧ ROOMS w' = ROOMS w.
Proof.
  intros w run_ w'. subst run_ w'.
  destruct (mem_run_invariants now0 reqs) as [(Hon & Hus & Hro & Had) Hsock]. fold w in Hon, Hus, Hro, Had, Hsock.
  destruct (mem_disconnect_run s w Hus) as (l & -> & Hl).
  unfold outcome_of, effects_of, world_after. cbn [fst snd].
  split_and!; [done|done| |done| | |done..].
  - simpl. rewrite JsMap_get_delete by done. by rewrite decide_True.
  - intros uid info Hin. by apply (elem_of_without_socket _ (USERS_BY_ID w) uid).
  - intros r. simpl. rewrite sockets_in_leave_all by done.
    rewrite elem_of_rooms_of by done. tauto.
Qed.

(** X13: whatever requests the in-memory server has handled, each user of
    the [users] list is online with at least one socket, so the
    [users_count] it sends is the number of users it lists. *)
Theorem listed_users_are_online now0 reqs :
  let w := run reqs (init now0) in
  Forall (λ u, us_online u = true ∧ (0 < us_socketCount u)%nat) (user_summaries w) ∧
  length (filter (λ u, us_online u = true) (user_summaries w)) = length (USERS_BY_ID w).
Proof.
  intros w. destruct (mem_run_invariants now0 reqs) as [_ Hsock]. fold w in Hsock.
  assert (Forall (λ u, us_online u = true ∧ (0 < us_socketCount u)%nat) (user_summaries w)) as Hall.
  { unfold user_summaries. apply Forall_fmap. eapply Forall_impl; [done|].
    intros [uid info] Hne. simpl in *.
    assert (0 < length (sockets info))%nat by (destruct (sockets info); [done|simpl; lia]).
    split; [by apply bool_decide_eq_true_2|done]. }
  split; [done|].
  rewrite filter_all by (eapply Forall_impl; [done|]; by intros u [? _]).
  unfold user_summaries. by rewrite length_fmap.
Qed.

End inmem_disconnect.

(** ** Rooms of the in-memory server *)

Section inmem_rooms.
Import InMem.

Lemma bind_assoc_run {W E A B C} (m : Handler W E A) (f : A → Handler W E B)
    (g : B → Handler W E C) w l :
  ((m ≫= f) ≫= g) w l = (m ≫= λ x, f x ≫= g) w l.
Proof. unfold mbind, handler_bind. by destruct (m w l) as [[w' l'] [a|]]. Qed.

Lemma JsMap_has_false {V} (m : JsMap.t V) k : JsMap.has m k = false → JsMap.get m k = None.
Proof.
  unfold JsMap.has. intros Hhas%bool_decide_eq_false_1.
  destruct (JsMap.get m k); [|done]. by destruct Hhas.
Qed.

Lemma rooms_kept_refl w : rooms_kept w w.
Proof. intros r info Hget. by exists info. Qed.

Lemma rooms_kept_frame w0 w w' : ROOMS w' = ROOMS w → rooms_kept w0 w → rooms_kept w0 w'.
Proof. intros Heq Hw r info Hget. rewrite Heq. by apply Hw. Qed.

Lemma rooms_kept_new w0 w n info :
  JsMap.has (ROOMS w) n = false → rooms_kept w0 w →
  rooms_kept w0 (set_ROOMS (λ rooms, JsMap.set rooms n info) w).
Proof.
  intros Hhas%JsMap_has_false Hw r info0 Hget.
  destruct (Hw r info0 Hget) as (info' & Hget' & ?). exists info'. split; [|done].
  simpl. rewrite JsMap_get_set. destruct (decide (n = r)) as [->|?]; [|done]. congruence.
Qed.

Lemma rooms_kept_push w0 w r ref :
  rooms_kept w0 w →
  rooms_kept w0 (set_ROOMS (λ rooms,
    match JsMap.get rooms r with
    | Some info => JsMap.set rooms r (room_push ref info)
    | None => rooms
    end) w).
Proof.
  intros Hw r0 info0 Hget. destruct (Hw r0 info0 Hget) as (info' & Hget' & Hn & Hb & Ha).
  simpl. destruct (JsMap.get (ROOMS w) r) as [info|] eqn:Hr; [|by exists info'].
  rewrite JsMap_get_set. destruct (decide (r = r0)) as [->|?]; [|by exists info'].
  exists (room_push ref info). split; [done|]. simpl. by simplify_eq.
Qed.

Local Ltac kept_step :=
  first
    [ keeps_step
    | apply keeps_alloc; intros ? ?; eapply rooms_kept_frame; [..|eassumption]; reflexivity
    | apply keeps_modify; intros ? ?;
      first [ by apply rooms_kept_push
            | eapply rooms_kept_frame; [..|eassumption]; reflexivity ] ].

Local Ltac kept_solve := unfold safeHandler, broadcastUsers, store, emit, reply; repeat kept_step.

Lemma rooms_kept_create_room w0 ctx s a :
  keeps (rooms_kept w0) (on_create_room ctx s a) (λ _, True).
Proof.
  unfold on_create_room, safeHandler. apply keeps_try_catch; [|kept_solve].
  apply keeps_destructure. intros p Hp. cbv zeta. case_match; [kept_solve|].
  apply keeps_read. intros w Hw l.
  destruct (JsMap.has (ROOMS w) _) eqn:Hhas.
  - apply keeps_apply; [kept_solve|done].
  - apply keeps_modify_here; [by apply rooms_kept_new|kept_solve].
Qed.

Lemma rooms_kept_join_room w0 ctx s a :
  keeps (rooms_kept w0) (on_join_room ctx s a) (λ _, True).
Proof.
  unfold on_join_room, safeHandler. apply keeps_try_catch; [|kept_solve].
  apply keeps_destructure. intros p Hp. cbv zeta. case_match; [kept_solve|].
  apply keeps_read. intros w Hw l.
  destruct (JsMap.has (ROOMS w) _) eqn:Hhas.
  - apply keeps_apply; [kept_solve|done].
  - rewrite bind_assoc_run. apply keeps_modify_here; [by apply rooms_kept_new|kept_solve].
Qed.

Lemma rooms_kept_post_rooms w0 ctx n c :
  keeps (rooms_kept w0) (post_rooms ctx n c) (λ _, True).
Proof.
  unfold post_rooms. case_match; [kept_solve|].
  apply keeps_read. intros w Hw l. cbv zeta.
  destruct (JsMap.has (ROOMS w) _) eqn:Hhas.
  - apply keeps_apply; [kept_solve|done].
  - apply keeps_modify_here; [by apply rooms_kept_new|kept_solve].
Qed.

Lemma rooms_kept_handle w0 r : keeps (rooms_kept w0) (handle r) (λ _, True).
Proof.
  destruct r as [ev s a c|n cb c]; simpl.
  - destruct ev; simpl;
      try apply rooms_kept_create_room; try apply rooms_kept_join_room;
      unfold on_connection, on_disconnect, on_join, on_rooms_request,
        on_leave_room, on_message, on_private_message, on_typing, on_react, on_file_message,
        on_mark_read;
      kept_solve.
  - eapply keeps_bind; [apply rooms_kept_post_rooms|]. intros _ _. kept_solve.
Qed.

(** X14: the in-memory server never removes a room.  A room that exists
    keeps existing, with its name, creator and creation time, whatever
    requests follow; so "General" and "Developers" always exist. *)
Theorem rooms_are_never_removed reqs :
  (∀ w, rooms_kept w (run reqs w)) ∧
  (∀ now0, JsMap.has (ROOMS (run reqs (init now0))) "General" = true ∧
           JsMap.has (ROOMS (run reqs (init now0))) "Developers" = true).
Proof.
  assert (∀ w, rooms_kept w (run reqs w)) as Hkept.
  { intros w. apply keeps_run; [apply rooms_kept_handle|apply rooms_kept_refl]. }
  split; [done|]. intros now0. unfold JsMap.has. split; apply bool_decide_eq_true_2.
  - destruct (Hkept (init now0) "General" _ eq_refl) as (info & -> & _). by eexists.
  - destruct (Hkept (init now0) "Developers" _ eq_refl) as (info & -> & _). by eexists.
Qed.

End inmem_rooms.

(** ** Creating, joining and leaving rooms (in-memory server) *)

Section inmem_more.
Import InMem.

Lemma truthy_ne s : s ≠ "" → truthy s = true.
Proof. intros. unfold truthy. by rewrite bool_decide_true. Qed.

Lemma create_room_run ctx s a p w :
  payload a = Some p →
  let r := trim (p_name p ||: "") in
  on_create_room ctx s a w [] =
    if bool_decide (r = "") then
      (w, if ack a then [AckCall (Fail "name required")] else [], Done tt)
    else if JsMap.has (ROOMS w) r then
      (w, if ack a then [AckCall (Fail "room exists")] else [], Done tt)
    else
      let w' := set_ROOMS (λ rooms, JsMap.set rooms r (new_room s ctx r)) w in
      (w',
       Emit IoEmit "rooms" (BRooms (listRooms w'))
         :: (if ack a then [AckCall (OkRoom (new_room s ctx r))] else []),
       Done tt).
Proof.
  intros Hp r. unfold on_create_room. hsimpl. rewrite Hp. hsimpl. fold r.
  unfold truthy. case_bool_decide as Hr; hsimpl.
  - rewrite bool_decide_false by done. hsimpl.
    destruct (JsMap.has (ROOMS w) r); hsimpl; by destruct (ack a).
  - rewrite bool_decide_true by done. hsimpl. by destruct (ack a).
Qed.

(** X15: [create_room] of the in-memory server creates a room once.  A
    blank name is answered "name required" and a taken one "room exists",
    without any change; a new name (trimmed) adds the room with no
    messages, leaves the other rooms, sends every client the rooms and
    acknowledges with the room; from then on the name is taken. *)
Theorem create_room_creates_once ctx s a p w :
  payload a = Some p →
  let r := trim (p_name p ||: "") in
  let run_ := on_create_room ctx s a w [] in
  let w' := world_after run_ in
  (r = "" → run_ = (w, if ack a then [AckCall (Fail "name required")] else [], Done tt)) ∧
  (r ≠ "" → JsMap.has (ROOMS w) r = true →
     run_ = (w, if ack a then [AckCall (Fail "room exists")] else [], Done tt)) ∧
  (r ≠ "" → JsMap.has (ROOMS w) r = false →
     JsMap.get (ROOMS w') r = Some (new_room s ctx r) ∧
     (∀ r', r' ≠ r → JsMap.get (ROOMS w') r' = JsMap.get (ROOMS w) r') ∧
     effects_of run_ =
       Emit IoEmit "rooms" (BRooms (listRooms w'))
         :: (if ack a then [AckCall (OkRoom (new_room s ctx r))] else []) ∧
     ∀ ctx' s' a' p',
       payload a' = Some p' → trim (p_name p' ||: "") = r →
       on_create_room ctx' s' a' w' [] =
         (w', if ack a' then [AckCall (Fail "room exists")] else [], Done tt)).
Proof.
  intros Hp r run_ w'. subst run_ w'. rewrite (create_room_run ctx s a p w Hp). fold r.
  split_and!.
  - intros ->. done.
  - intros Hr Hhas. by rewrite bool_decide_false, Hhas.
  - intros Hr Hhas. rewrite bool_decide_false, Hhas by done.
    unfold world_after, effects_of. cbn [fst snd]. split_and!; [| |done|].
    + simpl. by rewrite JsMap_get_set, decide_True.
    + intros r' Hne. simpl. by rewrite JsMap_get_set, decide_False.
    + intros ctx' s' a' p' Hp' Hr'.
      rewrite (create_room_run ctx' s' a' p' _ Hp'). rewrite Hr'.
      rewrite bool_decide_false by done.
      assert (JsMap.has (ROOMS (set_ROOMS (λ rooms, JsMap.set rooms r (new_room s ctx r)) w)) r
              = true) as ->; [|done].
      unfold JsMap.has. apply bool_decide_eq_true_2. simpl.
      rewrite JsMap_get_set, decide_True by done. by eexists.
Qed.

Lemma create_room_creates_once_witness :
  let run_ := on_create_room (InMemDemo.at_time (InMemDemo.t0 + 6) "a00006") InMemDemo.bob
                (sent (fields [(F_name, "  testroom ")]) true) InMemDemo.said [] in
  run_ = (InMemDemo.said, [AckCall (Fail "room exists")], Done tt).
Proof.
  intros run_.
  apply (proj1 (proj2 (create_room_creates_once (InMemDemo.at_time (InMemDemo.t0 + 6) "a00006")
                         InMemDemo.bob (sent (fields [(F_name, "  testroom ")]) true)
                         (fields [(F_name, "  testroom ")]) InMemDemo.said eq_refl)));
    first [reflexivity | vm_compute; congruence].
Defined.

(** A name that is a no-break space is blank. *)
Lemma create_room_refuses_a_blank_name :
  on_create_room (InMemDemo.at_time (InMemDemo.t0 + 6) "a00006") InMemDemo.alice
    (sent (fields [(F_name, nbsp)]) true) InMemDemo.said []
  = (InMemDemo.said, [AckCall (Fail "name required")], Done tt).
Proof. vm_compute. reflexivity. Qed.

Lemma leave_room_run s a p w r :
  payload a = Some p → p_room p = Some r → r ≠ "" →
  let w' := set_adapter (λ ad, adapter_leave ad r (socket_id s)) w in
  on_leave_room s a w [] =
    (w',
     Emit (IoTo r) "room_users" (BRoomUsers r (room_users w' r))
       :: (if ack a then [AckCall (OkRoomName (Some r))] else []),
     Done tt).
Proof.
  intros Hp Hr Hne w'. unfold on_leave_room. hsimpl. rewrite Hp. hsimpl.
  rewrite Hr, falsy_Some_ne by done. hsimpl. by destruct (ack a).
Qed.

(** X16: [join_room] then [leave_room] with the same payload on the
    in-memory server.  [join_room] joins the room of the trimmed name,
    [leave_room] leaves the room of the name as it was sent.  After
    joining, the socket is in the room of the trimmed name.  For a name
    without white space around it, the socket is out of the room after
    leaving and every other membership is as before the two requests,
    which therefore undo each other for a socket that was not in the
    room; for a name with white space around it the socket stays in the
    room it joined.  The room that joining may have created stays. *)
Theorem join_then_leave_room now0 reqs ctx s a p r :
  let w := run reqs (init now0) in
  payload a = Some p → p_room p = Some r → trim r ≠ "" →
  let w1 := world_after (on_join_room ctx s a w []) in
  let left_ := on_leave_room s a w1 [] in
  let w2 := world_after left_ in
  socket_id s ∈ sockets_in (adapter w1) (trim r) ∧
  (∀ r' sid, sid ∈ sockets_in (adapter w2) r' ↔
             (sid ∈ sockets_in (adapter w) r' ∨ (r' = trim r ∧ sid = socket_id s)) ∧
             (r' ≠ r ∨ sid ≠ socket_id s)) ∧
  (trim r = r →
     (socket_id s ∉ sockets_in (adapter w2) r) ∧
     (∀ r' sid, r' ≠ r ∨ sid ≠ socket_id s →
        sid ∈ sockets_in (adapter w2) r' ↔ sid ∈ sockets_in (adapter w) r') ∧
     (socket_id s ∉ sockets_in (adapter w) r →
        ∀ r' sid, sid ∈ sockets_in (adapter w2) r' ↔ sid ∈ sockets_in (adapter w) r')) ∧
  (trim r ≠ r → socket_id s ∈ sockets_in (adapter w2) (trim r)) ∧
  ROOMS w2 = ROOMS w1 ∧ JsMap.has (ROOMS w2) (trim r) = true ∧
  acks (effects_of left_) = (if ack a then [OkRoomName (Some r)] else []).
Proof.
  intros w Hp Hr Htrim w1 left_ w2.
  set (t := trim r) in *.
  assert (r ≠ "") as Hne by (intros ->; by apply Htrim).
  assert (trim (p_room p ||: "") = t) as Hname.
  { rewrite Hr. simpl. by rewrite truthy_ne. }
  destruct (on_join_room_run ctx s a p w Hp) as (info & Hget & _ & _ & Hjoin).
  { by rewrite Hname. }
  rewrite Hname in Hget, Hjoin.
  assert (w1 = joined ctx s t w) as Hw1 by (unfold w1; by rewrite Hjoin).
  assert (left_ = _) as Hleft by (apply (leave_room_run s a p w1 r); done).
  assert (w2 = set_adapter (λ ad, adapter_leave ad r (socket_id s)) w1) as Hw2
    by (unfold w2; by rewrite Hleft).
  destruct (mem_run_invariants now0 reqs) as [(_ & _ & _ & Had) _]. fold w in Had.
  assert (∀ r' sid, sid ∈ sockets_in (adapter w1) r' ↔
                    sid ∈ sockets_in (adapter w) r' ∨ (r' = t ∧ sid = socket_id s)) as Hin1.
  { intros r' sid. rewrite Hw1. unfold joined. simpl.
    rewrite sockets_in_adapter_join. by destruct (JsMap.has (ROOMS w) t). }
  assert (JsMap.wf (adapter w1)) as Had1.
  { rewrite Hw1. unfold joined. simpl. apply adapter_join_wf. by destruct (JsMap.has (ROOMS w) t). }
  assert (∀ r' sid, sid ∈ sockets_in (adapter w2) r' ↔
                    (sid ∈ sockets_in (adapter w) r' ∨ (r' = t ∧ sid = socket_id s)) ∧
                    (r' ≠ r ∨ sid ≠ socket_id s)) as Hin2.
  { intros r' sid. rewrite Hw2. simpl. rewrite sockets_in_adapter_leave by done.
    by rewrite Hin1. }
  split_and!.
  - apply Hin1. by right.
  - done.
  - intros Heq. rewrite Heq in Hin2. split_and!.
    + rewrite Hin2. tauto.
    + intros r' sid Hother. rewrite Hin2.
      destruct (decide (r' = r)), (decide (sid = socket_id s)); intuition congruence.
    + intros Hnot r' sid. rewrite Hin2.
      destruct (decide (r' = r)) as [->|?], (decide (sid = socket_id s)) as [->|?];
        intuition congruence.
  - intros Hdiff. apply Hin2. split; [by right|]. left. done.
  - by rewrite Hw2.
  - rewrite Hw2. cbn [ROOMS set_adapter]. rewrite Hw1. unfold JsMap.has. rewrite Hget.
    by apply bool_decide_eq_true_2.
  - rewrite Hleft. unfold effects_of. simpl. by destruct (ack a).
Qed.

(** Alice joins the room of the session again and leaves it. *)
Lemma join_then_leave_room_witness :
  let a := sent (fields [(F_room, "testroom")]) true in
  let w1 := world_after (on_join_room (InMemDemo.at_time (InMemDemo.t0 + 6) "a00006")
                           InMemDemo.alice a InMemDemo.said []) in
  let left_ := on_leave_room InMemDemo.alice a w1 [] in
  "sock-A" ∈ sockets_in (adapter w1) "testroom" ∧
  ("sock-A" ∉ sockets_in (adapter (world_after left_)) "testroom") ∧
  acks (effects_of left_) = [OkRoomName (Some "testroom")].
Proof.
  intros a w1 left_.
  destruct (join_then_leave_room InMemDemo.t0 InMemDemo.session
              (InMemDemo.at_time (InMemDemo.t0 + 6) "a00006") InMemDemo.alice a
              (fields [(F_room, "testroom")]) "testroom" eq_refl eq_refl)
    as (Hin1 & _ & Hclean & _ & _ & _ & Hack); [vm_compute; congruence|].
  split_and!; [exact Hin1| |exact Hack].
  exact (proj1 (Hclean eq_refl)).
Defined.

(** A room name with a space after it: Alice joins [lobby] and stays in
    it when she leaves with the same payload. *)
Lemma leave_room_does_not_trim :
  let a := sent (fields [(F_room, "lobby ")]) true in
  let w1 := world_after (on_join_room (InMemDemo.at_time (InMemDemo.t0 + 6) "a00006")
                           InMemDemo.alice a InMemDemo.said []) in
  let left_ := on_leave_room InMemDemo.alice a w1 [] in
  sockets_in (adapter (world_after left_)) "lobby" = ["sock-A"] ∧
  acks (effects_of left_) = [OkRoomName (Some "lobby ")].
Proof. vm_compute. done. Qed.

End inmem_more.

(** ** Reactions of the in-memory server *)

Section inmem_messages.
Import InMem.


Lemma react_absent s a p w :
  payload a = Some p → p_messageId p ≫= find_message w = None →
  on_react s a w [] = (w, if ack a then [AckCall (Fail "message not found")] else [], Done tt).
Proof.
  intros Hp Hf. unfold on_react. hsimpl. rewrite Hp. hsimpl.
  destruct (p_messageId p) as [id|]; hsimpl; [rewrite Hf; hsimpl|]; by destruct (ack a).
Qed.

Lemma get_property_proto obj : get_property obj "__proto__" = Some VObjectPrototype.
Proof. done. Qed.





End inmem_messages.

(** ** Private messages of the in-memory server *)

Section inmem_private.
Import InMem.

Lemma pm_room_sym a b : pm_room a (Some b) = pm_room b (Some a).
Proof.
  unfold pm_room. destruct (String.leb a b) eqn:Hab, (String.leb b a) eqn:Hba; [|done|done|].
  - by rewrite (String.leb_antisym a b Hab Hba).
  - destruct (String.leb_total a b); congruence.
Qed.

(** The message object of [private_message]. *)
Local Abbreviation pm_message ctx s p :=
  {| msg_id := fresh_id ctx; room := pm_room (userId s) (p_toUserId p);
     senderId := userId s; senderName := userName s; text := p_text p; file := None;
     timestamp := now ctx; private := true; reactions := None; readBy := None |}.

Lemma for_each_tell {W E A} (f : A → E) (xs : list A) (w : W) l :
  for_each xs (λ x w l, (w, l ++ [f x], Done tt)) w l = (w, l ++ (f <$> xs), Done tt).
Proof.
  revert w l. induction xs as [|x xs IH]; intros w l; [by rewrite app_nil_r|].
  rewrite for_each_cons, IH. by rewrite <-(assoc_L (++)).
Qed.

Lemma private_message_run ctx s a p w :
  payload a = Some p →
  let msg := pm_message ctx s p in
  let w' := set_MESSAGES (λ ms, ms ++ [length (heap w)]) (set_heap (λ h, h ++ [msg]) w) in
  ∃ l,
    on_private_message ctx s a w [] =
      (w', l ++ Emit (SocketEmit (socket_id s)) "private_message" (BMessage msg)
             :: (if ack a then [AckCall (OkId (fresh_id ctx))] else []), Done tt) ∧
    ∀ e, e ∈ l → ∃ target sid,
      p_toUserId p ≫= JsMap.get (USERS_BY_ID w) = Some target ∧ sid ∈ sockets target ∧
      e = Emit (IoTo sid) "private_message" (BMessage msg).
Proof.
  intros Hp msg w'. unfold on_private_message, safeHandler, destructure. rewrite Hp.
  destruct (p_toUserId p ≫= JsMap.get (USERS_BY_ID w)) as [target|] eqn:Ht; hsimpl; rewrite Ht.
  - rewrite (for_each_tell (λ sid, Emit (IoTo sid) "private_message" (BMessage msg))). hsimpl.
    exists ((λ sid, Emit (IoTo sid) "private_message" (BMessage msg)) <$> sockets target).
    split; [destruct (ack a); cbn; [by rewrite <-(assoc_L (++))|done]|].
    intros e (sid & -> & Hsid)%list_elem_of_fmap. by exists target, sid.
  - exists []. split; [by destruct (ack a)|]. by intros e ?%elem_of_nil.
Qed.

Lemma connection_run s w :
  let w' := set_adapter (λ a, adapter_join a GLOBAL_ROOM (socket_id s))
              (register (userId s) (userName s) (socket_id s) w) in
  on_connection s w [] =
    (w',
     [Emit (SocketEmit (socket_id s)) "rooms" (BRooms (listRooms w'));
      Emit IoEmit "users" (BUsers (user_summaries w'));
      Emit IoEmit "users_count"
        (BUsersCount (length (filter (λ u, us_online u = true) (user_summaries w'))));
      Emit (SocketEmit (socket_id s)) "recent_messages"
        (BRecent (deref w' (slice_last 50 (MESSAGES w'))));
      Emit (IoTo GLOBAL_ROOM) "notification" (BNotification "user_join" (userId s) (userName s))],
     Done tt).
Proof. reflexivity. Qed.

Lemma deref_snoc w refs ref m : heap w !! ref = Some m → deref w (refs ++ [ref]) = deref w refs ++ [m].
Proof. intros Hm. rewrite deref_app. unfold deref at 2. csimpl. by rewrite Hm. Qed.

Lemma slice_last_snoc {A} n (l : list A) x : ∃ l', slice_last (S n) (l ++ [x]) = l' ++ [x].
Proof.
  unfold slice_last. rewrite length_app. simpl.
  exists (drop (length l + 1 - S n) l). rewrite drop_app_le by lia. done.
Qed.

(** X18: a private message of the in-memory server goes to the archive
    of all messages and to no room buffer.  It is sent to the sockets of
    the recipient and to the sender only, its room key is the same in both
    directions, and the [recent_messages] of whoever connects next contain
    it. *)
Theorem private_message_goes_to_the_archive ctx s a p w :
  payload a = Some p →
  let msg := pm_message ctx s p in
  let run_ := on_private_message ctx s a w [] in
  let w' := world_after run_ in
  ROOMS w' = ROOMS w ∧
  MESSAGES w' = MESSAGES w ++ [length (heap w)] ∧ heap w' = heap w ++ [msg] ∧
  (∀ other, pm_room (userId s) (Some other) = pm_room other (Some (userId s))) ∧
  (∀ t ev b, Emit t ev b ∈ effects_of run_ →
     ev = "private_message" ∧ b = BMessage msg ∧
     (t = SocketEmit (socket_id s) ∨
      ∃ target sid, p_toUserId p ≫= JsMap.get (USERS_BY_ID w) = Some target ∧
                    sid ∈ sockets target ∧ t = IoTo sid)) ∧
  acks (effects_of run_) = (if ack a then [OkId (fresh_id ctx)] else []) ∧
  (∀ s2, ∃ recent,
     Emit (SocketEmit (socket_id s2)) "recent_messages" (BRecent recent)
       ∈ effects_of (on_connection s2 w' []) ∧
     msg ∈ recent).
Proof.
  intros Hp msg run_ w'. subst run_ w'.
  destruct (private_message_run ctx s a p w Hp) as (l & -> & Hl).
  unfold world_after, effects_of. cbn [fst snd].
  split_and!; [done|done|done|intros; apply pm_room_sym| | |].
  - intros t ev b Hin. apply elem_of_app in Hin as [Hin|Hin].
    + destruct (Hl _ Hin) as (target & sid & Ht & Hsid & Heq). simplify_eq.
      split_and!; [done..|]. right. by exists target, sid.
    + apply elem_of_cons in Hin as [Hin|Hin]; [simplify_eq; by split_and!; [..|left]|].
      destruct (ack a); [|by apply elem_of_nil in Hin].
      by apply list_elem_of_singleton in Hin.
  - rewrite acks_app. assert (acks l = []) as ->.
    { clear -Hl. induction l as [|e l IH]; [done|].
      destruct (Hl e) as (? & ? & _ & _ & ->); [apply list_elem_of_here|]. csimpl.
      apply IH. intros e' He'. apply Hl. by right. }
    by destruct (ack a).
  - intros s2. rewrite connection_run. eexists. split.
    + do 3 apply list_elem_of_further. apply list_elem_of_here.
    + cbn [MESSAGES set_adapter register set_ONLINE set_USERS_BY_ID set_MESSAGES set_heap].
      destruct (slice_last_snoc 49 (MESSAGES w) (length (heap w))) as (l' & ->).
      erewrite deref_snoc; [apply elem_of_app; right; apply list_elem_of_here|].
      cbn [heap set_adapter register set_ONLINE set_USERS_BY_ID set_MESSAGES set_heap].
      rewrite lookup_app_r by lia. by rewrite Nat.sub_diag.
Qed.

(** Alice writes to Bob after the session. *)
Lemma private_message_goes_to_the_archive_witness :
  let ctx := InMemDemo.at_time (InMemDemo.t0 + 6) "a00006" in
  let a := sent (fields [(F_toUserId, "u-bob"); (F_text, "psst")]) true in
  let run_ := on_private_message ctx InMemDemo.alice a InMemDemo.said [] in
  acks (effects_of run_) = [OkId (fresh_id ctx)] ∧
  ROOMS (world_after run_) = ROOMS InMemDemo.said ∧
  MESSAGES (world_after run_) = MESSAGES InMemDemo.said ++ [length (heap InMemDemo.said)].
Proof.
  intros ctx a run_.
  destruct (private_message_goes_to_the_archive ctx InMemDemo.alice a
              (fields [(F_toUserId, "u-bob"); (F_text, "psst")]) InMemDemo.said eq_refl)
    as (Hrooms & Hms & _ & _ & _ & Hack & _).
  split_and!; [exact Hack|exact Hrooms|exact Hms].
Defined.

End inmem_private.

(** ** Looking a message up by its id (in-memory server) *)

Section inmem_lookup.
Import InMem.

Lemma find_message_None w id :
  find_message w id = None ↔
  ∀ ref m, ref ∈ MESSAGES w → heap w !! ref = Some m → msg_id m ≠ id.
Proof.
  unfold find_message. split.
  - intros Hf ref m Href Hm Hid.
    destruct (list_find _ (MESSAGES w)) as [[i r]|] eqn:Hfind.
    + apply list_find_Some in Hfind as (_ & HP & _). simpl in Hf.
      destruct (heap w !! r); simpl in *; congruence.
    + apply list_find_None in Hfind. eapply Forall_forall in Hfind; [|done].
      apply Hfind. by rewrite Hm, <-Hid.
  - intros Hno. destruct (list_find _ (MESSAGES w)) as [[i r]|] eqn:Hfind; [|done].
    apply list_find_Some in Hfind as (Hi & HP & _).
    destruct (heap w !! r) as [m|] eqn:Hm; [|done]. simpl in HP. exfalso.
    apply (Hno r m); [by eapply list_elem_of_lookup_2|done|congruence].
Qed.

Lemma find_message_store w id msg :
  find_message w id = None → msg_id msg = id →
  find_message (set_MESSAGES (λ ms, ms ++ [length (heap w)]) (set_heap (λ h, h ++ [msg]) w)) id
    = Some (length (heap w), msg).
Proof.
  intros Hf Hid. unfold find_message. simpl.
  assert ((heap w ++ [msg]) !! length (heap w) = Some msg) as Hnew.
  { rewrite lookup_app_r by lia. by rewrite Nat.sub_diag. }
  assert (∃ i, list_find (λ r, msg_id <$> (heap w ++ [msg]) !! r = Some id)
                 (MESSAGES w ++ [length (heap w)]) = Some (i, length (heap w))) as [i ->].
  { destruct (list_find (λ r, msg_id <$> (heap w ++ [msg]) !! r = Some id)
                (MESSAGES w ++ [length (heap w)])) as [[i r]|] eqn:Hfind.
    - exists i. do 2 f_equal. apply list_find_Some in Hfind as (Hi & HP & _).
      destruct (decide (r < length (heap w))%nat) as [Hlt|Hge].
      + rewrite lookup_app_l in HP by done.
        destruct (heap w !! r) as [m|] eqn:Hm; [|done]. simpl in HP. exfalso.
        apply lookup_app_Some in Hi as [Hi|[_ Hi]].
        * apply (proj1 (find_message_None w id) Hf r m); [by eapply list_elem_of_lookup_2|done|congruence].
        * apply list_lookup_singleton_Some in Hi as [_ <-]. lia.
      + destruct (decide (r = length (heap w))) as [->|?]; [done|].
        rewrite lookup_ge_None_2 in HP; [done|]. rewrite length_app. simpl. lia.
    - apply list_find_None in Hfind. apply Forall_app in Hfind as [_ Hlast].
      rewrite Forall_singleton in Hlast. exfalso. apply Hlast. rewrite Hnew. simpl. congruence. }
  simpl. by rewrite Hnew.
Qed.

Lemma fresh_id_nonempty ctx : fresh_id ctx ≠ "".
Proof. unfold fresh_id. by destruct (pretty (now ctx)). Qed.

(** X19: the id [message] acknowledges with finds the message.  When the
    id is new, the lookup by that id gives the message just stored, and a
    [mark_read] with that id is answered [{ok: true}] and records the
    reader on it. *)
Theorem message_id_finds_the_message ctx s a p w :
  payload a = Some p → find_message w (fresh_id ctx) = None →
  let sent_ := on_message ctx s a w [] in
  let w' := world_after sent_ in
  let msg := new_message ctx s p in
  acks (effects_of sent_) = (if ack a then [OkIdTs (fresh_id ctx) (now ctx)] else []) ∧
  find_message w' (fresh_id ctx) = Some (length (heap w), msg) ∧
  ∀ s2 a2 p2,
    payload a2 = Some p2 → p_messageId p2 = Some (fresh_id ctx) →
    let read_ := on_mark_read s2 a2 w' [] in
    acks (effects_of read_) = (if ack a2 then [Ok] else []) ∧
    find_message (world_after read_) (fresh_id ctx)
      = Some (length (heap w), with_readBy [userId s2] msg).
Proof.
  intros Hp Hf sent_ w' msg.
  set (W := set_ROOMS (λ rooms, match JsMap.get rooms (room msg) with
                                | Some info => JsMap.set rooms (room msg) (room_push (length (heap w)) info)
                                | None => rooms
                                end)
              (set_MESSAGES (λ ms, ms ++ [length (heap w)]) (set_heap (λ h, h ++ [msg]) w))).
  assert (sent_ = (W, Emit (IoTo (room msg)) "message" (BMessage msg)
                        :: (if ack a then [AckCall (OkIdTs (fresh_id ctx) (now ctx))] else []),
                   Done tt)) as Hsent.
  { unfold sent_. by rewrite (on_message_run ctx s a p w Hp), store_run. }
  assert (w' = W) as Hw' by (unfold w'; by rewrite Hsent).
  clearbody w' sent_. subst w' sent_.
  assert (find_message W (fresh_id ctx) = Some (length (heap w), msg)) as Hfound.
  { by apply (find_message_store w (fresh_id ctx) msg). }
  unfold effects_of. cbn [fst snd].
  split_and!; [by destruct (ack a)|done|].
  intros s2 a2 p2 Hp2 Hid2. cbv zeta.
  destruct (mem_mark_read_found s2 a2 p2 W (fresh_id ctx) (length (heap w)) msg Hp2 Hid2
              (fresh_id_nonempty ctx) Hfound) as (rest & Hread & Hrest).
  rewrite Hread. unfold effects_of, world_after. cbn [fst snd].
  split; [done|]. by apply (find_message_update _ _ _ msg).
Qed.

(** Bob answers in the room of the session. *)
Lemma message_id_finds_the_message_witness :
  let ctx := InMemDemo.at_time (InMemDemo.t0 + 6) "a00006" in
  let a := sent (fields [(F_text, "Hi again"); (F_room, "testroom")]) true in
  let sent_ := on_message ctx InMemDemo.bob a InMemDemo.said [] in
  acks (effects_of sent_) = [OkIdTs "1700000000006-a00006" (InMemDemo.t0 + 6)] ∧
  ∃ m, find_message (world_after sent_) "1700000000006-a00006"
       = Some (length (heap InMemDemo.said), m).
Proof.
  intros ctx a sent_.
  assert (find_message InMemDemo.said (fresh_id ctx) = None) as Hnone by (vm_compute; reflexivity).
  destruct (message_id_finds_the_message ctx InMemDemo.bob a
              (fields [(F_text, "Hi again"); (F_room, "testroom")]) InMemDemo.said eq_refl Hnone)
    as (Hack & Hfind & _).
  split; [exact Hack|]. eexists. exact Hfind.
Defined.

End inmem_lookup.

(** ** Connecting and searching (in-memory server) *)

Section inmem_connection.
Import InMem.

Lemma deref_suffix w k refs : deref w (drop k refs) `suffix_of` deref w refs.
Proof.
  exists (deref w (take k refs)). by rewrite <-deref_app, take_drop.
Qed.

(** X20: what [connection] does for the newcomer on the in-memory server:
    the socket is registered online and enters the room "global" and no
    other; it is sent [recent_messages], at most 50 messages, the last of
    the archive; nothing is stored; no callback is called; and what the
    other clients are sent is [users], [users_count] or a
    [notification]. *)
Theorem connection_syncs_the_newcomer s w :
  let run_ := on_connection s w [] in
  let w' := world_after run_ in
  outcome_of run_ = Done tt ∧ acks (effects_of run_) = [] ∧
  JsMap.get (ONLINE w') (socket_id s) = Some (userId s, userName s) ∧
  (∀ r sid, sid ∈ sockets_in (adapter w') r ↔
            sid ∈ sockets_in (adapter w) r ∨ (r = "global" ∧ sid = socket_id s)) ∧
  heap w' = heap w ∧ MESSAGES w' = MESSAGES w ∧ ROOMS w' = ROOMS w ∧
  (∃ recent,
     Emit (SocketEmit (socket_id s)) "recent_messages" (BRecent recent) ∈ effects_of run_ ∧
     (length recent ≤ 50)%nat ∧ recent `suffix_of` archive w) ∧
  (∀ t ev b, Emit t ev b ∈ effects_of run_ →
     t = SocketEmit (socket_id s) ∨ ev = "users" ∨ ev = "users_count" ∨ ev = "notification").
Proof.
  intros run_ w'. subst run_ w'. rewrite connection_run.
  unfold outcome_of, effects_of, world_after. cbn [fst snd].
  split_and!; [done|done| | |done|done|done| |].
  - simpl. by rewrite JsMap_get_set, decide_True.
  - intros r sid. simpl. apply sockets_in_adapter_join.
  - eexists. split; [do 3 apply list_elem_of_further; apply list_elem_of_here|]. split.
    + etrans; [apply length_deref|apply length_slice_last].
    + apply deref_suffix.
  - intros t ev b Hin.
    repeat (apply elem_of_cons in Hin as [Hin|Hin]; [simplify_eq; auto|]).
    by apply elem_of_nil in Hin.
Qed.

End inmem_connection.

Section inmem_search.
Import InMem.

Lemma js_slice_sublist {A} start (l : list A) : js_slice start l `sublist_of` l.
Proof. unfold js_slice. apply sublist_drop. Qed.

Lemma js_slice_last {A} (n : Z) (l : list A) :
  0 < n → js_slice (- n) l = slice_last (Z.to_nat n) l.
Proof.
  intros Hn. unfold js_slice, slice_last. rewrite bool_decide_true by lia. f_equal. lia.
Qed.

Lemma js_slice_zero {A} (l : list A) : js_slice (- 0) l = l.
Proof. unfold js_slice. rewrite bool_decide_false by lia. simpl. by rewrite Z.min_l by lia. Qed.

(** X21: [GET /messages/search].  A blank [q] is answered with status
    400.  Otherwise every result is a message of the archive that matches
    in its text or in the name of its sender, of the room asked for when
    one is; the results are the last hits in the order of the archive, at
    most 1000 of them for a positive limit; and a limit of 0, or one that
    is not a number, gives every hit. *)
Theorem search_returns_matches matches w q_q room_q limit_q :
  let q := trim (q_q ||: "") in
  let hits := filter (λ m, search_hit matches q room_q m = true) (archive w) in
  (q = "" → search matches w q_q room_q limit_q = Search400) ∧
  (q ≠ "" →
     ∃ results,
       search matches w q_q room_q limit_q = SearchOk results ∧
       results `suffix_of` hits ∧
       (∀ m, m ∈ results →
          m ∈ archive w ∧
          (matches q (text m ||: "") = true ∨ matches q (senderName m) = true) ∧
          (∀ r, room_q = Some r → r ≠ "" → room_or_global m = r)) ∧
       (∀ n, search_limit limit_q = Num n → 0 < n →
          results = slice_last (Z.to_nat n) hits ∧ (length results ≤ 1000)%nat) ∧
       (search_limit limit_q = Num 0 ∨ search_limit limit_q = NaN → results = hits)).
Proof.
  intros q hits. unfold search. fold q. split.
  - intros ->. done.
  - intros Hq. unfold truthy. rewrite bool_decide_true by done. simpl.
    eexists. split; [reflexivity|]. fold (archive w). fold hits. split_and!.
    + destruct (search_limit limit_q); unfold js_slice; apply suffix_drop.
    + intros m Hm.
      assert (m ∈ hits) as Hm'.
      { destruct (search_limit limit_q);
          apply (λ H, elem_of_sublist _ _ _ H (js_slice_sublist _ _)) in Hm; done. }
      clear Hm. apply list_elem_of_filter in Hm' as [Hhit Hm]. split; [done|].
      unfold search_hit in Hhit.
      destruct (negb (falsy room_q) && negb (bool_decide (room_or_global m = default "" room_q)))
        eqn:Hroom; [done|].
      split.
      * apply orb_true_iff in Hhit as [?|Hs]; [by left|right].
        simpl in Hs. by destruct (truthy (senderName m)) eqn:Ht;
          [|unfold truthy in Ht; apply bool_decide_eq_false_1, dec_stable in Ht; rewrite Ht].
      * intros r -> Hr. simpl in Hroom. rewrite truthy_ne in Hroom by done. simpl in Hroom.
        by apply negb_false_iff, bool_decide_eq_true in Hroom.
    + intros n Hl Hn. rewrite Hl. rewrite js_slice_last by done. split; [done|].
      pose proof (length_slice_last (Z.to_nat n) hits).
      unfold search_limit in Hl. destruct (default (Num 100) limit_q); [|done].
      injection Hl as <-. lia.
    + intros [->| ->]; [apply js_slice_zero|].
      unfold js_slice. rewrite bool_decide_false by lia. simpl. by rewrite Z.min_l by lia.
Qed.

(** A query that is a no-break space is blank. *)
Lemma search_refuses_a_blank_query matches w room_q limit_q :
  search matches w (Some nbsp) room_q limit_q = Search400.
Proof. reflexivity. Qed.

End inmem_search.

(** ** Upload names; the typing list of the client *)

Section upload_names.
Import InMem.

Lemma list_ascii_of_string_of_list l :
  String.list_ascii_of_string (String.string_of_list_ascii l) = l.
Proof. apply String.list_ascii_of_string_of_list_ascii. Qed.

(** X22: the file name the upload route stores keeps of the original
    name its letters, digits, dots, dashes and underscores, in order, and
    nothing else: no slash, no backslash, no space.  Cleaning a clean name
    changes nothing. *)
Theorem sanitize_keeps_safe_characters name :
  let out := String.list_ascii_of_string (sanitize name) in
  Forall (λ c, safe_char c = true) out ∧
  ("/"%char ∉ out) ∧ ("\"%char ∉ out) ∧ (" "%char ∉ out) ∧
  out `sublist_of` String.list_ascii_of_string name ∧
  sanitize (sanitize name) = sanitize name ∧
  (Forall (λ c, safe_char c = true) (String.list_ascii_of_string name) → sanitize name = name).
Proof.
  intros out. subst out. unfold sanitize. rewrite !list_ascii_of_string_of_list.
  assert (Forall (λ c, safe_char c = true)
            (filter (λ c, safe_char c = true) (String.list_ascii_of_string name))) as Hsafe.
  { apply Forall_forall. intros c Hc. by apply list_elem_of_filter in Hc as [? _]. }
  split_and!.
  - done.
  - intros Hin. by apply (proj1 (Forall_forall _ _) Hsafe) in Hin.
  - intros Hin. by apply (proj1 (Forall_forall _ _) Hsafe) in Hin.
  - intros Hin. by apply (proj1 (Forall_forall _ _) Hsafe) in Hin.
  - apply sublist_filter.
  - by rewrite (filter_all _ _ Hsafe).
  - intros Hall. rewrite (filter_all _ _ Hall). apply String.string_of_list_ascii_of_string.
Qed.

End upload_names.

Section client_typing.
Import Client.

Lemma run_snoc us u : run (us ++ [u]) = update (run us) u.
Proof. unfold run. by rewrite foldl_app. Qed.

Lemma on_typing_keys t prev :
  key <$> on_typing t prev
  = match list_find (λ p, key p = key t) prev with
    | Some _ => key <$> prev
    | None => (key <$> prev) ++ [key t]
    end.
Proof.
  unfold on_typing. destruct (list_find _ prev) as [?|]; [|by rewrite fmap_app].
  rewrite <-list_fmap_compose. apply list_fmap_ext. intros _ q _. simpl.
  by case_bool_decide.
Qed.

Lemma list_find_key_None t prev :
  list_find (λ p, key p = key t) prev = None → key t ∉ key <$> prev.
Proof.
  intros Hnone Hin. apply list_elem_of_fmap in Hin as (p & Hk & Hp).
  apply list_find_None in Hnone. by apply (proj1 (Forall_forall _ _) Hnone) in Hp.
Qed.

Lemma update_keys_NoDup prev u : NoDup (key <$> prev) → NoDup (key <$> update prev u).
Proof.
  intros Hnd. destruct u as [t|t]; simpl.
  - rewrite on_typing_keys. destruct (list_find _ prev) eqn:Hf; [done|].
    apply NoDup_app. split_and!; [done| |apply NoDup_singleton].
    intros k Hk ->%list_elem_of_singleton. by apply list_find_key_None in Hf.
  - eapply sublist_NoDup; [exact Hnd|]. apply fmap_sublist, sublist_filter.
Qed.

Lemma run_keys_NoDup us : NoDup (key <$> run us).
Proof.
  induction us as [|u us IH] using rev_ind; [apply NoDup_nil_2|].
  rewrite run_snoc. by apply update_keys_NoDup.
Qed.

Lemma timeout_after_replace t (l : list Typing) :
  filter (λ p, key p ≠ key t) ((λ p, if bool_decide (key p = key t) then t else p) <$> l)
  = filter (λ p, key p ≠ key t) l.
Proof.
  induction l as [|a l IH]; [done|]. csimpl. case_bool_decide as Hk.
  - rewrite (filter_cons_False _ t) by (intros H; by apply H).
    rewrite (filter_cons_False _ a) by (intros H; by apply H). done.
  - rewrite !filter_cons_True by done. by f_equal.
Qed.

(** X23: the typing list of [useSocket] has one entry for a user and
    room.  After a [typing] event the entry of that user and room is the
    event, and the other entries are as before; when its timer fires the
    entries of that user and room are removed and no other; and an event
    followed by its timer leaves what the timer alone would leave. *)
Theorem typing_list_has_one_entry_per_key us :
  NoDup (key <$> run us) ∧
  (∀ t, t ∈ run (us ++ [Arrives t]) ∧
        (∀ p, p ∈ run (us ++ [Arrives t]) → key p = key t → p = t) ∧
        (∀ p, key p ≠ key t → p ∈ run (us ++ [Arrives t]) ↔ p ∈ run us)) ∧
  (∀ t p, p ∈ run (us ++ [Expires t]) ↔ p ∈ run us ∧ key p ≠ key t) ∧
  (∀ t, run (us ++ [Arrives t; Expires t]) = run (us ++ [Expires t])).
Proof.
  split; [apply run_keys_NoDup|]. split_and!.
  - intros t. rewrite run_snoc. simpl. unfold on_typing.
    destruct (list_find _ (run us)) as [[i q]|] eqn:Hf.
    + apply list_find_Some in Hf as (Hi & Hq & _). split_and!.
      * apply list_elem_of_fmap. exists q. rewrite bool_decide_true by done.
        split; [done|]. by eapply list_elem_of_lookup_2.
      * intros p (p0 & -> & _)%list_elem_of_fmap. by case_bool_decide.
      * intros p Hp. rewrite list_elem_of_fmap. split.
        -- intros (p0 & -> & Hin). case_bool_decide; [done|]. done.
        -- intros Hin. exists p. by rewrite bool_decide_false.
    + split_and!.
      * apply elem_of_app. right. apply list_elem_of_here.
      * intros p [Hp| ->%list_elem_of_singleton]%elem_of_app Hk; [|done].
        apply list_find_None in Hf. by apply (proj1 (Forall_forall _ _) Hf) in Hp.
      * intros p Hp. rewrite elem_of_app, list_elem_of_singleton. split; [|by left].
        intros [?| ->]; done.
  - intros t p. rewrite run_snoc. simpl. unfold typing_timeout.
    rewrite list_elem_of_filter. tauto.
  - intros t. change [Arrives t; Expires t] with ([Arrives t] ++ [Expires t]).
    rewrite (assoc_L (++) us [Arrives t] [Expires t]), !run_snoc.
    simpl. unfold on_typing, typing_timeout.
    destruct (list_find _ (run us)) as [[i q]|] eqn:Hf.
    + apply timeout_after_replace.
    + rewrite filter_app, filter_cons_False, filter_nil by naive_solver.
      by rewrite app_nil_r.
Qed.

End client_typing.
